(** * go-git-http: routing, packet lines, access rules and event extraction

    A shallow embedding of [git-http.go] and [routing.go] of the Go package
    [githttp], and the properties its specification states about them.

    Go strings are byte sequences: they are [string]s here, and [list ascii]
    ([bytes]) where the code indexes or scans them.  The regular expressions
    of the package are kept as syntax trees and run by a backtracking matcher
    with the leftmost-first semantics of Go's [regexp] package; all character
    classes the package uses are ASCII, so matching bytes and matching runes
    agree on them. *)

From Stdlib Require Import List String Ascii Arith NArith ZArith Lia Bool Permutation.
Import ListNotations.
Open Scope string_scope.
Open Scope nat_scope.
Open Scope list_scope.

Set Implicit Arguments.

(* ================================================================== *)
(** * Part I: definitions *)
(* ================================================================== *)

(** ** Bytes *)

Definition bytes := list ascii.

Definition bytes_of (s : string) : bytes := list_ascii_of_string s.
Definition str_of (b : bytes) : string := string_of_list_ascii b.

(** [text[b:e]] *)
Definition slice (text : bytes) (b e : nat) : bytes := firstn (e - b) (skipn b text).

(** [strings.HasPrefix(s, p)] *)
Fixpoint hasPrefix (p s : bytes) : bool :=
  match p, s with
  | [], _ => true
  | a :: p', b :: s' => Ascii.eqb a b && hasPrefix p' s'
  | _ :: _, [] => false
  end.

Definition code (a : ascii) : nat := nat_of_ascii a.
Definition in_range (lo hi : nat) (a : ascii) : bool := (lo <=? code a) && (code a <=? hi).

Definition isDigit (a : ascii) : bool := in_range 48 57 a.
(** [[0-9a-f]] *)
Definition isLowerHex (a : ascii) : bool := isDigit a || in_range 97 102 a.
(** [[0-9a-fA-F]] *)
Definition isHex (a : ascii) : bool := isLowerHex a || in_range 65 70 a.
(** [\s] of Go's regexp syntax is [[\t\n\f\r ]]; [\S] is its complement. *)
Definition isSpace (a : ascii) : bool :=
  (code a =? 9) || (code a =? 10) || (code a =? 12) || (code a =? 13) || (code a =? 32).
Definition notSpace (a : ascii) : bool := negb (isSpace a).
(** [.] matches every character but the newline (no [s] flag is set). *)
Definition notNewline (a : ascii) : bool := negb (code a =? 10).
(** [[^/]] *)
Definition notSlash (a : ascii) : bool := negb (Ascii.eqb a "/").

(** ** Regular expressions, as Go's [regexp] runs them *)

Module Regexp.

Inductive regex : Type :=
| Empty                              (* the empty pattern *)
| Class (p : ascii -> bool)          (* one character of a class *)
| Cat (r1 r2 : regex)                (* r1 r2 *)
| Alt (r1 r2 : regex)                (* r1|r2, r1 preferred *)
| Rep (greedy : bool) (r : regex)    (* r* when greedy, r*? otherwise *)
| Cap (i : nat) (r : regex)          (* capture group number i *)
| BeginText                          (* ^ without the m flag *)
| EndText.                           (* $ without the m flag *)

(** Capture groups closed so far, the latest first: (group, (begin, end)). *)
Definition caps := list (nat * (nat * nat)).

(** End of the match and its groups. *)
Definition result := (nat * caps)%type.

(** A pattern at work: it matches at offset [pos] of the text, where [s]
    is the text from [pos] on, and hands what is left, with the groups
    closed so far, to the continuation. *)
Definition matcher : Type :=
  nat -> bytes -> caps -> (nat -> bytes -> caps -> option result) -> option result.

(** The loop of a repetition of [body]: a greedy one first tries the body
    once more and falls back on the continuation, a lazy one tries the
    continuation first.  The body runs again only when it consumed
    something, so [fuel] above the length of the text is never used up. *)
Fixpoint star (body : matcher) (greedy : bool)
    (k : nat -> bytes -> caps -> option result)
    (fuel : nat) (pos : nat) (s : bytes) (c : caps) {struct fuel} : option result :=
  match fuel with
  | 0 => k pos s c
  | S fuel' =>
      let again (_ : unit) :=
        body pos s c
          (fun pos' s' c' =>
             if pos <? pos' then star body greedy k fuel' pos' s' c' else None) in
      if greedy then
        match again tt with Some m => Some m | None => k pos s c end
      else
        match k pos s c with Some m => Some m | None => again tt end
  end.

(** [run r pos s c k] matches [r] at offset [pos].  Alternatives are tried
    in the order of preference of a backtracking matcher, which is the
    order Go's leftmost-first matching prefers them in. *)
Fixpoint run (r : regex) : matcher :=
  fun pos s c k =>
  match r with
  | Empty => k pos s c
  | Class p =>
      match s with
      | a :: s' => if p a then k (S pos) s' c else None
      | [] => None
      end
  | Cat r1 r2 => run r1 pos s c (fun pos' s' c' => run r2 pos' s' c' k)
  | Alt r1 r2 =>
      match run r1 pos s c k with
      | Some m => Some m
      | None => run r2 pos s c k
      end
  | Rep greedy r1 => star (run r1) greedy k (S (List.length s)) pos s c
  | Cap i r1 => run r1 pos s c (fun pos' s' c' => k pos' s' ((i, (pos, pos')) :: c'))
  | BeginText => if pos =? 0 then k pos s c else None
  | EndText => match s with [] => k pos s c | _ :: _ => None end
  end.

Definition accept (pos : nat) (_ : bytes) (c : caps) : option result := Some (pos, c).

(** The match that starts at [pos], if there is one. *)
Definition matchAt (r : regex) (pos : nat) (s : bytes) : option result :=
  run r pos s [] accept.

(** A match: where it begins and ends in the text, and its groups. *)
Record submatch : Type := { mBegin : nat; mEnd : nat; mCaps : caps }.

(** The leftmost match that begins at [pos] or later; [s] is the text from
    [pos] on. *)
Fixpoint search (r : regex) (pos : nat) (s : bytes) {struct s} : option submatch :=
  match matchAt r pos s with
  | Some (e, c) => Some {| mBegin := pos; mEnd := e; mCaps := c |}
  | None =>
      match s with
      | [] => None
      | _ :: s' => search r (S pos) s'
      end
  end.

Fixpoint lookup (i : nat) (c : caps) : option (nat * nat) :=
  match c with
  | [] => None
  | (j, be) :: c' => if i =? j then Some be else lookup i c'
  end.

(** [m[i]] of a [FindStringSubmatch] result: the whole match for 0, the text
    of group [i] otherwise, empty when the group took no part. *)
Definition sub (text : bytes) (m : submatch) (i : nat) : string :=
  match i with
  | 0 => str_of (slice text (mBegin m) (mEnd m))
  | _ =>
      match lookup i (mCaps m) with
      | Some (b, e) => str_of (slice text b e)
      | None => ""
      end
  end.

(** [re.FindStringSubmatch(text)]; [None] is Go's nil. *)
Definition FindStringSubmatch (re : regex) (text : string) : option submatch :=
  search re 0 (bytes_of text).

(** The loop of [allMatches] in Go's [regexp] package: successive matches that do
    not overlap; an empty match right after the previous match is dropped.
    Every round moves [pos] forward, so [length text + 2] rounds suffice. *)
Fixpoint allMatches (fuel : nat) (re : regex) (text : bytes) (pos : nat)
    (prevMatchEnd : option nat) : list submatch :=
  match fuel with
  | 0 => []
  | S fuel' =>
      if List.length text <? pos then [] else
      match search re pos (skipn pos text) with
      | None => []
      | Some m =>
          if mEnd m =? pos then
            let acc :=
              match prevMatchEnd with
              | Some p => negb (mBegin m =? p)
              | None => true
              end in
            let pos' := if pos <? List.length text then S pos else S (List.length text) in
            let rest := allMatches fuel' re text pos' (Some (mEnd m)) in
            if acc then m :: rest else rest
          else m :: allMatches fuel' re text (mEnd m) (Some (mEnd m))
      end
  end.

(** [re.FindAllStringSubmatch(text, -1)]; the empty list is Go's nil. *)
Definition FindAllStringSubmatch (re : regex) (text : string) : list submatch :=
  allMatches (S (S (String.length text))) re (bytes_of text) 0 None.

(** *** Pattern notation *)

Definition chr (a : ascii) : regex := Class (Ascii.eqb a).

(** A literal string. *)
Fixpoint lit (l : bytes) : regex :=
  match l with
  | [] => Empty
  | a :: l' => Cat (chr a) (lit l')
  end.
Definition str (s : string) : regex := lit (bytes_of s).

(** [r{n}] *)
Fixpoint times (n : nat) (r : regex) : regex :=
  match n with
  | 0 => Empty
  | S n' => Cat r (times n' r)
  end.

(** [r+] *)
Definition plus (r : regex) : regex := Cat r (Rep true r).

(** Concatenation of a list of patterns. *)
Fixpoint seq (rs : list regex) : regex :=
  match rs with
  | [] => Empty
  | r :: rs' => Cat r (seq rs')
  end.

End Regexp.
Import Regexp.

(** ** Events ([events.go], [git-http.go]) *)

Inductive EventType : Type := TAG | PUSH | FETCH.

(** [EventType] is an [int]: [TAG = iota + 1], then [PUSH], [FETCH]. *)
Definition EventType_int (e : EventType) : nat :=
  match e with TAG => 1 | PUSH => 2 | FETCH => 3 end.

Record Event : Type := {
  Type_ : EventType;
  Commit : string;
  Dir : string;
  Tag : string;
  Last : string;
  Branch : string
}.

(** [EventType.String] *)
Definition EventType_String (e : EventType) : string :=
  match e with TAG => "tag" | PUSH => "push" | FETCH => "fetch" end.

(** [receivePackRegex]:
    [([0-9a-fA-F]{40}) ([0-9a-fA-F]{40}) refs\/(heads|tags)\/(.*?)( |00|\u0000)|^(0000)$] *)
Definition receivePackRegex : regex :=
  Alt
    (seq [ Cap 1 (times 40 (Class isHex)); chr " ";
           Cap 2 (times 40 (Class isHex)); str " refs/";
           Cap 3 (Alt (str "heads") (str "tags")); chr "/";
           Cap 4 (Rep false (Class notNewline));
           Cap 5 (Alt (chr " ") (Alt (str "00") (chr "000"))) ])
    (seq [ BeginText; Cap 6 (str "0000"); EndText ]).

(** [uploadPackRegex]: [^\S+ ([0-9a-fA-F]{40})] *)
Definition uploadPackRegex : regex :=
  seq [ BeginText; plus (Class notSpace); chr " "; Cap 1 (times 40 (Class isHex)) ].

(** The events [serviceRpc] derives from the request payload [input], in the
    order it publishes them. *)
Definition rpcEvents (rpc dir input : string) : list Event :=
  if String.eqb rpc "upload-pack" then
    map (fun m =>
           {| Type_ := FETCH; Commit := sub (bytes_of input) m 1; Dir := dir;
              Tag := ""; Last := ""; Branch := "" |})
        (FindAllStringSubmatch uploadPackRegex input)
  else if String.eqb rpc "receive-pack" then
    map (fun m =>
           let text := bytes_of input in
           if String.eqb (sub text m 3) "heads" then
             {| Type_ := PUSH; Commit := sub text m 2; Dir := dir;
                Tag := ""; Last := sub text m 1; Branch := sub text m 4 |}
           else
             {| Type_ := TAG; Commit := sub text m 2; Dir := dir;
                Tag := sub text m 4; Last := sub text m 1; Branch := "" |})
        (FindAllStringSubmatch receivePackRegex input)
  else [].

(** The hashes of the requests in [testdata]: forty zeros for a branch that
    does not exist yet, and two commits. *)
Definition zeros40 : string := "0000000000000000000000000000000000000000".
Definition sha_a : string := "92eef6dcb9cc198bc3ac6010c108fa482773f116".
Definition sha_b : string := "a647ec2ea40ee9ca35d32232dc28de22b1537e00".

(** A newline and a NUL byte. *)
Definition nl : string := String "010" "".
Definition nul : string := String "000" "".

(** The events [serviceRpc] builds. *)
Definition fetchEvent (dir commit : string) : Event :=
  {| Type_ := FETCH; Commit := commit; Dir := dir; Tag := ""; Last := ""; Branch := "" |}.

Definition pushEvent (dir last commit branch : string) : Event :=
  {| Type_ := PUSH; Commit := commit; Dir := dir; Tag := ""; Last := last;
     Branch := branch |}.

Definition tagEvent (dir last commit tag : string) : Event :=
  {| Type_ := TAG; Commit := commit; Dir := dir; Tag := tag; Last := last;
     Branch := "" |}.


(** ** Packet lines ([git-http.go]) *)

(** The digits of [strconv]. *)
Definition digits : bytes := bytes_of "0123456789abcdefghijklmnopqrstuvwxyz".

Definition digit (n : N) : ascii := nth (N.to_nat n) digits "0"%char.

(** The loop of [strconv.formatBits]: the digits of [u] in base [b], least
    significant first, pushed in front of [acc].  A [uint64] has at most 64
    digits, which bounds the loop. *)
Fixpoint formatBits (fuel : nat) (b u : N) (acc : bytes) : bytes :=
  match fuel with
  | 0 => digit u :: acc
  | S fuel' =>
      if (b <=? u)%N
      then formatBits fuel' b (u / b)%N (digit (u mod b)%N :: acc)
      else digit u :: acc
  end.

(** [strconv.FormatInt(i, base)] *)
Definition FormatInt (i : Z) (base : N) : string :=
  if (i <? 0)%Z
  then String "-" (str_of (formatBits 64 base (Z.to_N (- i)) []))
  else str_of (formatBits 64 base (Z.to_N i) []).

(** [strings.Repeat] *)
Fixpoint Repeat (s : string) (count : nat) : string :=
  match count with
  | 0 => ""
  | S n => (s ++ Repeat s n)%string
  end.

Definition packetFlush : string := "0000".

Definition packetWrite (str : string) : string :=
  let s := FormatInt (Z.of_nat (String.length str) + 4) 16 in
  let s :=
    if negb (String.length s mod 4 =? 0)
    then (Repeat "0" (4 - String.length s mod 4) ++ s)%string
    else s in
  (s ++ str)%string.

(** The reading side the specification states the round trip with; the
    package has no decoder of its own.  [hexValue] is the value of one
    lowercase hexadecimal digit, [decodeLength] reads the first four
    characters of a packet line as a hexadecimal number, [payload] is what
    follows them. *)
Definition hexValue (a : ascii) : option N :=
  if isDigit a then Some (N.of_nat (code a - 48))
  else if in_range 97 102 a then Some (N.of_nat (code a - 87))
  else None.

Fixpoint parseHex (acc : N) (l : bytes) : option N :=
  match l with
  | [] => Some acc
  | a :: l' =>
      match hexValue a with
      | Some d => parseHex (acc * 16 + d)%N l'
      | None => None
      end
  end.

Definition decodeLength (pkt : string) : option N :=
  let l := bytes_of pkt in
  if List.length l <? 4 then None else parseHex 0 (firstn 4 l).

Definition payload (pkt : string) : string := str_of (skipn 4 (bytes_of pkt)).

(** ** Paths (Go's [path] package, on path elements) *)

Module GoPath.

(** The elements of a path, the text between its slashes: ["/a//b"] has the
    elements [""], ["a"], [""] and ["b"]. *)
Fixpoint elements (p : bytes) : list bytes :=
  match p with
  | [] => [[]]
  | a :: p' =>
      if Ascii.eqb a "/" then [] :: elements p'
      else
        match elements p' with
        | e :: es => (a :: e) :: es
        | [] => [[a]]
        end
  end.

Definition isDot (e : bytes) : bool := String.eqb (str_of e) ".".
Definition isDotDot (e : bytes) : bool := String.eqb (str_of e) "..".

(** The loop of [path.Clean] over the elements of the path.  [out] holds
    the elements written so far, the last one first.  Empty and [.]
    elements are dropped; [..] removes the element before it when there is
    one that is not itself a leading [..], is dropped at the top of a
    rooted path, and is kept at the front of a relative one. *)
Fixpoint cleanElements (rooted : bool) (es : list bytes) (out : list bytes)
    : list bytes :=
  match es with
  | [] => out
  | e :: es' =>
      match e with
      | [] => cleanElements rooted es' out
      | _ :: _ =>
          if isDot e then cleanElements rooted es' out
          else if isDotDot e then
            match out with
            | top :: out' =>
                if isDotDot top
                then cleanElements rooted es' (e :: out)
                else cleanElements rooted es' out'
            | [] =>
                if rooted
                then cleanElements rooted es' []
                else cleanElements rooted es' [e]
            end
          else cleanElements rooted es' (e :: out)
      end
  end.

(** The elements joined with slashes. *)
Fixpoint joinElements (es : list bytes) : bytes :=
  match es with
  | [] => []
  | [e] => e
  | e :: es' => e ++ "/"%char :: joinElements es'
  end.

Definition isRooted (p : bytes) : bool :=
  match p with
  | a :: _ => Ascii.eqb a "/"
  | [] => false
  end.

(** [path.Clean] *)
Definition Clean (path : string) : string :=
  let p := bytes_of path in
  match p with
  | [] => "."
  | _ :: _ =>
      let rooted := isRooted p in
      let out := rev (cleanElements rooted (elements p) []) in
      if rooted then String "/" (str_of (joinElements out))
      else
        match out with
        | [] => "."
        | _ :: _ => str_of (joinElements out)
        end
  end.

(** [path.Join]: the elements that are not empty, separated by slashes,
    cleaned; the empty string when there is none. *)
Fixpoint concatWithSlash (elem : list string) : string :=
  match elem with
  | [] => ""
  | e :: elem' =>
      if String.eqb e "" then concatWithSlash elem'
      else
        let rest := concatWithSlash elem' in
        if String.eqb rest "" then e else (e ++ "/" ++ rest)%string
  end.

Definition Join (elem : list string) : string :=
  let buf := concatWithSlash elem in
  if String.eqb buf "" then "" else Clean buf.

(** The table of [path_test.go]: paths and their clean forms. *)
Definition cleantests : list (string * string) :=
  [ ("", "."); ("abc", "abc"); ("abc/def", "abc/def"); ("a/b/c", "a/b/c");
    (".", "."); ("..", ".."); ("../..", "../.."); ("../../abc", "../../abc");
    ("/abc", "/abc"); ("/", "/");
    ("abc/", "abc"); ("abc/def/", "abc/def"); ("a/b/c/", "a/b/c"); ("./", ".");
    ("../", ".."); ("../../", "../.."); ("/abc/", "/abc");
    ("abc//def//ghi", "abc/def/ghi"); ("//abc", "/abc"); ("///abc", "/abc");
    ("//abc//", "/abc"); ("abc//", "abc");
    ("abc/./def", "abc/def"); ("/./abc/def", "/abc/def"); ("abc/.", "abc");
    ("abc/def/ghi/../jkl", "abc/def/jkl"); ("abc/def/../ghi/../jkl", "abc/jkl");
    ("abc/def/..", "abc"); ("abc/def/../..", "."); ("/abc/def/../..", "/");
    ("abc/def/../../..", ".."); ("/abc/def/../../..", "/");
    ("abc/def/../../../ghi/jkl/../../../mno", "../../mno");
    ("abc/./../def", "def"); ("abc//./../def", "def");
    ("abc/../../././../def", "../../def") ].

(** [f] is [root] or lies below it. *)
Definition isUnder (root f : string) : bool :=
  String.eqb f root || hasPrefix (bytes_of root ++ ["/"%char]) (bytes_of f).

(** An element that names a file or a directory: not empty, not [.] and
    not [..]. *)
Definition isName (e : bytes) : bool :=
  match e with
  | [] => false
  | _ :: _ => negb (isDot e) && negb (isDotDot e)
  end.

(** A root directory in clean form: a slash, then names separated by
    single slashes, at least one. *)
Definition isCleanRoot (root : string) : bool :=
  match elements (bytes_of root) with
  | [] :: e :: es => forallb isName (e :: es)
  | _ => false
  end.

(** Whether the [..] elements of a path stay at or below the directory the
    path starts in, [depth] names below it having been entered already. *)
Fixpoint staysBelow (es : list bytes) (depth : nat) : bool :=
  match es with
  | [] => true
  | e :: es' =>
      match e with
      | [] => staysBelow es' depth
      | _ :: _ =>
          if isDot e then staysBelow es' depth
          else if isDotDot e then
            match depth with
            | 0 => false
            | S d => staysBelow es' d
            end
          else staysBelow es' (S depth)
      end
  end.

End GoPath.

(** ** The server and its surroundings *)

Record GitHttp : Type := {
  ProjectRoot : string;
  GitBinPath : string;
  UploadPack : bool;
  ReceivePack : bool;
  (** whether [EventHandler] is not nil; a call of it is the effect [Handle] *)
  EventHandler : bool
}.

(** [New(root)] *)
Definition New (root : string) : GitHttp :=
  {| ProjectRoot := root; GitBinPath := "/usr/bin/git";
     UploadPack := true; ReceivePack := true; EventHandler := false |}.

(** What [os.Stat] answers: the file is there, [os.IsNotExist] holds of the
    error, or another error (a permission, say). *)
Inductive StatResult : Type := StatOk | StatNotExist | StatError.

Inductive error : Type :=
| ErrNotExist (path : string)
| ErrGetwd
| ErrGzipHeader
| ErrExec (what : string).

(** A subprocess made by [exec.Command], as [serviceRpc] sees it: which of
    [StdinPipe], [StdoutPipe], [Start] and [Wait] return an error, and what
    the process does when it has started and is given [input] on its
    standard input.  [stdoutFor input] is what it writes to its standard
    output.  [stallsOn input] holds when it stops reading [input] before
    the end, with more of it left than the pipe of its standard input
    takes, because it waits for room in the pipe of its standard output:
    the pipes hold a bounded number of bytes, and a process that has
    written more than its output pipe holds waits until somebody reads.
    [runsForever input] holds when it reads [input] and then neither
    closes its standard output nor exits.  [serviceRpc] drops the error of
    [Wait]. *)
Record Cmd : Type := {
  stdinPipeFails : bool;
  stdoutPipeFails : bool;
  startFails : bool;
  waitFails : bool;
  stdoutFor : string -> string;
  stallsOn : string -> bool;
  runsForever : string -> bool
}.

(** The operating system as the package sees it: the working directory, the
    file system, the standard output of [GitBinPath] run in a directory on
    some arguments ([exec.Cmd.Output]), the subprocess [exec.Command] makes
    for a program, its arguments and its directory, and the decoders of
    [compress/gzip] and [compress/flate] ([None]: [gzip.NewReader] rejects
    the header). *)
Record OS : Type := {
  Getwd : option string;
  Stat : string -> StatResult;
  Output : string -> list string -> string;
  Command : string -> list string -> string -> Cmd;
  gunzip : string -> option string;
  inflate : string -> string
}.

(** The same system with another answer of [exec.Command]. *)
Definition withCommand (os : OS) (c : string -> list string -> string -> Cmd) : OS :=
  {| Getwd := Getwd os; Stat := Stat os; Output := Output os; Command := c;
     gunzip := gunzip os; inflate := inflate os |}.

(** A subprocess that starts, reads its input, writes [out] and exits, and
    a system on which exactly the paths [present] exist. *)
Definition quietCmd (out : string) : Cmd :=
  {| stdinPipeFails := false; stdoutPipeFails := false; startFails := false;
     waitFails := false; stdoutFor := fun _ => out;
     stallsOn := fun _ => false; runsForever := fun _ => false |}.

Definition hostOS (present : list string) : OS :=
  {| Getwd := Some "/";
     Stat := fun f => if existsb (String.eqb f) present then StatOk else StatNotExist;
     Output := fun _ _ => "";
     Command := fun _ _ _ => quietCmd "";
     gunzip := fun body => Some body;
     inflate := fun body => body |}.

(** A subprocess that does not start: [Start] and [Wait] return errors. *)
Definition brokenCmd : Cmd :=
  {| stdinPipeFails := false; stdoutPipeFails := false; startFails := true;
     waitFails := true; stdoutFor := fun _ => "";
     stallsOn := fun _ => false; runsForever := fun _ => false |}.

(** The number of bytes a pipe takes on Linux. *)
Definition pipeSize : N := 65536.

(** A subprocess that starts and answers what it reads as it reads it,
    with more output than the pipe takes: on an input of more than [limit]
    bytes it waits for room in the pipe of its standard output before it
    has read the input to the end. *)
Definition stallingCmd (limit : N) (out : string) : Cmd :=
  {| stdinPipeFails := false; stdoutPipeFails := false; startFails := false;
     waitFails := false; stdoutFor := fun _ => out;
     stallsOn := fun input => (limit <? N.of_nat (String.length input))%N;
     runsForever := fun _ => false |}.

(** The server of [New] with an event handler. *)
Definition watched (root : string) : GitHttp :=
  {| ProjectRoot := root; GitBinPath := "/usr/bin/git";
     UploadPack := true; ReceivePack := true; EventHandler := true |}.

(** The fields of [*http.Request] the package reads; the header fields hold
    what [r.Header.Get] returns, [FormService] what [r.FormValue("service")]
    returns. *)
Record Request : Type := {
  Method : string;
  Path : string;
  Proto : string;
  ContentType : string;
  ContentEncoding : string;
  FormService : string;
  Body : string
}.

(** The POST request of a git client for the RPC [rpc] of the repository
    [/repo.git], with the payload [body]. *)
Definition rpcRequest (rpc body : string) : Request :=
  {| Method := "POST";
     Path := ("/repo.git/git-" ++ rpc)%string;
     Proto := "HTTP/1.1";
     ContentType := ("application/x-git-" ++ rpc ++ "-request")%string;
     ContentEncoding := "";
     FormService := "";
     Body := body |}.

(** A GET request. *)
Definition getRequest (proto path : string) : Request :=
  {| Method := "GET"; Path := path; Proto := proto; ContentType := "";
     ContentEncoding := ""; FormService := ""; Body := "" |}.

(** How a Go call ends: with a value, with a run-time panic, or not at
    all, when it waits for something that never comes. *)
Inductive go (A : Type) : Type :=
| Ret (a : A)
| Panic (msg : string)
| Blocked.
Arguments Ret {A} a.
Arguments Panic {A} msg.
Arguments Blocked {A}.

(** ** Repository directories ([getGitDir]) *)

Definition getGitDir (g : GitHttp) (os : OS) (file_path : string) : string * option error :=
  let root := ProjectRoot g in
  match (if String.eqb root "" then Getwd os else Some root) with
  | None => ("", Some ErrGetwd)
  | Some root =>
      let f := GoPath.Join [root; file_path] in
      match Stat os f with
      | StatNotExist => ("", Some (ErrNotExist f))
      | StatOk | StatError => (f, None)
      end
  end.

(** ** Access rules ([hasAccess], [getConfigSetting], [getGitConfig]) *)

(** [strings.Replace(s, old, "", n)] for a non-empty [old], on bytes: [n]
    occurrences are removed, all of them when [n] is [None] (Go's -1). *)
Fixpoint removeOld (fuel : nat) (old s : bytes) (n : option nat) : bytes :=
  match fuel with
  | 0 => s
  | S fuel' =>
      match n with
      | Some 0 => s
      | _ =>
          match s with
          | [] => []
          | a :: s' =>
              if hasPrefix old s
              then removeOld fuel' old (skipn (List.length old) s)
                     (option_map Nat.pred n)
              else a :: removeOld fuel' old s' n
          end
      end
  end.

Definition Replace_with_empty (s old : string) (n : option nat) : string :=
  if String.eqb old "" then s
  else str_of (removeOld (S (String.length s)) (bytes_of old) (bytes_of s) n).

Definition gitCommand (g : GitHttp) (os : OS) (dir : string) (args : list string) : string :=
  Output os dir args.

(** [out[0 : len(out)-1]] panics on an empty [out]. *)
Definition getGitConfig (g : GitHttp) (os : OS) (config_name dir : string) : go string :=
  let out := gitCommand g os dir ["config"; config_name] in
  if String.length out =? 0
  then Panic "slice bounds out of range"
  else Ret (substring 0 (String.length out - 1) out).

Definition getConfigSetting (g : GitHttp) (os : OS) (service_name dir : string) : go bool :=
  let service_name := Replace_with_empty service_name "-" None in
  match getGitConfig g os ("http." ++ service_name)%string dir with
  | Panic msg => Panic msg
  | Blocked => Blocked
  | Ret setting =>
      if String.eqb service_name "uploadpack"
      then Ret (negb (String.eqb setting "false"))
      else Ret (String.eqb setting "true")
  end.

Definition hasAccess (g : GitHttp) (os : OS) (r : Request) (dir rpc : string)
    (check_content_type : bool) : go bool :=
  if check_content_type
     && negb (String.eqb (ContentType r) ("application/x-git-" ++ rpc ++ "-request")%string)
  then Ret false
  else if negb (String.eqb rpc "upload-pack" || String.eqb rpc "receive-pack")
  then Ret false
  else if String.eqb rpc "receive-pack" then Ret (ReceivePack g)
  else if String.eqb rpc "upload-pack" then Ret (UploadPack g)
  else getConfigSetting g os rpc dir.

(** ** Routing ([services], [getService], [requestHandler]) *)

(** The functions a [Service] can name as its [Handler]. *)
Inductive handler : Type :=
| serviceRpc_
| getInfoRefs
| getTextFile
| getInfoPacks
| getLooseObject
| getPackFile
| getIdxFile.

Record Service : Type := {
  SMethod : string;
  Handler : handler;
  Rpc : string
}.

Record HandlerReq : Type := {
  hr_r : Request;
  hr_Rpc : string;
  hr_Dir : string;
  hr_File : string
}.

(** [(.*?)] followed by the rest of the pattern and [$]. *)
Definition route (suffix : list regex) : regex :=
  Cat (Cap 1 (Rep false (Class notNewline))) (seq (suffix ++ [EndText])).

Definition _serviceRpcUpload := route [str "/git-upload-pack"].
Definition _serviceRpcReceive := route [str "/git-receive-pack"].
Definition _getInfoRefs := route [str "/info/refs"].
Definition _getHead := route [str "/HEAD"].
Definition _getAlternates := route [str "/objects/info/alternates"].
Definition _getHttpAlternates := route [str "/objects/info/http-alternates"].
Definition _getInfoPacks := route [str "/objects/info/packs"].
Definition _getInfoFile := route [str "/objects/info/"; Rep true (Class notSlash)].
Definition _getLooseObject :=
  route [str "/objects/"; times 2 (Class isLowerHex); chr "/"; times 38 (Class isLowerHex)].
Definition _getPackFile :=
  route [str "/objects/pack/pack-"; times 40 (Class isLowerHex); str ".pack"].
Definition _getIdxFile :=
  route [str "/objects/pack/pack-"; times 40 (Class isLowerHex); str ".idx"].

(** The entries of the map [services()] returns, in the order the map
    literal lists them.  A Go map has no order of its own: a [range] over it
    visits the entries in an order that Go leaves unspecified and changes
    from one loop to the next. *)
Definition services : list (regex * Service) :=
  [ (_serviceRpcUpload, {| SMethod := "POST"; Handler := serviceRpc_; Rpc := "upload-pack" |});
    (_serviceRpcReceive, {| SMethod := "POST"; Handler := serviceRpc_; Rpc := "receive-pack" |});
    (_getInfoRefs, {| SMethod := "GET"; Handler := getInfoRefs; Rpc := "" |});
    (_getHead, {| SMethod := "GET"; Handler := getTextFile; Rpc := "" |});
    (_getAlternates, {| SMethod := "GET"; Handler := getTextFile; Rpc := "" |});
    (_getHttpAlternates, {| SMethod := "GET"; Handler := getTextFile; Rpc := "" |});
    (_getInfoPacks, {| SMethod := "GET"; Handler := getInfoPacks; Rpc := "" |});
    (_getInfoFile, {| SMethod := "GET"; Handler := getTextFile; Rpc := "" |});
    (_getLooseObject, {| SMethod := "GET"; Handler := getLooseObject; Rpc := "" |});
    (_getPackFile, {| SMethod := "GET"; Handler := getPackFile; Rpc := "" |});
    (_getIdxFile, {| SMethod := "GET"; Handler := getIdxFile; Rpc := "" |}) ].

(** The entries of the patterns [/objects/info/alternates],
    [/objects/info/packs] and [/objects/info/[^/]*]. *)
Definition alternatesEntry : regex * Service :=
  (_getAlternates, {| SMethod := "GET"; Handler := getTextFile; Rpc := "" |}).
Definition infoPacksEntry : regex * Service :=
  (_getInfoPacks, {| SMethod := "GET"; Handler := getInfoPacks; Rpc := "" |}).
Definition infoFileEntry : regex * Service :=
  (_getInfoFile, {| SMethod := "GET"; Handler := getTextFile; Rpc := "" |}).

(** An order in which a [range] over the map can visit its entries. *)
Definition visitOrder (visit : list (regex * Service)) : Prop :=
  Permutation services visit.

(** [getService] of [routing.go], the entries visited in the order [visit]:
    the repository part of the path and the service of the first entry whose
    pattern matches; [None] is the nil service. *)
Fixpoint getService (visit : list (regex * Service)) (path : string)
    : option (string * Service) :=
  match visit with
  | [] => None
  | (re, service) :: visit' =>
      match FindStringSubmatch re path with
      | Some m => Some (sub (bytes_of path) m 1, service)
      | None => getService visit' path
      end
  end.

(** The pattern [re] matches somewhere in [path]. *)
Definition matchesPath (re : regex) (path : string) : Prop :=
  FindStringSubmatch re path <> None.

(** The text ends with [sfx]. *)
Definition endsWith (sfx text : bytes) : Prop := exists pre, text = pre ++ sfx.

(** What a request handler does with the response: it writes a status and a
    body itself, or it calls the handler of a service on a [HandlerReq]. *)
Inductive response : Type :=
| Rendered (status : nat) (body : string)
| Calls (h : handler) (hr : HandlerReq).

Definition StatusBadRequest := 400.
Definition StatusForbidden := 403.
Definition StatusNotFound := 404.
Definition StatusMethodNotAllowed := 405.

Definition renderMethodNotAllowed (r : Request) : response :=
  if String.eqb (Proto r) "HTTP/1.1"
  then Rendered StatusMethodNotAllowed "Method Not Allowed"
  else Rendered StatusBadRequest "Bad Request".

Definition renderNotFound : response := Rendered StatusNotFound "Not Found".

Definition renderNoAccess : response := Rendered StatusForbidden "Forbidden".

(** [requestHandler] of [routing.go] *)
Definition requestHandler (g : GitHttp) (os : OS) (visit : list (regex * Service))
    (r : Request) : response :=
  match getService visit (Path r) with
  | None => renderNotFound
  | Some (repo, service) =>
      if negb (String.eqb (SMethod service) (Method r)) then renderMethodNotAllowed r
      else
        let rpc := Rpc service in
        let file := Replace_with_empty (Path r) (repo ++ "/")%string (Some 1) in
        match getGitDir g os repo with
        | (_, Some _) => renderNotFound
        | (dir, None) =>
            Calls (Handler service)
              {| hr_r := r; hr_Rpc := rpc; hr_Dir := dir; hr_File := file |}
        end
  end.

(** [requestHandler] of [git-http.go]: the same steps in one loop over the
    map, each pattern compiled inside the loop. *)
Fixpoint requestHandler_loop (g : GitHttp) (os : OS) (visit : list (regex * Service))
    (r : Request) : response :=
  match visit with
  | [] => renderNotFound
  | (re, service) :: visit' =>
      match FindStringSubmatch re (Path r) with
      | Some m =>
          if negb (String.eqb (SMethod service) (Method r)) then renderMethodNotAllowed r
          else
            let rpc := Rpc service in
            let m1 := sub (bytes_of (Path r)) m 1 in
            let file := Replace_with_empty (Path r) (m1 ++ "/")%string (Some 1) in
            match getGitDir g os m1 with
            | (_, Some _) => renderNotFound
            | (dir, None) =>
                Calls (Handler service)
                  {| hr_r := r; hr_Rpc := rpc; hr_Dir := dir; hr_File := file |}
            end
      | None => requestHandler_loop g os visit' r
      end
  end.

(** ** The RPC handler ([serviceRpc]) *)

(** What a handler does to the world, in the order it does it: the calls
    it makes, each begun when the one before it has returned.  The last
    call of a handler that ends [Blocked] is the one that never returns. *)
Inductive effect : Type :=
| Handle (e : Event)                  (* g.EventHandler(e) *)
| PrintEvent (e : Event)              (* fmt.Printf("EVENT: %q\n", e) *)
| Print (s : string)                  (* fmt.Printf *)
| Log (e : error)                     (* log.Print(err) *)
| SetHeader (key value : string)      (* w.Header().Set *)
| WriteHeader (status : nat)          (* w.WriteHeader *)
| Write (body : string)               (* w.Write *)
| CmdStart (name : string) (args : list string) (dir : string)   (* cmd.Start() *)
| StdinWrite (input : string)         (* in.Write(input) *)
| CopyStdout (data : string)          (* io.Copy(w, stdout) *)
| CmdWait.                            (* cmd.Wait() *)

(** A handler: the effects so far, and a value unless it panicked or
    waits for ever. *)
Definition M (A : Type) : Type := (list effect * go A)%type.

Definition ret {A : Type} (a : A) : M A := ([], Ret a).

Definition bind {A B : Type} (m : M A) (f : A -> M B) : M B :=
  match m with
  | (t, Ret a) => let (t', b) := f a in (t ++ t', b)
  | (t, Panic msg) => (t, Panic msg)
  | (t, Blocked) => (t, Blocked)
  end.

Definition emit (e : effect) : M unit := ([e], Ret tt).

Definition panic {A : Type} (msg : string) : M A := ([], Panic msg).

(** The call just begun never returns. *)
Definition blocked {A : Type} : M A := ([], Blocked).

Definition lift {A : Type} (v : go A) : M A := ([], v).

Notation "x <- m ;; k" := (bind m (fun x => k))
  (at level 61, m at next level, right associativity).
Notation "m ;; k" := (bind m (fun _ => k))
  (at level 61, right associativity).

Fixpoint forEach {A : Type} (l : list A) (f : A -> M unit) : M unit :=
  match l with
  | [] => ret tt
  | a :: l' => f a ;; forEach l' f
  end.

Definition trace {A : Type} (m : M A) : list effect := fst m.

(** [g.event(e)] *)
Definition event (g : GitHttp) (e : Event) : M unit :=
  if EventHandler g then emit (Handle e) else emit (PrintEvent e).

(** [requestReader] followed by [ioutil.ReadAll], whose error [serviceRpc]
    drops: the bytes read from the body, decoded when the request says so. *)
Definition requestReader (os : OS) (r : Request) : string + error :=
  if String.eqb (ContentEncoding r) "gzip" then
    match gunzip os (Body r) with
    | Some data => inl data
    | None => inr ErrGzipHeader
    end
  else if String.eqb (ContentEncoding r) "deflate" then inl (inflate os (Body r))
  else inl (Body r).

(** [if err != nil { log.Print(err) }] *)
Definition logIf (failed : bool) (e : error) : M unit :=
  if failed then emit (Log e) else ret tt.

(** [in.Write(input)] never returns: the process runs, its standard output
    goes to the pipe, which [serviceRpc] reads only when the write has
    returned, and the process stalls on [input].  A process that did not
    start has left the pipe closed, and the write returns with an error;
    with no pipe for it, the standard output of the process is the null
    device, which always has room. *)
Definition writeBlocks (cmd : Cmd) (input : string) : bool :=
  negb (startFails cmd) && negb (stdoutPipeFails cmd) && stallsOn cmd input.

(** [io.Copy(w, stdout)] never returns: the process runs and never closes
    its standard output. *)
Definition copyBlocks (cmd : Cmd) (input : string) : bool :=
  negb (startFails cmd) && runsForever cmd input.

Definition serviceRpc (g : GitHttp) (os : OS) (hr : HandlerReq) : M unit :=
  let r := hr_r hr in
  let rpc := hr_Rpc hr in
  let dir := hr_Dir hr in
  access <- lift (hasAccess g os r dir rpc true) ;;
  if negb access then
    emit (WriteHeader StatusForbidden) ;; emit (Write "Forbidden")
  else
    match requestReader os r with
    | inr err => emit (Print "Error getting reader")
    | inl input =>
        forEach (rpcEvents rpc dir input) (event g) ;;
        emit (SetHeader "Content-Type" ("application/x-git-" ++ rpc ++ "-result")%string) ;;
        emit (WriteHeader 200) ;;
        let args := [rpc; "--stateless-rpc"; dir] in
        let cmd := Command os (GitBinPath g) args dir in
        logIf (stdinPipeFails cmd) (ErrExec "StdinPipe") ;;
        logIf (stdoutPipeFails cmd) (ErrExec "StdoutPipe") ;;
        emit (CmdStart (GitBinPath g) args dir) ;;
        logIf (startFails cmd) (ErrExec "Start") ;;
        (* in.Write(input): [in] is nil when StdinPipe failed; nothing
           reads the output of the process while this call runs *)
        (if stdinPipeFails cmd then panic "nil pointer dereference"
         else
           emit (StdinWrite input) ;;
           if writeBlocks cmd input then blocked else ret tt) ;;
        (* io.Copy(w, stdout): [stdout] is nil when StdoutPipe failed; the
           call returns at the end of the output *)
        (if stdoutPipeFails cmd then panic "nil pointer dereference"
         else
           emit (CopyStdout (if startFails cmd then "" else stdoutFor cmd input)) ;;
           if copyBlocks cmd input then blocked else ret tt) ;;
        emit CmdWait
    end.

(** What the dispatcher hands to [serviceRpc] for [rpcRequest rpc body]. *)
Definition rpcHandlerReq (rpc body : string) : HandlerReq :=
  {| hr_r := rpcRequest rpc body; hr_Rpc := rpc; hr_Dir := "/srv/git/repo.git";
     hr_File := ("git-" ++ rpc)%string |}.

(** The ref line of a push of [92eef6dc...] to a new branch [master], as a
    git client sends it. *)
Definition pushPayload : string :=
  ("0094" ++ zeros40 ++ " " ++ sha_a ++ " refs/heads/master" ++ nul
   ++ " report-status side-band-64k agent=git/2.4.3" ++ "0000")%string.

(** The same push with a pack of 70000 bytes behind the ref line, more
    than a pipe takes. *)
Definition largePush : string :=
  (pushPayload ++ Repeat "P" (N.to_nat 70000))%string.

(** The events a trace hands to the event handler, in order. *)
Fixpoint handled (t : list effect) : list Event :=
  match t with
  | [] => []
  | Handle e :: t' => e :: handled t'
  | _ :: t' => handled t'
  end.

(** A trace in which the request body is written to the subprocess in one
    call that returns before the copy of the subprocess's output begins. *)
Definition writesThenReads (t : list effect) : Prop :=
  exists pre input data post,
    t = pre ++ StdinWrite input :: CopyStdout data :: post.

(** ** Patterns without groups *)

(** [r] has no capture group. *)
Fixpoint capfree (r : regex) : bool :=
  match r with
  | Empty | Class _ | BeginText | EndText => true
  | Cat r1 r2 | Alt r1 r2 => capfree r1 && capfree r2
  | Rep _ r1 => capfree r1
  | Cap _ _ => false
  end.

(** ** Where a ref name ends in a payload of receive-pack *)

(** The text begins with one of the three ends [receivePackRegex] knows: a
    space, [00] or a NUL byte. *)
Definition startsWithEnd (s : bytes) : bool :=
  hasPrefix [" "%char] s || hasPrefix (bytes_of "00") s || hasPrefix ["000"%char] s.

(** The length of the shortest run of characters other than the newline
    behind which the text begins with one of the three ends. *)
Fixpoint refNameEnd (s : bytes) : option nat :=
  if startsWithEnd s then Some 0
  else
    match s with
    | [] => None
    | a :: s' => if notNewline a then option_map S (refNameEnd s') else None
    end.

(** ** The handlers of files and of the ref advertisement
    ([getInfoRefs], [sendFile], [getTextFile] and the like) *)

(** [strings.HasSuffix] *)
Definition HasSuffix (s suffix : string) : bool :=
  (String.length suffix <=? String.length s)
  && String.eqb (substring (String.length s - String.length suffix)
                   (String.length suffix) s) suffix.

(** [getServiceType] *)
Definition getServiceType (r : Request) : string :=
  let service_type := FormService r in
  if negb (hasPrefix (bytes_of "git-") (bytes_of service_type)) then ""
  else Replace_with_empty service_type "git-" (Some 1).

(** What [os.Stat] tells of a file that is there: [f.Size()] and
    [f.ModTime().Format(http.TimeFormat)]. *)
Record FileInfo : Type := {
  Size : Z;
  ModTime : string
}.

(** What these handlers do to the response and to the repository, in the
    order they do it. *)
Inductive action : Type :=
| HeaderSet (key value : string)              (* w.Header().Set *)
| Status (code : nat)                         (* w.WriteHeader *)
| BodyWrite (data : string)                   (* w.Write *)
| ServeFile (name : string)                   (* http.ServeFile(w, r, name) *)
| RunGit (dir : string) (args : list string). (* g.gitCommand(dir, args...) *)

(** A handler at its end: what it did, and whether it returned or
    panicked. *)
Definition outcome : Type := (list action * go unit)%type.

(** The actions [first], then the handler [next]. *)
Definition andThen (first : list action) (next : outcome) : outcome :=
  (first ++ fst next, snd next).

Definition hdrNocache : list action :=
  [ HeaderSet "Expires" "Fri, 01 Jan 1980 00:00:00 GMT";
    HeaderSet "Pragma" "no-cache";
    HeaderSet "Cache-Control" "no-cache, max-age=0, must-revalidate" ].

(** [now] is [time.Now().Unix()]. *)
Definition hdrCacheForever (now : Z) : list action :=
  let expires := (now + 31536000)%Z in
  [ HeaderSet "Date" (FormatInt now 10);
    HeaderSet "Expires" (FormatInt expires 10);
    HeaderSet "Cache-Control" "public, max-age=31536000" ].

(** [sendFile]: [f] is nil when [os.Stat] fails, and [f.Size()] panics when
    the error is not the one of a missing file. *)
Definition sendFile (os : OS) (info : string -> FileInfo) (content_type : string)
    (hr : HandlerReq) : outcome :=
  let req_file := GoPath.Join [hr_Dir hr; hr_File hr] in
  match Stat os req_file with
  | StatNotExist => ([Status StatusNotFound; BodyWrite "Not Found"], Ret tt)
  | StatError =>
      ([HeaderSet "Content-Type" content_type], Panic "nil pointer dereference")
  | StatOk =>
      ([ HeaderSet "Content-Type" content_type;
         HeaderSet "Content-Length" (FormatInt (Size (info req_file)) 10);
         HeaderSet "Last-Modified" (ModTime (info req_file));
         ServeFile req_file ],
       Ret tt)
  end.

Definition updateServerInfo (dir : string) : list action :=
  [RunGit dir ["update-server-info"]].

Definition getInfoRefs_ (g : GitHttp) (os : OS) (info : string -> FileInfo)
    (hr : HandlerReq) : outcome :=
  let r := hr_r hr in
  let dir := hr_Dir hr in
  let service_name := getServiceType r in
  match hasAccess g os r dir service_name false with
  | Panic msg => ([], Panic msg)
  | Blocked => ([], Blocked)
  | Ret true =>
      let args := [service_name; "--stateless-rpc"; "--advertise-refs"; "."] in
      let refs := gitCommand g os dir args in
      ([RunGit dir args] ++ hdrNocache
       ++ [ HeaderSet "Content-Type"
              ("application/x-git-" ++ service_name ++ "-advertisement")%string;
            Status 200;
            BodyWrite (packetWrite ("# service=git-" ++ service_name ++ nl)%string);
            BodyWrite packetFlush;
            BodyWrite refs ],
       Ret tt)
  | Ret false =>
      andThen (updateServerInfo dir ++ hdrNocache)
        (sendFile os info "text/plain; charset=utf-8" hr)
  end.

Definition getInfoPacks_ (os : OS) (info : string -> FileInfo) (now : Z)
    (hr : HandlerReq) : outcome :=
  andThen (hdrCacheForever now) (sendFile os info "text/plain; charset=utf-8" hr).

Definition getLooseObject_ (os : OS) (info : string -> FileInfo) (now : Z)
    (hr : HandlerReq) : outcome :=
  andThen (hdrCacheForever now) (sendFile os info "application/x-git-loose-object" hr).

Definition getPackFile_ (os : OS) (info : string -> FileInfo) (now : Z)
    (hr : HandlerReq) : outcome :=
  andThen (hdrCacheForever now) (sendFile os info "application/x-git-packed-objects" hr).

Definition getIdxFile_ (os : OS) (info : string -> FileInfo) (now : Z)
    (hr : HandlerReq) : outcome :=
  andThen (hdrCacheForever now)
    (sendFile os info "application/x-git-packed-objects-toc" hr).

Definition getTextFile_ (os : OS) (info : string -> FileInfo) (hr : HandlerReq) : outcome :=
  andThen hdrNocache (sendFile os info "text/plain" hr).

(** [service.Handler(hr)] for the handlers above, by the name the route
    table gives them; [serviceRpc] is apart, it has its own effects. *)
Definition callFileHandler (g : GitHttp) (os : OS) (info : string -> FileInfo) (now : Z)
    (h : handler) (hr : HandlerReq) : option outcome :=
  match h with
  | serviceRpc_ => None
  | getInfoRefs => Some (getInfoRefs_ g os info hr)
  | getTextFile => Some (getTextFile_ os info hr)
  | getInfoPacks => Some (getInfoPacks_ os info now hr)
  | getLooseObject => Some (getLooseObject_ os info now hr)
  | getPackFile => Some (getPackFile_ os info now hr)
  | getIdxFile => Some (getIdxFile_ os info now hr)
  end.

(** When [getInfoRefs] is granted access, as the flags of the server have
    it: the form value [service] names one of the two services and the flag
    of that service is set. *)
Definition smartInfoRefs (g : GitHttp) (r : Request) : bool :=
  (String.eqb (FormService r) "git-upload-pack" && UploadPack g)
  || (String.eqb (FormService r) "git-receive-pack" && ReceivePack g).

(** An element of a clean path: a name without a slash. *)
Definition goodName (e : bytes) : Prop :=
  GoPath.isName e = true /\ forallb notSlash e = true.

(** ** Event types as JSON ([events.go]) *)

(** [EventType] is an [int], and [String] answers for every one of them. *)
Definition EventType_String_int (e : Z) : string :=
  if (e =? 1)%Z then "tag"
  else if (e =? 2)%Z then "push"
  else if (e =? 3)%Z then "fetch"
  else "unknown".

Definition quote : string := String "034" "".

(** [MarshalJSON]: [fmt.Sprintf] of the name between two quotes. *)
Definition MarshalJSON (e : Z) : string :=
  (quote ++ EventType_String_int e ++ quote)%string.

(** [UnmarshalJSON]: the receiver is a value, so the assignments to [e]
    change a copy; what the caller sees is the error, [None] for nil.  The
    format of [fmt.Errorf] has a verb and no argument. *)
Definition UnmarshalJSON (e : Z) (data : string) : option string :=
  if String.eqb data "tag" then None
  else if String.eqb data "push" then None
  else if String.eqb data "fetch" then None
  else Some "'%!s(MISSING)' is not a known git event type".

(** ** The authenticator (package [auth]) *)

Record AuthInfo : Type := {
  Username : string;
  Password : string;
  Repo : string;
  Push : bool;
  Fetch : bool
}.

(** [repoNameRegex]:
    [^/?(.*?)/(HEAD|git-upload-pack|git-receive-pack|info/refs|objects/REST)$],
    where [REST] is a greedy run of any characters but the newline. *)
Definition repoNameRegex : regex :=
  seq [ BeginText; Alt (chr "/") Empty;
        Cap 1 (Rep false (Class notNewline)); chr "/";
        Cap 2 (Alt (str "HEAD")
                (Alt (str "git-upload-pack")
                  (Alt (str "git-receive-pack")
                    (Alt (str "info/refs")
                      (Cat (str "objects/") (Rep true (Class notNewline)))))));
        EndText ].

Definition repoName (urlPath : string) : string :=
  match FindStringSubmatch repoNameRegex urlPath with
  | None => ""
  | Some matches => sub (bytes_of urlPath) matches 1
  end.

Definition isService (service : string) (req : Request) : bool :=
  String.eqb (getServiceType req) service || HasSuffix (Path req) service.

Definition isFetch (req : Request) : bool := isService "upload-pack" req.

Definition isPush (req : Request) : bool := isService "receive-pack" req.

(** What the handler that [Authenticator] makes does with a request: it
    answers itself with a status, the headers it has set, in the order it
    set them, and a body, or it hands the request to the handler it
    wraps. *)
Inductive authAnswer : Type :=
| AuthStatus (status : nat) (headers : list (string * string)) (body : string)
| AuthPass.

(** The headers [http.Error] sets before it writes the status. *)
Definition httpErrorHeaders : list (string * string) :=
  [ ("Content-Type", "text/plain; charset=utf-8");
    ("X-Content-Type-Options", "nosniff") ].

(** [Authenticator(authf)(handler)] on the request [req].  [parseAuthHeader]
    is not part of these sources: [parsed] is what it returns for the
    [Authorization] header of the request, the name and the password or the
    text of an error.  [authf] answers with a verdict and the text of an
    error, [None] for nil; [http.Error] sets its two headers, writes the
    status and then the text and a newline. *)
Definition Authenticator (authf : AuthInfo -> bool * option string)
    (parsed : (string * string) + string) (req : Request) : authAnswer :=
  match parsed with
  | inr err =>
      AuthStatus 401
        (("WWW-Authenticate", "Basic realm=" ++ quote ++ "git server" ++ quote)%string
         :: httpErrorHeaders)
        (err ++ nl)
  | inl (name, pass) =>
      let info := {| Username := name; Password := pass;
                     Repo := repoName (Path req);
                     Push := isPush req; Fetch := isFetch req |} in
      match authf info with
      | (_, Some err) => AuthStatus 500 httpErrorHeaders (err ++ nl)
      | (false, None) => AuthStatus StatusForbidden [] "Forbidden"
      | (true, None) => AuthPass
      end
  end.

(* ================================================================== *)
(** * Part II: properties *)
(* ================================================================== *)

(** ** Strings and bytes *)

Lemma bytes_of_str_of (l : bytes) : bytes_of (str_of l) = l.
Proof. apply list_ascii_of_string_of_list_ascii. Qed.

Lemma str_of_bytes_of (s : string) : str_of (bytes_of s) = s.
Proof. apply string_of_list_ascii_of_string. Qed.

Lemma bytes_of_app (s1 s2 : string) :
  bytes_of (s1 ++ s2)%string = bytes_of s1 ++ bytes_of s2.
Proof.
  induction s1 as [|a s1 IH]; simpl; [reflexivity|].
  unfold bytes_of in *. simpl. now rewrite IH.
Qed.

Lemma length_bytes_of (s : string) : List.length (bytes_of s) = String.length s.
Proof.
  induction s as [|a s IH]; simpl; [reflexivity|].
  unfold bytes_of in *. simpl. now rewrite IH.
Qed.

Lemma length_str_of (l : bytes) : String.length (str_of l) = List.length l.
Proof. now rewrite <- length_bytes_of, bytes_of_str_of. Qed.

Lemma bytes_of_inj (s1 s2 : string) : bytes_of s1 = bytes_of s2 -> s1 = s2.
Proof.
  intros H. rewrite <- (str_of_bytes_of s1), <- (str_of_bytes_of s2). now rewrite H.
Qed.

Lemma bytes_of_Repeat_zero (n : nat) : bytes_of (Repeat "0" n) = repeat "0"%char n.
Proof.
  induction n as [|n IH]; [reflexivity|].
  cbn [Repeat]. rewrite bytes_of_app, IH. reflexivity.
Qed.

(** ** Packet lines *)

Section PacketLine.

Lemma hexValue_digit (d : N) : (d < 16)%N -> hexValue (digit d) = Some d.
Proof.
  intros H.
  assert (Hd : In d (map N.of_nat (List.seq 0 16))).
  { replace d with (N.of_nat (N.to_nat d)) by apply N2Nat.id.
    apply in_map, in_seq. lia. }
  simpl in Hd.
  repeat (destruct Hd as [<- | Hd]; [reflexivity|]). contradiction.
Qed.

(** Reading back what [formatBits] writes in base 16 gives the number. *)
Lemma parseHex_formatBits (fuel : nat) :
  forall (u : N) (acc : bytes),
    (u < 16 ^ N.of_nat (S fuel))%N ->
    parseHex 0 (formatBits fuel 16 u acc) = parseHex u acc.
Proof.
  induction fuel as [|fuel IH]; intros u acc Hu.
  - simpl formatBits. simpl parseHex.
    rewrite hexValue_digit by (simpl in Hu; lia). reflexivity.
  - cbn [formatBits]. destruct (N.leb_spec 16 u) as [Hle | Hlt].
    + rewrite IH.
      * cbn [parseHex]. rewrite hexValue_digit by (apply N.mod_lt; lia).
        f_equal. rewrite (N.div_mod u 16) at 3 by lia. lia.
      * rewrite Nat2N.inj_succ, N.pow_succ_r' in Hu.
        apply N.Div0.div_lt_upper_bound. exact Hu.
    + simpl parseHex. rewrite hexValue_digit by lia. reflexivity.
Qed.

(** [formatBits] writes at least one digit, and no more than the number
    needs. *)
Lemma length_formatBits (fuel : nat) :
  forall (u : N) (acc : bytes) (k : nat),
    (u < 16 ^ N.of_nat (S k))%N ->
    List.length acc < List.length (formatBits fuel 16 u acc) <= S k + List.length acc.
Proof.
  induction fuel as [|fuel IH]; intros u acc k Hu.
  - simpl. lia.
  - cbn [formatBits]. destruct (N.leb_spec 16 u) as [Hle | Hlt].
    + destruct k as [|k]; [simpl in Hu; lia|].
      assert (Hq : (u / 16 < 16 ^ N.of_nat (S k))%N).
      { rewrite (Nat2N.inj_succ (S k)), N.pow_succ_r' in Hu.
        apply N.Div0.div_lt_upper_bound. exact Hu. }
      specialize (IH (u / 16)%N (digit (u mod 16) :: acc) k Hq).
      simpl List.length in IH. lia.
    + simpl. lia.
Qed.

Lemma parseHex_zeros (n : nat) (l : bytes) :
  parseHex 0 (repeat "0"%char n ++ l) = parseHex 0 l.
Proof. induction n as [|n IH]; simpl; [reflexivity | exact IH]. Qed.

(** The length prefix [packetWrite] puts in front of a string shorter than
    65532 bytes: four characters that read as the length plus four. *)
Lemma packetWrite_prefix (str : string) :
  (N.of_nat (String.length str) < 65532)%N ->
  exists pre : bytes,
    bytes_of (packetWrite str) = pre ++ bytes_of str /\
    List.length pre = 4 /\
    parseHex 0 pre = Some (N.of_nat (String.length str + 4)).
Proof.
  intros Hlen. unfold packetWrite, FormatInt.
  remember (Z.of_nat (String.length str) + 4)%Z as i eqn:Ei.
  assert (Hi : (i <? 0)%Z = false) by (apply Z.ltb_ge; lia).
  rewrite Hi.
  remember (Z.to_N i) as u eqn:Eu.
  assert (Hu : u = N.of_nat (String.length str + 4)) by lia.
  assert (Hb : (u < 16 ^ N.of_nat 4)%N) by (simpl; lia).
  pose proof (@length_formatBits 64 u [] 3 Hb) as Hl.
  change (List.length (@nil ascii)) with 0 in Hl.
  assert (Hp : parseHex 0 (formatBits 64 16 u []) = Some u).
  { rewrite parseHex_formatBits; [reflexivity|].
    eapply N.lt_le_trans; [exact Hb|]. apply N.pow_le_mono_r; lia. }
  remember (formatBits 64 16 u []) as s eqn:Es. clear Es.
  rewrite length_str_of.
  destruct (Nat.eqb_spec (List.length s mod 4) 0) as [Hz | Hnz]; cbn [negb].
  - assert (List.length s = 4).
    { destruct (List.length s) as [|[|[|[|[|n]]]]] eqn:E; simpl in Hz; try lia; reflexivity. }
    exists s. rewrite bytes_of_app, bytes_of_str_of, Hu in *. auto.
  - exists (repeat "0"%char (4 - List.length s mod 4) ++ s).
    rewrite !bytes_of_app, bytes_of_Repeat_zero, bytes_of_str_of, <- app_assoc.
    split; [reflexivity|]. split.
    + rewrite length_app, repeat_length.
      destruct (List.length s) as [|[|[|[|[|n]]]]] eqn:E; simpl in *; lia.
    + rewrite parseHex_zeros, Hp, Hu. reflexivity.
Qed.

(** C8.  Round trip of the packet-line framing: for every string [s] of
    fewer than 65532 bytes, the first four characters of [packetWrite s]
    are lowercase hexadecimal digits that read as [length s + 4], and the
    bytes after them are [s]; [packetFlush] is the four bytes ["0000"]. *)
Theorem packetWrite_roundtrip (s : string) :
  (N.of_nat (String.length s) < 65532)%N ->
  decodeLength (packetWrite s) = Some (N.of_nat (String.length s + 4)) /\
  payload (packetWrite s) = s /\
  packetFlush = "0000" /\ String.length packetFlush = 4.
Proof.
  intros Hlen.
  destruct (packetWrite_prefix s Hlen) as (pre & Hpkt & Hpre & Hparse).
  unfold decodeLength, payload. rewrite Hpkt.
  assert (Hfirst : firstn 4 (pre ++ bytes_of s) = pre).
  { rewrite <- Hpre, firstn_app, Nat.sub_diag, firstn_all, firstn_O.
    apply app_nil_r. }
  assert (Hskip : skipn 4 (pre ++ bytes_of s) = bytes_of s).
  { rewrite <- Hpre, skipn_app, Nat.sub_diag, skipn_all. reflexivity. }
  rewrite Hfirst, Hskip, length_app, Hpre, Hparse, str_of_bytes_of.
  repeat split.
Qed.

Lemma packetWrite_roundtrip_witness :
  (N.of_nat (String.length "# service=git-upload-pack") < 65532)%N /\
  decodeLength (packetWrite "# service=git-upload-pack") = Some 29%N /\
  payload (packetWrite "# service=git-upload-pack") = "# service=git-upload-pack".
Proof.
  split; [reflexivity|].
  destruct (@packetWrite_roundtrip "# service=git-upload-pack") as (H1 & H2 & _).
  - reflexivity.
  - split; [exact H1 | exact H2].
Defined.

End PacketLine.

(** ** Regular expressions *)

Section RegexpFacts.

Implicit Types (k : nat -> bytes -> caps -> option result) (s w : bytes).

Lemma hasPrefix_app (l s : bytes) : hasPrefix l (l ++ s) = true.
Proof.
  induction l as [|a l IH]; simpl; [reflexivity|].
  now rewrite Ascii.eqb_refl.
Qed.

Lemma hasPrefix_split (l s : bytes) :
  hasPrefix l s = true -> s = l ++ skipn (List.length l) s.
Proof.
  revert s. induction l as [|a l IH]; intros [|b s] H; simpl in *;
    try reflexivity; try discriminate.
  apply andb_true_iff in H as [Hab Hl].
  apply Ascii.eqb_eq in Hab. subst b. f_equal. now apply IH.
Qed.

(** Two prefixes of the same list: one is a prefix of the other. *)
Lemma hasPrefix_common (x x' y y' : bytes) :
  x ++ y = x' ++ y' -> hasPrefix x x' || hasPrefix x' x = true.
Proof.
  revert x'. induction x as [|a x IH]; intros [|b x'] H; simpl in *;
    try reflexivity.
  injection H as <- H. rewrite Ascii.eqb_refl. simpl. now apply IH.
Qed.

(** The equations of [run]. *)
Lemma run_Cat (r1 r2 : regex) pos s c k :
  run (Cat r1 r2) pos s c k = run r1 pos s c (fun pos' s' c' => run r2 pos' s' c' k).
Proof. reflexivity. Qed.

Lemma run_Rep (g : bool) (r : regex) pos s c k :
  run (Rep g r) pos s c k = star (run r) g k (S (List.length s)) pos s c.
Proof. reflexivity. Qed.

Lemma run_Cap (i : nat) (r : regex) pos s c k :
  run (Cap i r) pos s c k
  = run r pos s c (fun pos' s' c' => k pos' s' ((i, (pos, pos')) :: c')).
Proof. reflexivity. Qed.

Lemma run_BeginText pos s c k :
  run BeginText pos s c k = if pos =? 0 then k pos s c else None.
Proof. reflexivity. Qed.

Lemma run_EndText pos s c k :
  run EndText pos s c k = match s with [] => k pos s c | _ :: _ => None end.
Proof. reflexivity. Qed.

Lemma run_Class_cons (p : ascii -> bool) (a : ascii) pos s c k :
  run (Class p) pos (a :: s) c k = if p a then k (S pos) s c else None.
Proof. reflexivity. Qed.

(** A literal matches the text it spells and nothing else. *)
Lemma run_lit (l : bytes) pos s c k :
  run (lit l) pos s c k =
  if hasPrefix l s then k (pos + List.length l) (skipn (List.length l) s) c else None.
Proof.
  revert pos s. induction l as [|a l IH]; intros pos s; simpl.
  - now rewrite Nat.add_0_r.
  - destruct s as [|b s]; [reflexivity|].
    destruct (Ascii.eqb a b); simpl; [|reflexivity].
    rewrite IH. now rewrite Nat.add_succ_r.
Qed.

Lemma run_chr (a : ascii) pos s c k :
  run (chr a) pos s c k =
  if hasPrefix [a] s then k (S pos) (skipn 1 s) c else None.
Proof.
  destruct s as [|b s]; simpl; [reflexivity|].
  now rewrite andb_true_r.
Qed.

(** [n] characters of a class. *)
Lemma run_times_class (p : ascii -> bool) (n : nat) pos s c k :
  run (times n (Class p)) pos s c k =
  if (n <=? List.length s) && forallb p (firstn n s)
  then k (pos + n) (skipn n s) c else None.
Proof.
  revert pos s. induction n as [|n IH]; intros pos s.
  - simpl. now rewrite Nat.add_0_r.
  - cbn [times run]. destruct s as [|a s]; [reflexivity|].
    cbn [firstn forallb skipn List.length]. destruct (p a); [|now rewrite andb_false_r].
    rewrite IH, Nat.add_succ_r. reflexivity.
Qed.

(** Whatever a repetition of a class hands over, it hands over after
    some characters of the class. *)
Lemma star_class_sound (p : ascii -> bool) g k res (fuel : nat) :
  forall pos s c,
    star (run (Class p)) g k fuel pos s c = Some res ->
    exists n, n <= List.length s /\ forallb p (firstn n s) = true /\
              k (pos + n) (skipn n s) c = Some res.
Proof.
  induction fuel as [|fuel IH]; intros pos s c H.
  - exists 0. rewrite Nat.add_0_r. simpl in *. auto with arith.
  - cbn [star] in H.
    assert (Hagain :
      run (Class p) pos s c
        (fun pos' s' c' =>
           if pos <? pos' then star (run (Class p)) g k fuel pos' s' c' else None)
      = Some res ->
      exists n, n <= List.length s /\ forallb p (firstn n s) = true /\
                k (pos + n) (skipn n s) c = Some res).
    { cbn [run]. destruct s as [|a s]; [discriminate|].
      destruct (p a) eqn:Hp; [|discriminate].
      destruct (Nat.ltb_spec pos (S pos)); [|lia].
      intros H'. apply IH in H' as (n & Hn & Hall & Hk).
      exists (S n). cbn [firstn forallb skipn List.length].
      rewrite Hp, Nat.add_succ_r. auto with arith. }
    assert (Hstop : k pos s c = Some res ->
      exists n, n <= List.length s /\ forallb p (firstn n s) = true /\
                k (pos + n) (skipn n s) c = Some res).
    { intros H'. exists 0. rewrite Nat.add_0_r. simpl. auto with arith. }
    destruct g.
    + destruct (run (Class p) pos s c _) eqn:E.
      * injection H as <-. now apply Hagain.
      * now apply Hstop.
    + destruct (k pos s c) eqn:E.
      * injection H as <-. now apply Hstop.
      * now apply Hagain.
Qed.

(** A greedy repetition of a class takes all the characters of the class
    there are when the continuation accepts none of them. *)
Lemma star_greedy_class (p : ascii -> bool) k :
  (forall pos a s c, p a = true -> k pos (a :: s) c = None) ->
  forall w rest (fuel : nat) pos c,
    forallb p w = true ->
    List.length w < fuel ->
    match rest with [] => True | a :: _ => p a = false end ->
    star (run (Class p)) true k fuel pos (w ++ rest) c = k (pos + List.length w) rest c.
Proof.
  intros Hk w rest. induction w as [|a w IH]; intros fuel pos c Hall Hfuel Hrest.
  - destruct fuel as [|fuel]; [simpl; now rewrite Nat.add_0_r|].
    cbn [star app List.length]. rewrite Nat.add_0_r.
    destruct rest as [|a rest]; cbn [run]; [reflexivity|].
    now rewrite Hrest.
  - destruct fuel as [|fuel]; [simpl in Hfuel; lia|].
    cbn [forallb] in Hall. apply andb_true_iff in Hall as [Ha Hall].
    cbn [star app run List.length]. rewrite Ha.
    destruct (Nat.ltb_spec pos (S pos)); [|lia].
    rewrite IH by (auto; simpl in Hfuel; lia).
    rewrite Nat.add_succ_r. cbn [Nat.add].
    destruct (k (S (pos + List.length w)) rest c); [reflexivity|].
    now apply Hk.
Qed.

(** A lazy repetition of a class finds a match when the continuation
    accepts after some characters of the class. *)
Lemma star_lazy_class (p : ascii -> bool) k :
  forall w rest (fuel : nat) pos c,
    forallb p w = true ->
    List.length w < fuel ->
    k (pos + List.length w) rest c <> None ->
    star (run (Class p)) false k fuel pos (w ++ rest) c <> None.
Proof.
  induction w as [|a w IH]; intros rest fuel pos c Hall Hfuel Hk.
  - destruct fuel as [|fuel]; [simpl in Hfuel; lia|].
    cbn [star app List.length] in *. rewrite Nat.add_0_r in Hk.
    destruct (k pos rest c); [discriminate | contradiction].
  - destruct fuel as [|fuel]; [simpl in Hfuel; lia|].
    cbn [forallb] in Hall. apply andb_true_iff in Hall as [Ha Hall].
    cbn [star app]. destruct (k pos (a :: w ++ rest) c); [discriminate|].
    cbn [run]. rewrite Ha. destruct (Nat.ltb_spec pos (S pos)); [|lia].
    apply IH; auto.
    + simpl in Hfuel. lia.
    + cbn [List.length] in Hk. now rewrite Nat.add_succ_r in Hk.
Qed.

(** *** Searching *)

(** The matcher on small cases, with the answers of Go's [regexp]: [^a] is
    found once in ["aaa"]; [a|ab] prefers its first alternative; a lazy
    group of [a]s followed by a greedy one gets nothing, and the greedy one
    all; and a lazy group of any characters followed by [/x$] gets the text
    before the last [/x]. *)
Example regexp_cases :
  List.length (FindAllStringSubmatch (Cat BeginText (chr "a")) "aaa") = 1 /\
  option_map (fun m => sub (bytes_of "abab") m 0)
    (FindStringSubmatch (Alt (str "a") (str "ab")) "abab") = Some "a" /\
  option_map (fun m => (sub (bytes_of "aaa") m 1, sub (bytes_of "aaa") m 2))
    (FindStringSubmatch
       (Cat (Cap 1 (Rep false (chr "a"))) (Cap 2 (Rep true (chr "a")))) "aaa")
  = Some ("", "aaa") /\
  option_map (fun m => sub (bytes_of "/a/x/x") m 1)
    (FindStringSubmatch
       (Cat (Cap 1 (Rep false (Class notNewline))) (Cat (str "/x") EndText)) "/a/x/x")
  = Some "/a/x".
Proof. repeat split. Qed.

Lemma search_Some (r : regex) (s : bytes) :
  forall pos m,
    search r pos s = Some m ->
    exists j, j <= List.length s /\ mBegin m = pos + j /\
              matchAt r (pos + j) (skipn j s) = Some (mEnd m, mCaps m).
Proof.
  induction s as [|a s IH]; intros pos m H; cbn [search] in H.
  - destruct (matchAt r pos []) as [[e c]|] eqn:E; [|discriminate].
    injection H as <-. exists 0. rewrite Nat.add_0_r. simpl. auto.
  - destruct (matchAt r pos (a :: s)) as [[e c]|] eqn:E.
    + injection H as <-. exists 0. rewrite Nat.add_0_r. simpl. auto with arith.
    + apply IH in H as (j & Hj & Hb & Hm). exists (S j).
      rewrite Nat.add_succ_r. simpl. auto with arith.
Qed.

Lemma allMatches_S (fuel : nat) (re : regex) (text : bytes) (pos : nat)
    (prevMatchEnd : option nat) :
  allMatches (S fuel) re text pos prevMatchEnd =
  if List.length text <? pos then [] else
  match search re pos (skipn pos text) with
  | None => []
  | Some m =>
      if mEnd m =? pos then
        let acc :=
          match prevMatchEnd with
          | Some p => negb (mBegin m =? p)
          | None => true
          end in
        let pos' := if pos <? List.length text then S pos else S (List.length text) in
        let rest := allMatches fuel re text pos' (Some (mEnd m)) in
        if acc then m :: rest else rest
      else m :: allMatches fuel re text (mEnd m) (Some (mEnd m))
  end.
Proof. reflexivity. Qed.

Lemma search_here (r : regex) (pos : nat) (s : bytes) (e : nat) (c : caps) :
  matchAt r pos s = Some (e, c) ->
  search r pos s = Some {| mBegin := pos; mEnd := e; mCaps := c |}.
Proof. intros H. destruct s; cbn [search]; now rewrite H. Qed.

Lemma search_found (r : regex) (s : bytes) :
  forall pos j,
    j <= List.length s ->
    matchAt r (pos + j) (skipn j s) <> None ->
    search r pos s <> None.
Proof.
  induction s as [|a s IH]; intros pos j Hj Hm; cbn [search].
  - assert (j = 0) by (simpl in Hj; lia). subst j.
    rewrite Nat.add_0_r in Hm. simpl in Hm.
    destruct (matchAt r pos []) as [[e c]|]; [discriminate | contradiction].
  - destruct (matchAt r pos (a :: s)) as [[e c]|] eqn:E; [discriminate|].
    destruct j as [|j].
    + rewrite Nat.add_0_r in Hm. simpl in Hm. congruence.
    + apply (IH (S pos) j); [simpl in Hj; lia|].
      now rewrite Nat.add_succ_r in Hm.
Qed.

Lemma search_None (r : regex) (s : bytes) :
  forall pos,
    (forall j, j <= List.length s -> matchAt r (pos + j) (skipn j s) = None) ->
    search r pos s = None.
Proof.
  intros pos H. destruct (search r pos s) as [m|] eqn:E; [|reflexivity].
  apply search_Some in E as (j & Hj & _ & Hm). rewrite H in Hm by exact Hj.
  discriminate.
Qed.

End RegexpFacts.

(** ** Event extraction *)

Section Events.

Lemma notSpace_not_blank (a : ascii) : notSpace a = true -> Ascii.eqb " " a = false.
Proof.
  intros H. destruct (Ascii.eqb_spec " " a) as [<-|]; [discriminate | reflexivity].
Qed.

(** [uploadPackRegex] starts with [^]: it matches at the start of the
    text or not at all. *)
Lemma uploadPackRegex_anchored (pos : nat) (s : bytes) :
  pos <> 0 -> matchAt uploadPackRegex pos s = None.
Proof. destruct pos; [contradiction | reflexivity]. Qed.

Lemma uploadPackRegex_search_later (pos : nat) (s : bytes) :
  pos <> 0 -> search uploadPackRegex pos s = None.
Proof.
  intros H. apply search_None. intros j _. apply uploadPackRegex_anchored. lia.
Qed.

Lemma uploadPackRegex_at_most_one (fuel : nat) (text : bytes) :
  List.length (allMatches fuel uploadPackRegex text 0 None) <= 1.
Proof.
  destruct fuel as [|fuel]; [simpl; lia|].
  cbn [allMatches]. destruct (List.length text <? 0); [simpl; lia|].
  destruct (search uploadPackRegex 0 (skipn 0 text)) as [m|]; [|simpl; lia].
  assert (Hlater : forall pos prev, pos <> 0 ->
            allMatches fuel uploadPackRegex text pos prev = []).
  { intros pos prev Hpos. destruct fuel; [reflexivity|]. cbn [allMatches].
    destruct (List.length text <? pos); [reflexivity|].
    now rewrite uploadPackRegex_search_later. }
  destruct (Nat.eqb_spec (mEnd m) 0) as [He|He].
  - rewrite Hlater by (destruct (0 <? List.length text); lia). simpl; lia.
  - rewrite Hlater by exact He. simpl; lia.
Qed.

(** The match of [uploadPackRegex] on a text that begins with a token, a
    space and forty hexadecimal digits. *)
Lemma uploadPackRegex_first_line (tok h rest : bytes) :
  tok <> [] -> forallb notSpace tok = true ->
  List.length h = 40 -> forallb isHex h = true ->
  matchAt uploadPackRegex 0 (tok ++ " "%char :: h ++ rest)
  = Some (List.length tok + 41, [(1, (List.length tok + 1, List.length tok + 41))]).
Proof.
  intros Htok Hns Hlen Hhex.
  destruct tok as [|a tok]; [contradiction|].
  cbn [forallb] in Hns. apply andb_true_iff in Hns as [Ha Hns].
  unfold matchAt, uploadPackRegex, plus. cbn [seq app].
  rewrite run_Cat, run_BeginText. cbn [Nat.eqb].
  rewrite !run_Cat, run_Class_cons, Ha, run_Rep.
  rewrite star_greedy_class; auto.
  - rewrite run_Cat, run_chr. cbn [hasPrefix skipn]. rewrite Ascii.eqb_refl. cbn [andb].
    rewrite run_Cat, run_Cap, run_times_class.
    assert (H40 : firstn 40 (h ++ rest) = h).
    { rewrite <- Hlen, firstn_app, Nat.sub_diag, firstn_all, firstn_O. apply app_nil_r. }
    rewrite H40, Hhex, length_app, Hlen.
    cbn [Nat.leb Nat.add andb run List.length]. unfold accept. repeat f_equal; lia.
  - intros pos b s c Hb. rewrite run_Cat, run_chr. cbn [hasPrefix].
    now rewrite notSpace_not_blank.
  - rewrite length_app. simpl. lia.
Qed.

Lemma slice_middle (a b c : bytes) :
  slice (a ++ b ++ c) (List.length a) (List.length a + List.length b) = b.
Proof.
  unfold slice. rewrite skipn_app, Nat.sub_diag, skipn_all. simpl.
  replace (List.length a + List.length b - List.length a) with (List.length b) by lia.
  rewrite firstn_app, Nat.sub_diag, firstn_all, firstn_O. apply app_nil_r.
Qed.

(** C3, as the code has it.  [uploadPackRegex] is anchored at the start of
    the payload: a payload that begins with a token without white space,
    one space and forty hexadecimal digits [h] (["want a647..."], or the
    same behind its packet-line length) gives exactly one Fetch event,
    which carries [h], whatever follows; and no payload gives more than
    one Fetch event. *)
Theorem upload_pack_events (dir tok h rest : string) :
  tok <> "" ->
  forallb notSpace (bytes_of tok) = true ->
  String.length h = 40 ->
  forallb isHex (bytes_of h) = true ->
  rpcEvents "upload-pack" dir (tok ++ " " ++ h ++ rest) = [fetchEvent dir h] /\
  (forall input, List.length (rpcEvents "upload-pack" dir input) <= 1).
Proof.
  intros Htok Hns Hlen Hhex. split.
  - assert (Htok' : bytes_of tok <> []).
    { intros E. apply Htok. apply bytes_of_inj. now rewrite E. }
    assert (Hm := @uploadPackRegex_first_line (bytes_of tok) (bytes_of h) (bytes_of rest)
                    Htok' Hns).
    rewrite !length_bytes_of in Hm. specialize (Hm Hlen Hhex).
    pose proof (slice_middle (bytes_of tok ++ [" "%char]) (bytes_of h) (bytes_of rest)) as Hs.
    rewrite <- app_assoc, length_app, !length_bytes_of, Hlen in Hs.
    cbn [app List.length] in Hs.
    replace (String.length tok + 1 + 40) with (String.length tok + 41) in Hs by lia.
    unfold rpcEvents, FindAllStringSubmatch. cbn [String.eqb Ascii.eqb Bool.eqb].
    rewrite !bytes_of_app. change (bytes_of " ") with [" "%char].
    cbn [app]. remember (bytes_of tok ++ " "%char :: bytes_of h ++ bytes_of rest) as text.
    rewrite allMatches_S. destruct (Nat.ltb_spec (List.length text) 0); [lia|].
    cbn [skipn]. rewrite (search_here _ _ _ Hm). cbn [mEnd mBegin mCaps].
    destruct (Nat.eqb_spec (String.length tok + 41) 0); [lia|].
    assert (Hrest : forall fuel, allMatches fuel uploadPackRegex text
                      (String.length tok + 41) (Some (String.length tok + 41)) = []).
    { intros [|fuel]; [reflexivity|]. cbn [allMatches].
      destruct (List.length text <? _); [reflexivity|].
      rewrite uploadPackRegex_search_later by lia. reflexivity. }
    rewrite Hrest. cbn [map]. unfold fetchEvent. do 2 f_equal.
    unfold sub. cbn [lookup Nat.eqb mCaps].
    rewrite Hs. apply str_of_bytes_of.
  - intros input. unfold rpcEvents. cbn [String.eqb Ascii.eqb Bool.eqb].
    rewrite length_map. apply uploadPackRegex_at_most_one.
Qed.

Lemma upload_pack_events_witness :
  rpcEvents "upload-pack" "/srv/git/repo.git"
    ("0067want" ++ " " ++ sha_b ++ (" multi_ack_detailed side-band-64k" ++ nl ++ "0000"))
  = [fetchEvent "/srv/git/repo.git" sha_b].
Proof.
  apply (@upload_pack_events "/srv/git/repo.git" "0067want" sha_b
           (" multi_ack_detailed side-band-64k" ++ nl ++ "0000")).
  - discriminate.
  - reflexivity.
  - reflexivity.
  - reflexivity.
Defined.

(** C3, against the claim as it is stated: a payload with two lines
    ["want <hash>"] for two hashes gives one Fetch event and not two, and
    a payload whose line ["want a647..."] is not its first line gives no
    event. *)
Lemma upload_pack_two_wants_counterexample :
  rpcEvents "upload-pack" ""
    ("0032want " ++ sha_b ++ nl ++ "0032want " ++ sha_a ++ nl ++ "00000009done" ++ nl)
  = [fetchEvent "" sha_b] /\
  rpcEvents "upload-pack" ""
    ("0014command=fetch" ++ nl ++ "0032want " ++ sha_b ++ nl ++ "0000")
  = [].
Proof. split; vm_compute; reflexivity. Qed.

(** C4, against the claim as it is stated: after [refs/heads/master] the
    pattern wants a space, [00] or a NUL byte, and the payload of the claim
    stops there, so no event comes of it. *)
Lemma receive_pack_unterminated_counterexample :
  rpcEvents "receive-pack" "" (zeros40 ++ " " ++ sha_a ++ " refs/heads/master") = [].
Proof. vm_compute. reflexivity. Qed.

(** C4, as the code has it: the ref line of the claim followed by one of
    the three terminators of the pattern (a space, [00], a NUL byte), as
    in a request of a git client, where a NUL byte and the capabilities
    follow the ref, gives exactly one Push event, from forty zeros to
    [92eef6dc...] on the branch [master]. *)
Theorem receive_pack_push_event (dir : string) :
  let line := (zeros40 ++ " " ++ sha_a ++ " refs/heads/master")%string in
  let push := pushEvent dir zeros40 sha_a "master" in
  rpcEvents "receive-pack" dir (line ++ " ") = [push] /\
  rpcEvents "receive-pack" dir (line ++ "00") = [push] /\
  rpcEvents "receive-pack" dir (line ++ nul) = [push] /\
  rpcEvents "receive-pack" dir
    ("0094" ++ line ++ nul ++ " report-status side-band-64k agent=git/2.4.3" ++ "0000")
  = [push].
Proof. repeat split; vm_compute; reflexivity. Qed.

(** C5: the payload ["0000"] is the one the second alternative of
    [receivePackRegex], [^(0000)$], matches; groups 1 to 4 are empty in
    that match, and the loop of [serviceRpc] makes a Tag event of them. *)
Theorem receive_pack_flush_event (dir : string) :
  rpcEvents "receive-pack" dir "0000" = [tagEvent dir "" "" ""].
Proof. vm_compute. reflexivity. Qed.

End Events.

(** ** Repository directories *)

Section Paths.
Import GoPath.

(** The model of [path.Clean] agrees with Go's on the table of its tests. *)
Lemma Clean_cleantests :
  forallb (fun t => String.eqb (Clean (fst t)) (snd t)) cleantests = true.
Proof. vm_compute. reflexivity. Qed.

Lemma elements_not_nil (p : bytes) : elements p <> [].
Proof.
  destruct p as [|a p]; simpl; [discriminate|].
  destruct (Ascii.eqb a "/"); [discriminate|].
  destruct (elements p); discriminate.
Qed.

(** The elements of two paths put together with a slash. *)
Lemma elements_app_slash (a b : bytes) :
  elements (a ++ "/"%char :: b) = elements a ++ elements b.
Proof.
  induction a as [|x a IH]; simpl; [reflexivity|].
  destruct (Ascii.eqb x "/"); [now rewrite IH|].
  rewrite IH. pose proof (elements_not_nil a) as Hne.
  destruct (elements a); [contradiction | reflexivity].
Qed.

Lemma joinElements_cons (e : bytes) (es : list bytes) :
  es <> [] -> joinElements (e :: es) = e ++ "/"%char :: joinElements es.
Proof. destruct es; [contradiction | reflexivity]. Qed.

(** Joining the elements of a path gives the path back. *)
Lemma joinElements_elements (p : bytes) : joinElements (elements p) = p.
Proof.
  induction p as [|a p IH]; [reflexivity|].
  cbn [elements]. destruct (Ascii.eqb_spec a "/") as [->|Hne].
  - rewrite joinElements_cons by apply elements_not_nil. now rewrite IH.
  - pose proof (elements_not_nil p) as Hnil.
    destruct (elements p) as [|e es]; [contradiction|].
    rewrite <- IH. destruct es; reflexivity.
Qed.

Lemma joinElements_app (xs ys : list bytes) :
  xs <> [] -> ys <> [] ->
  joinElements (xs ++ ys) = joinElements xs ++ "/"%char :: joinElements ys.
Proof.
  intros Hx Hy. induction xs as [|x xs IH]; [contradiction|].
  destruct xs as [|x' xs].
  - simpl app. now rewrite joinElements_cons.
  - change ((x :: x' :: xs) ++ ys) with (x :: (x' :: xs) ++ ys).
    rewrite !joinElements_cons by discriminate.
    rewrite IH by discriminate. now rewrite <- app_assoc.
Qed.

Lemma cleanElements_empty (rooted : bool) (es out : list bytes) :
  cleanElements rooted ([] :: es) out = cleanElements rooted es out.
Proof. reflexivity. Qed.

(** [path.Clean] keeps names as they come. *)
Lemma cleanElements_names (rooted : bool) (es rest out : list bytes) :
  forallb isName es = true ->
  cleanElements rooted (es ++ rest) out = cleanElements rooted rest (rev es ++ out).
Proof.
  revert out. induction es as [|e es IH]; intros out H; [reflexivity|].
  cbn [forallb] in H. apply andb_true_iff in H as [He Hes].
  cbn [app cleanElements rev]. unfold isName in He.
  destruct e as [|a e]; [discriminate|].
  apply andb_true_iff in He as [Hd Hdd].
  apply negb_true_iff in Hd, Hdd. rewrite Hd, Hdd.
  rewrite IH by exact Hes. now rewrite <- app_assoc.
Qed.

(** In a rooted path whose [..] elements stay below its first [base]
    elements, [path.Clean] leaves these elements where they are. *)
Lemma cleanElements_staysBelow (base : list bytes) (es : list bytes) :
  forall extra : list bytes,
    forallb (fun e => negb (isDotDot e)) extra = true ->
    staysBelow es (List.length extra) = true ->
    exists extra', cleanElements true es (extra ++ base) = extra' ++ base.
Proof.
  induction es as [|e es IH]; intros extra Hextra Hstay.
  - now exists extra.
  - cbn [cleanElements staysBelow] in *.
    destruct e as [|a e]; [now apply IH|].
    destruct (isDot (a :: e)); [now apply IH|].
    destruct (isDotDot (a :: e)) eqn:Hdd.
    + destruct extra as [|top extra]; [discriminate|].
      cbn [forallb List.length app] in *.
      apply andb_true_iff in Hextra as [Htop Hextra].
      apply negb_true_iff in Htop. rewrite Htop. now apply IH.
    + apply (IH ((a :: e) :: extra)); [|exact Hstay].
      cbn [forallb]. now rewrite Hdd.
Qed.

Lemma concatWithSlash_single (e : string) : concatWithSlash [e] = e.
Proof. cbn. destruct (String.eqb_spec e ""); subst; reflexivity. Qed.

Lemma concatWithSlash_pair (root file_path : string) :
  root <> "" ->
  bytes_of (concatWithSlash [root; file_path]) = bytes_of root \/
  bytes_of (concatWithSlash [root; file_path])
  = bytes_of root ++ "/"%char :: bytes_of file_path.
Proof.
  intros Hroot.
  change (concatWithSlash [root; file_path])
    with (if String.eqb root "" then concatWithSlash [file_path]
          else if String.eqb (concatWithSlash [file_path]) "" then root
               else (root ++ "/" ++ concatWithSlash [file_path])%string).
  rewrite concatWithSlash_single.
  destruct (String.eqb_spec root ""); [contradiction|].
  destruct (String.eqb_spec file_path "") as [->|Hfp].
  - left. reflexivity.
  - right. rewrite !bytes_of_app. reflexivity.
Qed.

(** Where [path.Join] puts a path that stays below a clean root. *)
Lemma Join_under_root (root file_path : string) :
  isCleanRoot root = true ->
  staysBelow (elements (bytes_of file_path)) 0 = true ->
  isUnder root (Join [root; file_path]) = true.
Proof.
  intros Hroot Hstay. unfold isCleanRoot in Hroot.
  destruct (elements (bytes_of root)) as [|[|] [|e es]] eqn:Eroot; try discriminate.
  assert (Hr : bytes_of root = "/"%char :: joinElements (e :: es)).
  { rewrite <- (joinElements_elements (bytes_of root)), Eroot. reflexivity. }
  assert (Hne : root <> "") by (intros ->; discriminate).
  (* the elements of the joined path: those of the root, then others that
     stay below it *)
  assert (Hels : exists tail,
            elements (bytes_of (concatWithSlash [root; file_path]))
            = ([] :: e :: es) ++ tail /\ staysBelow tail 0 = true).
  { destruct (concatWithSlash_pair file_path Hne) as [-> | ->].
    - exists []. now rewrite app_nil_r.
    - exists (elements (bytes_of file_path)). now rewrite elements_app_slash, Eroot. }
  destruct Hels as (tail & Hels & Htail).
  assert (Hbuf : exists buf,
            bytes_of (concatWithSlash [root; file_path]) = "/"%char :: buf).
  { destruct (concatWithSlash_pair file_path Hne) as [-> | ->]; rewrite Hr;
      eexists; reflexivity. }
  destruct Hbuf as (buf & Hbuf).
  unfold Join.
  destruct (String.eqb_spec (concatWithSlash [root; file_path]) "") as [E|_].
  { rewrite E in Hbuf. discriminate. }
  unfold Clean. rewrite Hels, Hbuf. cbn [isRooted]. rewrite Ascii.eqb_refl.
  change (([] :: e :: es) ++ tail) with ([] :: ((e :: es) ++ tail)).
  rewrite cleanElements_empty.
  rewrite (cleanElements_names true (e :: es) tail [] Hroot), app_nil_r.
  destruct (@cleanElements_staysBelow (rev (e :: es)) tail []) as (extra & Hclean);
    [reflexivity | exact Htail |].
  cbn [app] in Hclean. rewrite Hclean, rev_app_distr, rev_involutive.
  unfold isUnder. apply orb_true_iff.
  destruct (rev extra) as [|x xs] eqn:Ex.
  - left. cbn [app]. rewrite app_nil_r. apply String.eqb_eq.
    apply bytes_of_inj. rewrite Hr. cbn [bytes_of list_ascii_of_string].
    f_equal. apply bytes_of_str_of.
  - right. rewrite joinElements_app by discriminate.
    cbn [bytes_of list_ascii_of_string]. fold (bytes_of (str_of
      (joinElements (e :: es) ++ "/"%char :: joinElements (x :: xs)))).
    rewrite bytes_of_str_of, Hr.
    change (("/"%char :: joinElements (e :: es)) ++ ["/"%char])
      with ("/"%char :: (joinElements (e :: es) ++ ["/"%char])).
    cbn [hasPrefix]. rewrite Ascii.eqb_refl. cbn [andb].
    replace (joinElements (e :: es) ++ "/"%char :: joinElements (x :: xs))
      with ((joinElements (e :: es) ++ ["/"%char]) ++ joinElements (x :: xs))
      by (now rewrite <- app_assoc).
    apply hasPrefix_app.
Qed.

(** C1, as the code has it.  [getGitDir] checks no [..]: for a root that
    is set, it answers with the cleaned join of the root and the prefix,
    or with a not-found error when [os.Stat] reports that this path does
    not exist.  When the root is a clean absolute path and the [..]
    elements of the prefix never climb above the directory the prefix
    starts in, that path is the root or lies below it. *)
Theorem getGitDir_within_root (g : GitHttp) (os : OS) (file_path : string) :
  ProjectRoot g <> "" ->
  let f := Join [ProjectRoot g; file_path] in
  ((getGitDir g os file_path = ("", Some (ErrNotExist f)) /\ Stat os f = StatNotExist) \/
   (getGitDir g os file_path = (f, None) /\ Stat os f <> StatNotExist)) /\
  (isCleanRoot (ProjectRoot g) = true ->
   staysBelow (elements (bytes_of file_path)) 0 = true ->
   isUnder (ProjectRoot g) f = true).
Proof.
  intros Hroot f. split.
  - unfold getGitDir.
    destruct (String.eqb_spec (ProjectRoot g) "") as [E|_]; [contradiction|].
    fold f. destruct (Stat os f) eqn:Es; [right | left | right];
      (split; [reflexivity | congruence]).
  - apply Join_under_root.
Qed.

Lemma getGitDir_within_root_witness :
  let g := New "/srv/git" in
  let os := hostOS ["/srv/git/repo.git"] in
  getGitDir g os "/tmp/../repo.git" = ("/srv/git/repo.git", None) /\
  isUnder "/srv/git" "/srv/git/repo.git" = true.
Proof.
  intros g os.
  destruct (@getGitDir_within_root g os "/tmp/../repo.git") as [Hjoin Hunder];
    [discriminate|].
  split.
  - destruct Hjoin as [[_ Hstat] | [Hget _]]; [discriminate Hstat | exact Hget].
  - apply Hunder; reflexivity.
Defined.

(** C1, against the claim as it is stated: with the root [/srv/git], the
    prefix [/../../etc] resolves to [/etc], which is outside the root,
    when that directory exists. *)
Lemma getGitDir_traversal_counterexample :
  getGitDir (New "/srv/git") (hostOS ["/srv/git"; "/etc"]) "/../../etc" = ("/etc", None) /\
  isUnder "/srv/git" "/etc" = false.
Proof. split; reflexivity. Qed.

End Paths.

(** ** Access rules *)

Section Access.

Variables (g : GitHttp) (os : OS).

(** [hasAccess] answers with the flag of the server for the two RPCs, and
    with no for anything else: its last statement, the call of
    [getConfigSetting], is never reached, and the settings of the
    repository are never read. *)
Lemma hasAccess_flags (r : Request) (dir rpc : string) (check : bool) :
  hasAccess g os r dir rpc check =
  Ret (negb (check && negb (String.eqb (ContentType r)
                              ("application/x-git-" ++ rpc ++ "-request")%string))
       && ((String.eqb rpc "receive-pack" && ReceivePack g)
           || (String.eqb rpc "upload-pack" && UploadPack g))).
Proof.
  unfold hasAccess.
  destruct (check && _); [reflexivity|]. cbn [negb andb].
  destruct (String.eqb_spec rpc "receive-pack") as [->|Hr].
  - cbn. now destruct (ReceivePack g).
  - destruct (String.eqb_spec rpc "upload-pack") as [->|Hu]; reflexivity.
Qed.

Lemma hasAccess_any_OS (os' : OS) (r : Request) (dir rpc : string) (check : bool) :
  hasAccess g os r dir rpc check = hasAccess g os' r dir rpc check.
Proof. unfold hasAccess. destruct (check && _); [reflexivity|].
  destruct (String.eqb_spec rpc "receive-pack") as [->|Hr]; [reflexivity|].
  destruct (String.eqb_spec rpc "upload-pack") as [->|Hu]; reflexivity.
Qed.

(** [getConfigSetting], had it been called: with a setting in the
    configuration of the repository, which [git config] prints on a line,
    upload-pack is allowed unless the setting is [false], and receive-pack
    is denied unless it is [true]; with no setting, [git config] prints
    nothing and [getGitConfig] panics. *)
Lemma getConfigSetting_set (dir setting : string) :
  (Output os dir ["config"; "http.uploadpack"] = (setting ++ nl)%string ->
   getConfigSetting g os "upload-pack" dir = Ret (negb (String.eqb setting "false"))) /\
  (Output os dir ["config"; "http.receivepack"] = (setting ++ nl)%string ->
   getConfigSetting g os "receive-pack" dir = Ret (String.eqb setting "true")).
Proof.
  assert (Hsub : forall s, substring 0 (String.length (s ++ nl) - 1) (s ++ nl) = s).
  { intros s.
    assert (Hl : String.length (s ++ nl) - 1 = String.length s).
    { rewrite <- !length_bytes_of, bytes_of_app, length_app. simpl. lia. }
    rewrite Hl. induction s as [|a s IH]; [reflexivity|].
    cbn. f_equal. apply IH.
    rewrite <- !length_bytes_of, bytes_of_app, length_app. simpl. lia. }
  assert (Hlen : forall s, (String.length (s ++ nl) =? 0) = false).
  { intros [|a s]; reflexivity. }
  split; intros Hout; unfold getConfigSetting, getGitConfig, gitCommand.
  - change (Replace_with_empty "upload-pack" "-" None) with "uploadpack".
    change ("http." ++ "uploadpack")%string with "http.uploadpack".
    rewrite Hout, Hlen, Hsub. reflexivity.
  - change (Replace_with_empty "receive-pack" "-" None) with "receivepack".
    change ("http." ++ "receivepack")%string with "http.receivepack".
    rewrite Hout, Hlen, Hsub. reflexivity.
Qed.

Lemma getConfigSetting_unset (dir : string) :
  Output os dir ["config"; "http.receivepack"] = "" ->
  getConfigSetting g os "receive-pack" dir = Panic "slice bounds out of range".
Proof.
  intros Hout. unfold getConfigSetting, getGitConfig, gitCommand.
  change (Replace_with_empty "receive-pack" "-" None) with "receivepack".
  change ("http." ++ "receivepack")%string with "http.receivepack".
  now rewrite Hout.
Qed.

End Access.

(** C2: what the code does where the claim fails.  The repository has no
    setting of its own.  With the server of [New], whose flags are both set,
    a receive-pack request is allowed, where the claim denies it; with a
    server whose flags are both unset, an upload-pack request is denied,
    where the claim allows it. *)
Theorem hasAccess_ignores_repository_setting :
  let os := hostOS ["/srv/git/repo.git"] in
  let off := {| ProjectRoot := "/srv/git"; GitBinPath := "/usr/bin/git";
                UploadPack := false; ReceivePack := false; EventHandler := false |} in
  Output os "/srv/git/repo.git" ["config"; "http.receivepack"] = "" /\
  Output os "/srv/git/repo.git" ["config"; "http.uploadpack"] = "" /\
  hasAccess (New "/srv/git") os (rpcRequest "receive-pack" "0000")
    "/srv/git/repo.git" "receive-pack" true = Ret true /\
  hasAccess off os (rpcRequest "upload-pack" "0000")
    "/srv/git/repo.git" "upload-pack" true = Ret false.
Proof. repeat split. Qed.

(** ** Routing *)

Section Routing.

Implicit Types (visit before after : list (regex * Service)) (path : string).

(** [getService] answers with the first entry, in the order of the visit,
    whose pattern matches the path. *)
Lemma getService_first visit before after re svc path m :
  visit = before ++ (re, svc) :: after ->
  (forall e, In e before -> FindStringSubmatch (fst e) path = None) ->
  FindStringSubmatch re path = Some m ->
  getService visit path = Some (sub (bytes_of path) m 1, svc).
Proof.
  intros -> Hbefore Hm. induction before as [|[re' svc'] before IH]; cbn [app getService].
  - now rewrite Hm.
  - pose proof (Hbefore (re', svc') (or_introl eq_refl)) as Hnone.
    cbn [fst] in Hnone. rewrite Hnone.
    apply IH. intros e He. apply Hbefore. now right.
Qed.

Lemma getService_Some visit path repo svc :
  getService visit path = Some (repo, svc) ->
  exists before re after m,
    visit = before ++ (re, svc) :: after /\
    (forall e, In e before -> FindStringSubmatch (fst e) path = None) /\
    FindStringSubmatch re path = Some m /\
    repo = sub (bytes_of path) m 1.
Proof.
  induction visit as [|[re' svc'] visit IH]; cbn [getService]; [discriminate|].
  destruct (FindStringSubmatch re' path) as [m|] eqn:E.
  - intros [= <- <-]. exists [], re', visit, m. repeat split; auto.
    intros e [].
  - intros H. apply IH in H as (before & re & after & m & -> & Hb & Hm & Hrepo).
    exists ((re', svc') :: before), re, after, m. repeat split; auto.
    intros e [<- | He]; [exact E | now apply Hb].
Qed.

Lemma getService_None visit path :
  getService visit path = None <->
  (forall e, In e visit -> FindStringSubmatch (fst e) path = None).
Proof.
  induction visit as [|[re svc] visit IH]; cbn [getService].
  - split; [intros _ e [] | reflexivity].
  - destruct (FindStringSubmatch re path) as [m|] eqn:E.
    + split; [discriminate|]. intros H. specialize (H (re, svc) (or_introl eq_refl)).
      cbn in H. congruence.
    + rewrite IH. split.
      * intros H e [<- | He]; [exact E | now apply H].
      * intros H e He. apply H. now right.
Qed.

(** The two request handlers of the package, the one of [routing.go] and
    the one of [git-http.go], answer alike. *)
Lemma requestHandler_loop_eq (g : GitHttp) (os : OS) visit (r : Request) :
  requestHandler_loop g os visit r = requestHandler g os visit r.
Proof.
  unfold requestHandler.
  induction visit as [|[re svc] visit IH]; cbn [requestHandler_loop getService];
    [reflexivity|].
  destruct (FindStringSubmatch re (Path r)); [reflexivity | exact IH].
Qed.




(** *** Overlapping patterns *)

Lemma endsWith_conflict (l1 l2 text : bytes) :
  endsWith l1 text -> endsWith l2 text ->
  hasPrefix (rev l1) (rev l2) || hasPrefix (rev l2) (rev l1) = true.
Proof.
  intros [p1 H1] [p2 H2].
  apply (@hasPrefix_common (rev l1) (rev l2) (rev p1) (rev p2)).
  rewrite <- !rev_app_distr. congruence.
Qed.

Lemma endsWith_app_l (x sfx text : bytes) : endsWith sfx text -> endsWith sfx (x ++ text).
Proof. intros [pre ->]. exists (x ++ pre). now rewrite app_assoc. Qed.

Lemma endsWith_cons (a : ascii) (sfx text : bytes) :
  endsWith sfx text -> endsWith sfx (a :: text).
Proof. intros [pre ->]. now exists (a :: pre). Qed.

Lemma endsWith_app_r (x sfx : bytes) : endsWith sfx (x ++ sfx).
Proof. now exists x. Qed.

(** What the parts of a pattern take from the text, one part at a time. *)
Lemma seq_lit (L : string) (rs : list regex) pos rest c k res :
  run (seq (str L :: rs)) pos rest c k = Some res ->
  exists rest',
    rest = bytes_of L ++ rest' /\
    run (seq rs) (pos + String.length L) rest' c k = Some res.
Proof.
  cbn [seq]. rewrite run_Cat. unfold str. rewrite run_lit.
  destruct (hasPrefix (bytes_of L) rest) eqn:E; [|discriminate].
  intros H. apply hasPrefix_split in E. rewrite length_bytes_of in *. eauto.
Qed.

Lemma seq_chr (a : ascii) (rs : list regex) pos rest c k res :
  run (seq (chr a :: rs)) pos rest c k = Some res ->
  exists rest', rest = a :: rest' /\ run (seq rs) (S pos) rest' c k = Some res.
Proof.
  cbn [seq]. rewrite run_Cat, run_chr.
  destruct (hasPrefix [a] rest) eqn:E; [|discriminate].
  intros H. apply hasPrefix_split in E. cbn [List.length app] in E. eauto.
Qed.

Lemma seq_times (p : ascii -> bool) (n : nat) (rs : list regex) pos rest c k res :
  run (seq (times n (Class p) :: rs)) pos rest c k = Some res ->
  exists w rest',
    rest = w ++ rest' /\ List.length w = n /\ forallb p w = true /\
    run (seq rs) (pos + n) rest' c k = Some res.
Proof.
  cbn [seq]. rewrite run_Cat, run_times_class.
  destruct (Nat.leb_spec n (List.length rest)) as [Hn|]; [|discriminate].
  destruct (forallb p (firstn n rest)) eqn:E; [|discriminate]. cbn [andb].
  intros H. exists (firstn n rest), (skipn n rest).
  rewrite firstn_skipn, length_firstn. repeat split; auto. lia.
Qed.

Lemma seq_star (g : bool) (p : ascii -> bool) (rs : list regex) pos rest c k res :
  run (seq (Rep g (Class p) :: rs)) pos rest c k = Some res ->
  exists w rest',
    rest = w ++ rest' /\ forallb p w = true /\
    run (seq rs) (pos + List.length w) rest' c k = Some res.
Proof.
  cbn [seq]. rewrite run_Cat, run_Rep. intros H.
  apply star_class_sound in H as (n & Hn & Hall & Hk).
  exists (firstn n rest), (skipn n rest).
  rewrite firstn_skipn, length_firstn. repeat split; auto.
  now replace (Nat.min n (List.length rest)) with n by lia.
Qed.

Lemma seq_end pos rest c k res :
  run (seq [EndText]) pos rest c k = Some res -> rest = [].
Proof.
  cbn [seq]. rewrite run_Cat, run_EndText. now destruct rest.
Qed.

(** A route matches a path when the part of its pattern after [(.*?)]
    matches the path from some offset to its end. *)
Lemma route_tail (sfx : list regex) path :
  matchesPath (route sfx) path ->
  exists pre rest pos c res,
    bytes_of path = pre ++ rest /\
    run (seq (sfx ++ [EndText])) pos rest c accept = Some res.
Proof.
  unfold matchesPath, FindStringSubmatch. intros H.
  destruct (search (route sfx) 0 (bytes_of path)) as [m|] eqn:E; [|contradiction].
  apply search_Some in E as (j & Hj & _ & Hm).
  unfold matchAt, route in Hm. rewrite run_Cat, run_Cap, run_Rep in Hm.
  apply star_class_sound in Hm as (n & Hn & _ & Hk).
  exists (firstn j (bytes_of path) ++ firstn n (skipn j (bytes_of path))),
         (skipn n (skipn j (bytes_of path))).
  do 3 eexists. split; [|exact Hk].
  now rewrite <- app_assoc, !firstn_skipn.
Qed.

Ltac peel H :=
  repeat first
    [ apply seq_lit in H as (? & -> & H)
    | apply seq_chr in H as (? & -> & H)
    | apply seq_times in H as (? & ? & -> & ? & ? & H)
    | apply seq_star in H as (? & ? & -> & ? & H)
    | apply seq_end in H; subst ].

Lemma route_lit_ends (L path : string) :
  matchesPath (route [str L]) path -> endsWith (bytes_of L) (bytes_of path).
Proof.
  intros H. apply route_tail in H as (pre & rest & pos & c & res & -> & H).
  cbn [app] in H. peel H. rewrite app_nil_r. apply endsWith_app_r.
Qed.

Lemma route_pack_ends (path : string) :
  matchesPath _getPackFile path -> endsWith (bytes_of ".pack") (bytes_of path).
Proof.
  intros H. apply route_tail in H as (pre & rest & pos & c & res & -> & H).
  cbn [app] in H. peel H. rewrite app_nil_r.
  repeat apply endsWith_app_l. apply endsWith_app_l with (x := []). exists []. reflexivity.
Qed.

Lemma route_idx_ends (path : string) :
  matchesPath _getIdxFile path -> endsWith (bytes_of ".idx") (bytes_of path).
Proof.
  intros H. apply route_tail in H as (pre & rest & pos & c & res & -> & H).
  cbn [app] in H. peel H. rewrite app_nil_r.
  repeat apply endsWith_app_l. exists []. reflexivity.
Qed.

Lemma route_loose_ends (path : string) :
  matchesPath _getLooseObject path ->
  exists a, isLowerHex a = true /\ endsWith [a] (bytes_of path).
Proof.
  intros H. apply route_tail in H as (pre & rest & pos & c & res & -> & H).
  cbn [app] in H. peel H. rewrite app_nil_r.
  match goal with
  | Hl : List.length ?w = 38, Hall : forallb isLowerHex ?w = true |- _ =>
      destruct (exists_last (l := w)) as (w' & a & ->);
        [intros ->; discriminate|];
      rewrite forallb_app in Hall; apply andb_true_iff in Hall as [_ Ha];
      cbn [forallb] in Ha; rewrite andb_true_r in Ha;
      exists a; split; [exact Ha|]
  end.
  do 3 apply endsWith_app_l. apply endsWith_cons. apply endsWith_app_r.
Qed.

Lemma hasPrefix_refl (l : bytes) : hasPrefix l l = true.
Proof. rewrite <- (app_nil_r l) at 2. apply hasPrefix_app. Qed.

(** A route whose pattern ends in a literal matches every path that ends
    in that literal. *)
Lemma route_lit_matches (L pre : string) : matchesPath (route [str L]) (pre ++ L).
Proof.
  unfold matchesPath, FindStringSubmatch. rewrite bytes_of_app.
  apply search_found with (j := List.length (bytes_of pre)).
  - rewrite length_app. lia.
  - rewrite skipn_app, Nat.sub_diag, skipn_all. cbn [app skipn].
    unfold matchAt, route. rewrite run_Cat, run_Cap, run_Rep.
    apply (@star_lazy_class notNewline _ [] (bytes_of L)); [reflexivity | simpl; lia |].
    cbn [app seq]. rewrite run_Cat. unfold str.
    rewrite run_lit, hasPrefix_refl, skipn_all, run_Cat, run_EndText.
    discriminate.
Qed.

(** Two literals neither of which ends in the other: no path ends in
    both. *)
Lemma route_lit_disjoint (L P pre : string) :
  hasPrefix (rev (bytes_of L)) (rev (bytes_of P))
  || hasPrefix (rev (bytes_of P)) (rev (bytes_of L)) = false ->
  ~ matchesPath (route [str L]) (pre ++ P).
Proof.
  intros Hdis Hm. apply route_lit_ends in Hm.
  assert (Hends : endsWith (bytes_of P) (bytes_of (pre ++ P))).
  { rewrite bytes_of_app. apply endsWith_app_r. }
  rewrite (endsWith_conflict Hm Hends) in Hdis. discriminate.
Qed.

Lemma last_char_conflict (a b : ascii) (P P' text : bytes) :
  rev P = b :: P' -> endsWith [a] text -> endsWith P text -> a = b.
Proof.
  intros HP Ha Hends. pose proof (endsWith_conflict Ha Hends) as Hc.
  rewrite HP in Hc. cbn [rev app hasPrefix] in Hc.
  apply orb_true_iff in Hc as [Hc | Hc]; apply andb_true_iff in Hc as [Hc _];
    apply Ascii.eqb_eq in Hc; congruence.
Qed.

Ltac conflict Hm Hends :=
  let Hc := fresh "Hc" in
  pose proof (endsWith_conflict Hm Hends) as Hc; vm_compute in Hc; discriminate Hc.

(** The entries of the table a path can match when it ends in a literal
    whose last character is [s], taken one by one. *)
Ltac entries He Hm Hends :=
  cbn [In services] in He;
  repeat (destruct He as [<- | He]); try contradiction; cbn [fst snd] in *;
  try reflexivity; try (left; reflexivity); try (right; reflexivity); exfalso;
  first
    [ apply route_lit_ends in Hm; conflict Hm Hends
    | apply route_pack_ends in Hm; conflict Hm Hends
    | apply route_idx_ends in Hm; conflict Hm Hends
    | let a := fresh "a" in
      let Ha := fresh "Ha" in
      let Hc := fresh "Hc" in
      apply route_loose_ends in Hm as (a & Ha & Hm);
      assert (Hc : a = "s"%char)
        by (eapply last_char_conflict; [|exact Hm|exact Hends]; vm_compute; reflexivity);
      subst a; discriminate Ha ].

Lemma packs_path_entries (pre : string) (e : regex * Service) :
  In e services ->
  matchesPath (fst e) (pre ++ "/objects/info/packs") ->
  e = infoPacksEntry \/ e = infoFileEntry.
Proof.
  intros He Hm.
  assert (Hends : endsWith (bytes_of "/objects/info/packs")
                    (bytes_of (pre ++ "/objects/info/packs"))).
  { rewrite bytes_of_app. apply endsWith_app_r. }
  entries He Hm Hends.
Qed.

Lemma alternates_path_entries (pre : string) (e : regex * Service) :
  In e services ->
  matchesPath (fst e) (pre ++ "/objects/info/alternates") ->
  Handler (snd e) = getTextFile.
Proof.
  intros He Hm.
  assert (Hends : endsWith (bytes_of "/objects/info/alternates")
                    (bytes_of (pre ++ "/objects/info/alternates"))).
  { rewrite bytes_of_app. apply endsWith_app_r. }
  entries He Hm Hends.
Qed.

Lemma getService_finds visit path (e : regex * Service) :
  In e visit -> matchesPath (fst e) path ->
  exists repo svc before re after,
    getService visit path = Some (repo, svc) /\
    visit = before ++ (re, svc) :: after /\
    (forall e', In e' before -> FindStringSubmatch (fst e') path = None) /\
    matchesPath re path.
Proof.
  intros He Hm.
  destruct (getService visit path) as [[repo svc]|] eqn:E.
  - destruct (getService_Some _ _ E) as (before & re & after & m & Hv & Hb & Hre & _).
    exists repo, svc, before, re, after. repeat split; auto.
    unfold matchesPath. now rewrite Hre.
  - rewrite getService_None in E. now apply E in He.
Qed.

Lemma split_twice (A : Type) (x y : A) (l1 l2 l3 l4 : list A) :
  l1 ++ x :: l2 = l3 ++ y :: l4 -> In x l3 \/ x = y \/ In y l1.
Proof.
  revert l3. induction l1 as [|a l1 IH]; intros [|b l3] H; cbn [app] in H.
  - injection H as -> _. auto.
  - injection H as -> _. left. now left.
  - injection H as -> _. right. right. now left.
  - injection H as -> H. apply IH in H as [H | [H | H]]; auto.
    + left. now right.
    + right. right. now right.
Qed.

(** C6, as the code has it.  The entries of the route table are visited in
    an order the code does not fix, and the first entry whose pattern
    matches decides.  A path that ends in [/objects/info/alternates] gets
    an entry of the text-file operation in every order.  A path that ends
    in [/objects/info/packs] gets the info-packs entry in every order that
    visits this entry before the entry of [/objects/info/[^/]*], and so in
    the order the table is written in. *)
Theorem first_match_routing visit (pre : string) :
  visitOrder visit ->
  (exists repo svc,
      getService visit (pre ++ "/objects/info/alternates") = Some (repo, svc) /\
      Handler svc = getTextFile) /\
  (forall before after,
      visit = before ++ infoPacksEntry :: after ->
      ~ In infoFileEntry before ->
      exists repo svc,
        getService visit (pre ++ "/objects/info/packs") = Some (repo, svc) /\
        Handler svc = getInfoPacks) /\
  (exists repo svc,
      getService services (pre ++ "/objects/info/packs") = Some (repo, svc) /\
      Handler svc = getInfoPacks).
Proof.
  intros Hperm. unfold visitOrder in Hperm.
  assert (Hin : forall e, In e visit -> In e services).
  { intros e He. apply Permutation_in with (l := visit); [now symmetry | exact He]. }
  split; [|split].
  - assert (He : In alternatesEntry visit).
    { apply Permutation_in with (l := services); [exact Hperm|]. cbn. tauto. }
    destruct (@getService_finds visit (pre ++ "/objects/info/alternates") _ He)
      as (repo & svc & before & re & after & Hget & Hv & _ & Hm).
    { apply (route_lit_matches "/objects/info/alternates"). }
    exists repo, svc. split; [exact Hget|].
    apply (@alternates_path_entries pre (re, svc)); [|exact Hm].
    apply Hin. rewrite Hv. apply in_elt.
  - intros before after Hv Hnot.
    assert (He : In infoPacksEntry visit) by (rewrite Hv; apply in_elt).
    assert (Hpacks : matchesPath (fst infoPacksEntry) (pre ++ "/objects/info/packs")).
    { apply (route_lit_matches "/objects/info/packs"). }
    destruct (@getService_finds visit (pre ++ "/objects/info/packs") _ He Hpacks)
      as (repo & svc & before' & re & after' & Hget & Hv' & Hnone & Hm).
    exists repo, svc. split; [exact Hget|].
    assert (Hre : In (re, svc) services) by (apply Hin; rewrite Hv'; apply in_elt).
    destruct (@packs_path_entries pre (re, svc) Hre Hm) as [E | E].
    + injection E as _ ->. reflexivity.
    + rewrite Hv in Hv'. symmetry in Hv'.
      apply split_twice in Hv' as [H | [H | H]].
      * rewrite E in H. contradiction.
      * injection H as _ ->. reflexivity.
      * apply Hnone in H. unfold matchesPath in Hpacks. contradiction.
  - pose proof (@route_lit_matches "/objects/info/packs" pre) as Hm.
    unfold matchesPath in Hm.
    destruct (FindStringSubmatch (route [str "/objects/info/packs"])
                (pre ++ "/objects/info/packs")) as [m|] eqn:E; [|contradiction].
    exists (sub (bytes_of (pre ++ "/objects/info/packs")) m 1),
           {| SMethod := "GET"; Handler := getInfoPacks; Rpc := "" |}.
    split; [|reflexivity].
    apply (@getService_first services (firstn 6 services) (skipn 7 services)
             _getInfoPacks); [reflexivity | | exact E].
    intros e He. cbn [firstn services In] in He.
    destruct (FindStringSubmatch (fst e) (pre ++ "/objects/info/packs")) eqn:Ee;
      [|reflexivity].
    assert (Hm' : matchesPath (fst e) (pre ++ "/objects/info/packs")).
    { unfold matchesPath. rewrite Ee. discriminate. }
    exfalso. revert Hm'. clear Ee.
    repeat (destruct He as [<- | He]); try contradiction; cbn [fst];
      apply route_lit_disjoint; vm_compute; reflexivity.
Qed.

Lemma first_match_routing_witness :
  (exists repo svc,
      getService services "/repo.git/objects/info/alternates" = Some (repo, svc) /\
      Handler svc = getTextFile) /\
  (exists repo svc,
      getService services "/repo.git/objects/info/packs" = Some (repo, svc) /\
      Handler svc = getInfoPacks).
Proof.
  destruct (@first_match_routing services "/repo.git" (Permutation_refl services))
    as (H1 & _ & H3).
  split; [exact H1 | exact H3].
Defined.

(** C6, against the claim as it is stated: in the order that visits the
    table from its last entry to its first, the path
    [/repo.git/objects/info/packs] gets the text-file operation, and in
    the order the table is written in it gets the info-packs operation. *)
Lemma routing_order_counterexample :
  let g := New "/srv/git" in
  let os := hostOS ["/srv/git/repo.git"] in
  let r := getRequest "HTTP/1.1" "/repo.git/objects/info/packs" in
  let hr := {| hr_r := r; hr_Rpc := ""; hr_Dir := "/srv/git/repo.git";
               hr_File := "objects/info/packs" |} in
  visitOrder (rev services) /\
  requestHandler g os (rev services) r = Calls getTextFile hr /\
  requestHandler_loop g os (rev services) r = Calls getTextFile hr /\
  requestHandler g os services r = Calls getInfoPacks hr.
Proof.
  split; [apply Permutation_rev|].
  repeat split; vm_compute; reflexivity.
Qed.

End Routing.

(** ** The RPC handler *)

Section ServiceRpc.

Lemma handled_app (t1 t2 : list effect) : handled (t1 ++ t2) = handled t1 ++ handled t2.
Proof.
  induction t1 as [|e t1 IH]; [reflexivity|].
  destruct e; cbn [app handled]; rewrite IH; reflexivity.
Qed.

Lemma handled_Handle (evs : list Event) : handled (map Handle evs) = evs.
Proof. induction evs as [|e evs IH]; cbn; [reflexivity | now rewrite IH]. Qed.

(** With an event handler, the loop over the events is one call of the
    handler for each, in order. *)
Lemma forEach_event (g : GitHttp) (evs : list Event) :
  EventHandler g = true -> forEach evs (event g) = (map Handle evs, Ret tt).
Proof.
  intros Hg. induction evs as [|e evs IH]; [reflexivity|].
  cbn [forEach map]. unfold event at 1. rewrite Hg, IH. reflexivity.
Qed.

Lemma forEach_event_trace (g : GitHttp) (evs : list Event) :
  exists t, forEach evs (event g) = (t, Ret tt).
Proof.
  induction evs as [|e evs [t IH]]; [now exists []|].
  cbn [forEach]. rewrite IH. unfold event.
  destruct (EventHandler g); eexists; reflexivity.
Qed.

Lemma requestReader_withCommand (os : OS) c (r : Request) :
  requestReader (withCommand os c) r = requestReader os r.
Proof. reflexivity. Qed.

Lemma forEach_event_print (g : GitHttp) (evs : list Event) :
  EventHandler g = false -> forEach evs (event g) = (map PrintEvent evs, Ret tt).
Proof.
  intros Hg. induction evs as [|e evs IH]; [reflexivity|].
  cbn [forEach map]. unfold event at 1. rewrite Hg, IH. reflexivity.
Qed.

Lemma handled_PrintEvent (evs : list Event) : handled (map PrintEvent evs) = [].
Proof. induction evs as [|e evs IH]; [reflexivity | exact IH]. Qed.

(** The events [serviceRpc] hands to the event handler, on any system. *)
Lemma handled_serviceRpc (g : GitHttp) (os : OS) (hr : HandlerReq) :
  handled (trace (serviceRpc g os hr)) =
  match hasAccess g os (hr_r hr) (hr_Dir hr) (hr_Rpc hr) true with
  | Ret true =>
      match requestReader os (hr_r hr) with
      | inl input =>
          if EventHandler g then rpcEvents (hr_Rpc hr) (hr_Dir hr) input else []
      | inr _ => []
      end
  | _ => []
  end.
Proof.
  unfold serviceRpc.
  destruct (hasAccess g os (hr_r hr) (hr_Dir hr) (hr_Rpc hr) true) as [[|]|msg|];
    [|reflexivity|reflexivity|reflexivity].
  destruct (requestReader os (hr_r hr)) as [input|err]; [|reflexivity].
  cbn [lift bind negb]. unfold writeBlocks, copyBlocks.
  destruct (Command os (GitBinPath g) _ _)
    as [noStdin noStdout noStart noWait out stalls forever].
  cbn [stdinPipeFails stdoutPipeFails startFails stdoutFor stallsOn runsForever].
  destruct (EventHandler g) eqn:Hg.
  - rewrite (forEach_event _ _ Hg).
    destruct noStdin, noStdout, noStart, (stalls input), (forever input); cbn;
      rewrite ?handled_app, handled_Handle; cbn; now rewrite ?app_nil_r.
  - rewrite (forEach_event_print _ _ Hg).
    destruct noStdin, noStdout, noStart, (stalls input), (forever input); cbn;
      rewrite ?handled_app, handled_PrintEvent; reflexivity.
Qed.

(** C10.  The events [serviceRpc] hands to the event handler do not depend
    on what the subprocess does, whether or not its pipes can be made, it
    starts, and it exits with success ([c] is any answer of
    [exec.Command]); and for a request that passes the access check and
    whose body can be read, they are the events of the payload, in their
    order. *)
Theorem events_whatever_the_subprocess (g : GitHttp) (os : OS) (hr : HandlerReq)
    (c : string -> list string -> string -> Cmd) :
  handled (trace (serviceRpc g (withCommand os c) hr))
  = handled (trace (serviceRpc g os hr)) /\
  (forall input,
      EventHandler g = true ->
      hasAccess g os (hr_r hr) (hr_Dir hr) (hr_Rpc hr) true = Ret true ->
      requestReader os (hr_r hr) = inl input ->
      handled (trace (serviceRpc g (withCommand os c) hr))
      = rpcEvents (hr_Rpc hr) (hr_Dir hr) input).
Proof.
  rewrite !handled_serviceRpc.
  rewrite <- (hasAccess_any_OS g os (withCommand os c)), requestReader_withCommand.
  split; [reflexivity|].
  intros input Hg Hacc Hread. now rewrite Hacc, Hread, Hg.
Qed.

Lemma events_whatever_the_subprocess_witness :
  handled (trace (serviceRpc (watched "/srv/git")
                    (withCommand (hostOS ["/srv/git/repo.git"]) (fun _ _ _ => brokenCmd))
                    (rpcHandlerReq "receive-pack" pushPayload)))
  = [pushEvent "/srv/git/repo.git" zeros40 sha_a "master"].
Proof.
  rewrite (proj2 (@events_whatever_the_subprocess (watched "/srv/git")
                    (hostOS ["/srv/git/repo.git"]) (rpcHandlerReq "receive-pack" pushPayload)
                    (fun _ _ _ => brokenCmd))
             pushPayload eq_refl eq_refl eq_refl).
  vm_compute. reflexivity.
Defined.

(** [serviceRpc] from the write on, for a request that passes the access
    check, whose body can be read, with both pipes made: the write, which
    may never return; then the copy, which may never return; then the
    wait. *)
Lemma serviceRpc_run (g : GitHttp) (os : OS) (hr : HandlerReq) (input : string) :
  let args := [hr_Rpc hr; "--stateless-rpc"; hr_Dir hr] in
  let cmd := Command os (GitBinPath g) args (hr_Dir hr) in
  hasAccess g os (hr_r hr) (hr_Dir hr) (hr_Rpc hr) true = Ret true ->
  requestReader os (hr_r hr) = inl input ->
  stdinPipeFails cmd = false ->
  stdoutPipeFails cmd = false ->
  forall events,
    forEach (rpcEvents (hr_Rpc hr) (hr_Dir hr) input) (event g) = (events, Ret tt) ->
    serviceRpc g os hr
    = bind (events
            ++ [SetHeader "Content-Type"
                  ("application/x-git-" ++ hr_Rpc hr ++ "-result")%string;
                WriteHeader 200;
                CmdStart (GitBinPath g) args (hr_Dir hr)]
            ++ (if startFails cmd then [Log (ErrExec "Start")] else [])
            ++ [StdinWrite input],
            if negb (startFails cmd) && stallsOn cmd input
            then Blocked else Ret tt)
        (fun _ =>
           bind ([CopyStdout (if startFails cmd then "" else stdoutFor cmd input)],
                 if negb (startFails cmd) && runsForever cmd input
                 then Blocked else Ret tt)
             (fun _ => emit CmdWait)).
Proof.
  intros args cmd Hacc Hread Hin Hout events Hev.
  unfold serviceRpc. rewrite Hacc, Hread. cbn [lift bind negb].
  rewrite Hev. fold args. fold cmd. unfold writeBlocks, copyBlocks.
  rewrite Hin, Hout. cbn [negb andb logIf].
  destruct (startFails cmd), (stallsOn cmd input), (runsForever cmd input);
    cbn; rewrite <- ?app_assoc; reflexivity.
Qed.

Lemma length_append (p x : string) :
  String.length (p ++ x) = String.length p + String.length x.
Proof. induction p as [|a p IH]; cbn; [reflexivity | now rewrite IH]. Qed.

Lemma length_Repeat (s : string) (n : nat) :
  String.length (Repeat s n) = n * String.length s.
Proof.
  induction n as [|n IH]; [reflexivity|].
  cbn [Repeat]. rewrite length_append, IH. reflexivity.
Qed.

(** The large push is more than a pipe takes. *)
Lemma largePush_stalls (out : string) :
  stallsOn (stallingCmd pipeSize out) largePush = true.
Proof.
  cbn [stallsOn stallingCmd]. unfold largePush.
  rewrite length_append, length_Repeat, Nat2N.inj_add, Nat2N.inj_mul, N2Nat.id.
  vm_compute. reflexivity.
Qed.

(** C9, as the code has it.  When the request passes the access check,
    its body can be read and the pipes of the subprocess can be made,
    [serviceRpc] makes three calls one after the other, on the goroutine of
    the request: it writes the whole request body to the standard input of
    the subprocess; only when this call has returned it copies the standard
    output of the subprocess to the response; only when that call has
    returned it waits for the subprocess.  So when the subprocess stalls,
    waiting for room in the pipe of its output before it has read the body
    to the end, the write never returns, nothing of the output is copied
    and the handler never returns; when the subprocess never closes its
    output, the copy never returns; and when the subprocess did not start,
    or reads the body, writes and exits, the handler returns after the
    three calls. *)
Theorem write_then_read (g : GitHttp) (os : OS) (hr : HandlerReq) (input : string) :
  let args := [hr_Rpc hr; "--stateless-rpc"; hr_Dir hr] in
  let cmd := Command os (GitBinPath g) args (hr_Dir hr) in
  hasAccess g os (hr_r hr) (hr_Dir hr) (hr_Rpc hr) true = Ret true ->
  requestReader os (hr_r hr) = inl input ->
  stdinPipeFails cmd = false ->
  stdoutPipeFails cmd = false ->
  exists events,
    forEach (rpcEvents (hr_Rpc hr) (hr_Dir hr) input) (event g) = (events, Ret tt) /\
    let pre :=
      events
      ++ [SetHeader "Content-Type" ("application/x-git-" ++ hr_Rpc hr ++ "-result")%string;
          WriteHeader 200;
          CmdStart (GitBinPath g) args (hr_Dir hr)]
      ++ (if startFails cmd then [Log (ErrExec "Start")] else []) in
    let output := if startFails cmd then "" else stdoutFor cmd input in
    (startFails cmd = false -> stallsOn cmd input = true ->
     serviceRpc g os hr = (pre ++ [StdinWrite input], Blocked)) /\
    (startFails cmd = false -> stallsOn cmd input = false ->
     runsForever cmd input = true ->
     serviceRpc g os hr = (pre ++ [StdinWrite input; CopyStdout output], Blocked)) /\
    (startFails cmd = true
     \/ (stallsOn cmd input = false /\ runsForever cmd input = false) ->
     serviceRpc g os hr
     = (pre ++ [StdinWrite input; CopyStdout output; CmdWait], Ret tt)) /\
    (startFails cmd = true \/ stallsOn cmd input = false ->
     writesThenReads (trace (serviceRpc g os hr))).
Proof.
  intros args cmd Hacc Hread Hin Hout.
  destruct (forEach_event_trace g (rpcEvents (hr_Rpc hr) (hr_Dir hr) input)) as [events Hev].
  exists events. split; [exact Hev|]. cbv zeta.
  pose proof (@serviceRpc_run g os hr input Hacc Hread Hin Hout events Hev) as Hrun.
  cbv zeta in Hrun. fold args in Hrun. fold cmd in Hrun.
  rewrite Hrun. clear Hrun.
  split; [|split; [|split]].
  - intros -> ->. cbn. now rewrite <- !app_assoc.
  - intros -> -> ->. cbn. now rewrite <- !app_assoc.
  - intros [-> | [-> ->]].
    + cbn. now rewrite <- !app_assoc.
    + destruct (startFails cmd); cbn; now rewrite <- !app_assoc.
  - intros H.
    assert (Hw : negb (startFails cmd) && stallsOn cmd input = false).
    { destruct H as [-> | ->]; [reflexivity | apply andb_false_r]. }
    rewrite Hw. unfold writesThenReads, trace.
    exists (events
            ++ [SetHeader "Content-Type"
                  ("application/x-git-" ++ hr_Rpc hr ++ "-result")%string;
                WriteHeader 200;
                CmdStart (GitBinPath g) args (hr_Dir hr)]
            ++ (if startFails cmd then [Log (ErrExec "Start")] else [])),
           input, (if startFails cmd then "" else stdoutFor cmd input),
           (if negb (startFails cmd) && runsForever cmd input then [] else [CmdWait]).
    destruct (negb (startFails cmd) && runsForever cmd input);
      cbn [bind emit fst snd]; rewrite <- !app_assoc; cbn [app]; reflexivity.
Qed.

Lemma write_then_read_witness :
  writesThenReads
    (trace (serviceRpc (New "/srv/git") (hostOS ["/srv/git/repo.git"])
              (rpcHandlerReq "upload-pack" ("0032want " ++ sha_b ++ nl ++ "0000")))).
Proof.
  destruct (@write_then_read (New "/srv/git") (hostOS ["/srv/git/repo.git"])
              (rpcHandlerReq "upload-pack" ("0032want " ++ sha_b ++ nl ++ "0000"))
              ("0032want " ++ sha_b ++ nl ++ "0000") eq_refl eq_refl eq_refl eq_refl)
    as (events & _ & _ & _ & _ & H).
  apply H. right. reflexivity.
Defined.

(** C9, against the claim as it is stated: for a push, [serviceRpc] writes
    the request body to the subprocess and reads its output in sequence,
    the whole body first; and for a push with a pack larger than a pipe
    takes, to a subprocess that answers as it reads, the write never
    returns and nothing is read, where two tasks side by side would have
    made room by reading. *)
Lemma sequential_write_then_read_counterexample :
  let run :=
    serviceRpc (New "/srv/git")
      (withCommand (hostOS ["/srv/git/repo.git"]) (fun _ _ _ => quietCmd "0000"))
      (rpcHandlerReq "receive-pack" pushPayload) in
  let stalled :=
    serviceRpc (New "/srv/git")
      (withCommand (hostOS ["/srv/git/repo.git"])
         (fun _ _ _ => stallingCmd pipeSize "0000"))
      (rpcHandlerReq "receive-pack" largePush) in
  run
  = ([PrintEvent (pushEvent "/srv/git/repo.git" zeros40 sha_a "master");
      SetHeader "Content-Type" "application/x-git-receive-pack-result";
      WriteHeader 200;
      CmdStart "/usr/bin/git"
        ["receive-pack"; "--stateless-rpc"; "/srv/git/repo.git"] "/srv/git/repo.git";
      StdinWrite pushPayload;
      CopyStdout "0000";
      CmdWait],
     Ret tt) /\
  writesThenReads (trace run) /\
  stalled
  = (map PrintEvent (rpcEvents "receive-pack" "/srv/git/repo.git" largePush)
     ++ [SetHeader "Content-Type" "application/x-git-receive-pack-result";
         WriteHeader 200;
         CmdStart "/usr/bin/git"
           ["receive-pack"; "--stateless-rpc"; "/srv/git/repo.git"] "/srv/git/repo.git";
         StdinWrite largePush],
     Blocked).
Proof.
  intros run stalled.
  assert (H : run
    = ([PrintEvent (pushEvent "/srv/git/repo.git" zeros40 sha_a "master");
        SetHeader "Content-Type" "application/x-git-receive-pack-result";
        WriteHeader 200;
        CmdStart "/usr/bin/git"
          ["receive-pack"; "--stateless-rpc"; "/srv/git/repo.git"] "/srv/git/repo.git";
        StdinWrite pushPayload;
        CopyStdout "0000";
        CmdWait],
       Ret tt)) by (vm_compute; reflexivity).
  split; [exact H|]. split.
  - rewrite H. cbn [trace fst].
    exists [PrintEvent (pushEvent "/srv/git/repo.git" zeros40 sha_a "master");
            SetHeader "Content-Type" "application/x-git-receive-pack-result";
            WriteHeader 200;
            CmdStart "/usr/bin/git"
              ["receive-pack"; "--stateless-rpc"; "/srv/git/repo.git"] "/srv/git/repo.git"],
           pushPayload, "0000", [CmdWait].
    reflexivity.
  - unfold stalled.
    rewrite (@serviceRpc_run (New "/srv/git")
               (withCommand (hostOS ["/srv/git/repo.git"])
                  (fun _ _ _ => stallingCmd pipeSize "0000"))
               (rpcHandlerReq "receive-pack" largePush) largePush
               eq_refl eq_refl eq_refl eq_refl
               (map PrintEvent (rpcEvents "receive-pack" "/srv/git/repo.git" largePush))
               (@forEach_event_print (New "/srv/git") _ eq_refl)).
    cbn [Command withCommand startFails stallingCmd negb andb].
    rewrite largePush_stalls. reflexivity.
Qed.


End ServiceRpc.


(* ================================================================== *)
(** * Part III: further properties of the code *)
(* ================================================================== *)

(** ** Packet lines of any length *)

Section PacketLineLength.

(** [formatBits] writes more than [k] digits for a number that needs them. *)
Lemma length_formatBits_lower (fuel : nat) :
  forall (u : N) (acc : bytes) (k : nat),
    k <= fuel ->
    (16 ^ N.of_nat k <= u)%N ->
    k + List.length acc < List.length (formatBits fuel 16 u acc).
Proof.
  induction fuel as [|fuel IH]; intros u acc k Hk Hu.
  - assert (k = 0) by lia. subst k. simpl. lia.
  - cbn [formatBits]. destruct (N.leb_spec 16 u) as [Hle | Hlt].
    + destruct k as [|k]; [|].
      * specialize (IH (u / 16)%N (digit (u mod 16) :: acc) 0 (Nat.le_0_l _)).
        cbn [List.length] in IH. simpl N.of_nat in IH.
        assert (1 <= u / 16)%N.
        { apply N.div_le_lower_bound; lia. }
        specialize (IH ltac:(simpl; lia)). lia.
      * specialize (IH (u / 16)%N (digit (u mod 16) :: acc) k ltac:(lia)).
        cbn [List.length] in IH.
        assert (16 ^ N.of_nat k <= u / 16)%N.
        { rewrite Nat2N.inj_succ, N.pow_succ_r' in Hu.
          apply N.div_le_lower_bound; lia. }
        specialize (IH ltac:(assumption)). lia.
    + destruct k as [|k]; [simpl; lia|].
      rewrite Nat2N.inj_succ, N.pow_succ_r' in Hu.
      assert (16 ^ N.of_nat k <> 0)%N by (apply N.pow_nonzero; lia).
      lia.
Qed.

(** X1.  [packetWrite] has no bound on the length: for every string whose
    length plus four fits an [int64], the result is the string behind a
    prefix of lowercase hexadecimal digits that read as the length plus
    four, padded with zeros to a multiple of four digits; the prefix has
    four digits when the string is shorter than 65532 bytes, and eight or
    more when it is not, which is no packet line any more. *)
Theorem packetWrite_any_length (str : string) :
  (Z.of_nat (String.length str) + 4 < 2 ^ 63)%Z ->
  exists pre : bytes,
    bytes_of (packetWrite str) = pre ++ bytes_of str /\
    parseHex 0 pre = Some (N.of_nat (String.length str + 4)) /\
    List.length pre mod 4 = 0 /\
    0 < List.length pre /\
    ((N.of_nat (String.length str) < 65532)%N -> List.length pre = 4) /\
    ((65532 <= N.of_nat (String.length str))%N -> 8 <= List.length pre).
Proof.
  intros Hlen. unfold packetWrite, FormatInt.
  remember (Z.of_nat (String.length str) + 4)%Z as i eqn:Ei.
  assert (Hi : (i <? 0)%Z = false) by (apply Z.ltb_ge; lia).
  rewrite Hi.
  remember (Z.to_N i) as u eqn:Eu.
  assert (Hu : u = N.of_nat (String.length str + 4)) by lia.
  assert (Hmax : (u < 16 ^ N.of_nat 65)%N).
  { assert (u < 2 ^ 63)%N by lia.
    eapply N.lt_trans; [eassumption|]. reflexivity. }
  assert (Hp : parseHex 0 (formatBits 64 16 u []) = Some u).
  { now rewrite parseHex_formatBits. }
  assert (Hlow : 0 < List.length (formatBits 64 16 u [])).
  { pose proof (@length_formatBits 64 u [] 64 Hmax). lia. }
  assert (Hshort : (u < 65536)%N -> List.length (formatBits 64 16 u []) <= 4).
  { intros H. pose proof (@length_formatBits 64 u [] 3 H) as Hl.
    change (List.length (@nil ascii)) with 0 in Hl. lia. }
  assert (Hlong : (65536 <= u)%N -> 4 < List.length (formatBits 64 16 u [])).
  { intros H. pose proof (@length_formatBits_lower 64 u [] 4 ltac:(lia) H) as Hl.
    change (List.length (@nil ascii)) with 0 in Hl. lia. }
  remember (formatBits 64 16 u []) as s eqn:Es. clear Es.
  rewrite length_str_of.
  assert (Hmod : List.length s mod 4 < 4) by (apply Nat.mod_upper_bound; lia).
  pose proof (Nat.div_mod_eq (List.length s) 4) as Hdm.
  destruct (Nat.eqb_spec (List.length s mod 4) 0) as [Hz | Hnz]; cbn [negb].
  - exists s. rewrite bytes_of_app, bytes_of_str_of, Hu in *.
    repeat split; auto; intros H; lia.
  - exists (repeat "0"%char (4 - List.length s mod 4) ++ s).
    rewrite !bytes_of_app, bytes_of_Repeat_zero, bytes_of_str_of, <- app_assoc.
    rewrite parseHex_zeros, Hp, Hu, length_app, repeat_length.
    assert (Hsum : 4 - List.length s mod 4 + List.length s
                   = 4 * (List.length s / 4 + 1)) by lia.
    rewrite Hsum.
    repeat split; try lia.
    rewrite Nat.mul_comm. apply Nat.Div0.mod_mul.
Qed.

Lemma packetWrite_any_length_witness :
  exists pre : bytes,
    bytes_of (packetWrite "# service=git-receive-pack") = pre ++ bytes_of "# service=git-receive-pack" /\
    parseHex 0 pre = Some 30%N.
Proof.
  destruct (@packetWrite_any_length "# service=git-receive-pack") as (pre & H1 & H2 & _).
  - reflexivity.
  - exists pre. split; [exact H1 | exact H2].
Defined.

End PacketLineLength.

(** ** The service of a request ([getServiceType]) *)

Section ServiceType.

Lemma removeOld_done (fuel : nat) (old s : bytes) : removeOld fuel old s (Some 0) = s.
Proof. destruct fuel; reflexivity. Qed.

Lemma getServiceType_git (r : Request) (x : string) :
  FormService r = ("git-" ++ x)%string -> getServiceType r = x.
Proof.
  intros H. unfold getServiceType, Replace_with_empty. rewrite H.
  cbn. rewrite ?removeOld_done. apply str_of_bytes_of.
Qed.

Lemma getServiceType_other (r : Request) :
  hasPrefix (bytes_of "git-") (bytes_of (FormService r)) = false -> getServiceType r = "".
Proof. intros H. unfold getServiceType. now rewrite H. Qed.

Lemma getServiceType_eq (r : Request) (x : string) :
  x <> "" -> getServiceType r = x <-> FormService r = ("git-" ++ x)%string.
Proof.
  intros Hx. split; [|apply getServiceType_git].
  intros H.
  destruct (hasPrefix (bytes_of "git-") (bytes_of (FormService r))) eqn:Hp.
  - apply hasPrefix_split in Hp.
    assert (Hf : FormService r
                 = ("git-" ++ str_of (skipn 4 (bytes_of (FormService r))))%string).
    { apply bytes_of_inj. now rewrite bytes_of_app, bytes_of_str_of. }
    rewrite (@getServiceType_git _ _ Hf) in H. now rewrite Hf, H.
  - rewrite (@getServiceType_other _ Hp) in H. now symmetry in H.
Qed.

(** X2.  [getServiceType] gives what follows [git-] in the form value
    [service], and the empty string for a value that does not begin with
    [git-]; so it names an RPC only for the two values [git-upload-pack]
    and [git-receive-pack]. *)
Theorem getServiceType_cases (r : Request) :
  (forall x, FormService r = ("git-" ++ x)%string -> getServiceType r = x) /\
  (hasPrefix (bytes_of "git-") (bytes_of (FormService r)) = false ->
   getServiceType r = "") /\
  (getServiceType r = "upload-pack" <-> FormService r = "git-upload-pack") /\
  (getServiceType r = "receive-pack" <-> FormService r = "git-receive-pack").
Proof.
  split; [apply getServiceType_git|].
  split; [apply getServiceType_other|].
  split; apply getServiceType_eq; discriminate.
Qed.

Lemma getServiceType_cases_witness :
  getServiceType (getRequest "HTTP/1.1" "/repo.git/info/refs") = "".
Proof.
  apply (proj1 (proj2 (@getServiceType_cases (getRequest "HTTP/1.1" "/repo.git/info/refs")))).
  reflexivity.
Defined.

End ServiceType.

(** ** The ref advertisement ([getInfoRefs]) *)

Section InfoRefs.

Variable g : GitHttp.
Variable os : OS.
Variable info : string -> FileInfo.

Lemma getInfoRefs_access (hr : HandlerReq) :
  hasAccess g os (hr_r hr) (hr_Dir hr) (getServiceType (hr_r hr)) false
  = Ret (smartInfoRefs g (hr_r hr)).
Proof.
  rewrite hasAccess_flags. cbn [andb negb]. unfold smartInfoRefs. f_equal.
  pose proof (@getServiceType_eq (hr_r hr) "upload-pack" ltac:(discriminate)) as Hu.
  pose proof (@getServiceType_eq (hr_r hr) "receive-pack" ltac:(discriminate)) as Hr.
  change ("git-" ++ "upload-pack")%string with "git-upload-pack" in Hu.
  change ("git-" ++ "receive-pack")%string with "git-receive-pack" in Hr.
  destruct (String.eqb_spec (getServiceType (hr_r hr)) "receive-pack") as [E1|E1];
    destruct (String.eqb_spec (getServiceType (hr_r hr)) "upload-pack") as [E2|E2];
    destruct (String.eqb_spec (FormService (hr_r hr)) "git-upload-pack") as [E3|E3];
    destruct (String.eqb_spec (FormService (hr_r hr)) "git-receive-pack") as [E4|E4];
    cbn [andb orb]; try reflexivity;
    try (exfalso; tauto); try congruence.
  all: destruct (ReceivePack g), (UploadPack g); reflexivity.
Qed.

(** X3.  The smart ref advertisement.  For the form value [git-upload-pack]
    or [git-receive-pack] whose flag is set, [getInfoRefs] runs the
    git command of the service with [--stateless-rpc --advertise-refs .]
    in the repository, sets the headers against caching and the content
    type [application/x-git-<service>-advertisement], answers status 200,
    and writes the packet line of [# service=git-<service>] and a newline,
    whose length prefix is [001e] for upload-pack and [001f] for
    receive-pack, then the flush packet [0000], then the output of the
    command. *)
Theorem getInfoRefs_smart (hr : HandlerReq) :
  smartInfoRefs g (hr_r hr) = true ->
  exists svc pkt : string,
    FormService (hr_r hr) = ("git-" ++ svc)%string /\
    ((svc = "upload-pack" /\ pkt = ("001e# service=git-upload-pack" ++ nl)%string)
     \/ (svc = "receive-pack" /\ pkt = ("001f# service=git-receive-pack" ++ nl)%string)) /\
    getInfoRefs_ g os info hr =
    ([ RunGit (hr_Dir hr) [svc; "--stateless-rpc"; "--advertise-refs"; "."];
       HeaderSet "Expires" "Fri, 01 Jan 1980 00:00:00 GMT";
       HeaderSet "Pragma" "no-cache";
       HeaderSet "Cache-Control" "no-cache, max-age=0, must-revalidate";
       HeaderSet "Content-Type" ("application/x-git-" ++ svc ++ "-advertisement")%string;
       Status 200;
       BodyWrite pkt;
       BodyWrite "0000";
       BodyWrite (Output os (hr_Dir hr) [svc; "--stateless-rpc"; "--advertise-refs"; "."]) ],
     Ret tt).
Proof.
  intros Hsmart. unfold getInfoRefs_. rewrite getInfoRefs_access, Hsmart.
  unfold smartInfoRefs in Hsmart.
  destruct (String.eqb_spec (FormService (hr_r hr)) "git-upload-pack") as [E|E].
  - exists "upload-pack", ("001e# service=git-upload-pack" ++ nl)%string.
    rewrite (@getServiceType_git (hr_r hr) "upload-pack" E).
    split; [exact E|]. split; [now left|]. reflexivity.
  - destruct (String.eqb_spec (FormService (hr_r hr)) "git-receive-pack") as [E'|E'];
      [|discriminate Hsmart].
    exists "receive-pack", ("001f# service=git-receive-pack" ++ nl)%string.
    rewrite (@getServiceType_git (hr_r hr) "receive-pack" E').
    split; [exact E'|]. split; [now right|]. reflexivity.
Qed.

(** X4.  Every other request for [info/refs] is answered in the dumb
    protocol, and never refused: a form value that names no service, or
    the service whose flag is off, makes [getInfoRefs] run
    [git update-server-info] in the repository and send the file
    [info/refs] with the headers against caching; no status 403 is
    written. *)
Theorem getInfoRefs_dumb (hr : HandlerReq) :
  smartInfoRefs g (hr_r hr) = false ->
  getInfoRefs_ g os info hr
  = andThen (RunGit (hr_Dir hr) ["update-server-info"] :: hdrNocache)
      (sendFile os info "text/plain; charset=utf-8" hr)
  /\ ~ In (Status StatusForbidden) (fst (getInfoRefs_ g os info hr)).
Proof.
  intros Hdumb. unfold getInfoRefs_. rewrite getInfoRefs_access, Hdumb.
  split; [reflexivity|].
  unfold sendFile. destruct (Stat os _); cbn; intros H;
    repeat (destruct H as [H|H]; [discriminate H|]); exact H.
Qed.

End InfoRefs.

Lemma getInfoRefs_smart_witness :
  exists svc pkt : string,
    fst (getInfoRefs_ (New "/srv/git") (hostOS ["/srv/git/repo.git"])
           (fun _ => {| Size := 0; ModTime := "" |})
           {| hr_r := {| Method := "GET"; Path := "/repo.git/info/refs";
                         Proto := "HTTP/1.1"; ContentType := "";
                         ContentEncoding := ""; FormService := "git-upload-pack";
                         Body := "" |};
              hr_Rpc := ""; hr_Dir := "/srv/git/repo.git"; hr_File := "info/refs" |})
    = [ RunGit "/srv/git/repo.git" [svc; "--stateless-rpc"; "--advertise-refs"; "."];
        HeaderSet "Expires" "Fri, 01 Jan 1980 00:00:00 GMT";
        HeaderSet "Pragma" "no-cache";
        HeaderSet "Cache-Control" "no-cache, max-age=0, must-revalidate";
        HeaderSet "Content-Type" ("application/x-git-" ++ svc ++ "-advertisement")%string;
        Status 200;
        BodyWrite pkt;
        BodyWrite "0000";
        BodyWrite (Output (hostOS ["/srv/git/repo.git"]) "/srv/git/repo.git"
                     [svc; "--stateless-rpc"; "--advertise-refs"; "."]) ].
Proof.
  destruct (@getInfoRefs_smart (New "/srv/git") (hostOS ["/srv/git/repo.git"])
              (fun _ => {| Size := 0; ModTime := "" |})
              {| hr_r := {| Method := "GET"; Path := "/repo.git/info/refs";
                            Proto := "HTTP/1.1"; ContentType := "";
                            ContentEncoding := ""; FormService := "git-upload-pack";
                            Body := "" |};
                 hr_Rpc := ""; hr_Dir := "/srv/git/repo.git"; hr_File := "info/refs" |}
              eq_refl) as (svc & pkt & _ & _ & H).
  exists svc, pkt. now rewrite H.
Defined.

Lemma getInfoRefs_dumb_witness :
  ~ In (Status StatusForbidden)
      (fst (getInfoRefs_ (New "/srv/git") (hostOS ["/srv/git/repo.git"])
              (fun _ => {| Size := 0; ModTime := "" |})
              {| hr_r := getRequest "HTTP/1.1" "/repo.git/info/refs";
                 hr_Rpc := ""; hr_Dir := "/srv/git/repo.git"; hr_File := "info/refs" |})).
Proof.
  apply (@getInfoRefs_dumb (New "/srv/git") (hostOS ["/srv/git/repo.git"])
           (fun _ => {| Size := 0; ModTime := "" |})
           {| hr_r := getRequest "HTTP/1.1" "/repo.git/info/refs";
              hr_Rpc := ""; hr_Dir := "/srv/git/repo.git"; hr_File := "info/refs" |}).
  reflexivity.
Defined.

(** ** Files ([sendFile] and the handlers that end in it) *)

Section Files.

Variable g : GitHttp.
Variable os : OS.
Variable info : string -> FileInfo.
Variable now : Z.

(** Every handler but [serviceRpc] and the smart [getInfoRefs] is some
    headers and then [sendFile] with a content type. *)
Lemma callFileHandler_sendFile (h : handler) (hr : HandlerReq) (o : outcome) :
  callFileHandler g os info now h hr = Some o ->
  smartInfoRefs g (hr_r hr) = false ->
  exists (hdrs : list action) (content_type : string),
    o = andThen hdrs (sendFile os info content_type hr) /\
    (forall a, In a hdrs -> (exists k v, a = HeaderSet k v) \/ (exists d args, a = RunGit d args)).
Proof.
  intros Hcall Hdumb.
  assert (Hh : forall k v, (exists k' v', HeaderSet k v = HeaderSet k' v')
                           \/ (exists d args, HeaderSet k v = RunGit d args))
    by (intros k v; left; now exists k, v).
  destruct h; cbn [callFileHandler] in Hcall; try discriminate Hcall;
    injection Hcall as <-.
  - unfold getInfoRefs_. rewrite getInfoRefs_access, Hdumb.
    eexists _, _. split; [reflexivity|].
    intros a [<-|Ha]; [right; now eexists _, _|].
    repeat (destruct Ha as [<-|Ha]; [apply Hh|]). destruct Ha.
  - eexists _, _. split; [reflexivity|].
    intros a Ha. repeat (destruct Ha as [<-|Ha]; [apply Hh|]). destruct Ha.
  - eexists _, _. split; [reflexivity|].
    intros a Ha. repeat (destruct Ha as [<-|Ha]; [apply Hh|]). destruct Ha.
  - eexists _, _. split; [reflexivity|].
    intros a Ha. repeat (destruct Ha as [<-|Ha]; [apply Hh|]). destruct Ha.
  - eexists _, _. split; [reflexivity|].
    intros a Ha. repeat (destruct Ha as [<-|Ha]; [apply Hh|]). destruct Ha.
  - eexists _, _. split; [reflexivity|].
    intros a Ha. repeat (destruct Ha as [<-|Ha]; [apply Hh|]). destruct Ha.
Qed.

(** X5.  A file that [os.Stat] cannot examine for another reason than its
    absence (a permission, say) makes every file handler panic: [sendFile]
    tests the error with [os.IsNotExist] only and then calls [Size] on the
    nil [FileInfo].  The handler has set headers by then, the content type
    among them, and has written no status and no body. *)
Theorem file_handlers_panic_on_stat_error (h : handler) (hr : HandlerReq) (o : outcome) :
  callFileHandler g os info now h hr = Some o ->
  smartInfoRefs g (hr_r hr) = false ->
  Stat os (GoPath.Join [hr_Dir hr; hr_File hr]) = StatError ->
  snd o = Panic "nil pointer dereference" /\
  (exists content_type, In (HeaderSet "Content-Type" content_type) (fst o)) /\
  (forall a, In a (fst o) ->
     (forall code, a <> Status code) /\ (forall data, a <> BodyWrite data)
     /\ (forall name, a <> ServeFile name)).
Proof.
  intros Hcall Hdumb Hstat.
  destruct (callFileHandler_sendFile _ _ Hcall Hdumb) as (hdrs & ct & -> & Hhdrs).
  unfold sendFile. rewrite Hstat. cbn [andThen fst snd].
  split; [reflexivity|]. split.
  - exists ct. apply in_or_app. right. now left.
  - intros a Ha. apply in_app_or in Ha. destruct Ha as [Ha|[<-|[]]].
    + destruct (Hhdrs a Ha) as [(k & v & ->)|(d & args & ->)];
        repeat split; intros; discriminate.
    + repeat split; intros; discriminate.
Qed.

(** X6.  A file that is not there is answered with status 404 and the body
    [Not Found] by every file handler, after the headers the handler sets
    before it looks for the file; for a loose object, a pack, a pack index
    and the list of packs these are the headers that let the answer be
    cached for a year. *)
Theorem file_handlers_not_found (h : handler) (hr : HandlerReq) (o : outcome) :
  callFileHandler g os info now h hr = Some o ->
  smartInfoRefs g (hr_r hr) = false ->
  Stat os (GoPath.Join [hr_Dir hr; hr_File hr]) = StatNotExist ->
  snd o = Ret tt /\
  (exists hdrs, fst o = hdrs ++ [Status 404; BodyWrite "Not Found"]) /\
  (In h [getInfoPacks; getLooseObject; getPackFile; getIdxFile] ->
   fst o = [ HeaderSet "Date" (FormatInt now 10);
             HeaderSet "Expires" (FormatInt (now + 31536000) 10);
             HeaderSet "Cache-Control" "public, max-age=31536000";
             Status 404; BodyWrite "Not Found" ]).
Proof.
  intros Hcall Hdumb Hstat.
  split; [|split].
  - destruct (callFileHandler_sendFile _ _ Hcall Hdumb) as (hdrs & ct & -> & _).
    unfold sendFile. now rewrite Hstat.
  - destruct (callFileHandler_sendFile _ _ Hcall Hdumb) as (hdrs & ct & -> & _).
    unfold sendFile. rewrite Hstat. now exists hdrs.
  - intros Hin.
    destruct Hin as [<-|[<-|[<-|[<-|[]]]]]; cbn [callFileHandler] in Hcall;
      injection Hcall as <-;
      unfold getInfoPacks_, getLooseObject_, getPackFile_, getIdxFile_, sendFile;
      rewrite Hstat; reflexivity.
Qed.

End Files.

Lemma file_handlers_panic_on_stat_error_witness :
  snd (getLooseObject_
         {| Getwd := Some "/"; Stat := fun _ => StatError; Output := fun _ _ => "";
            Command := fun _ _ _ => quietCmd ""; gunzip := fun b => Some b;
            inflate := fun b => b |}
         (fun _ => {| Size := 0; ModTime := "" |}) 0
         {| hr_r := getRequest "HTTP/1.1" "/repo.git/objects/aa/bb";
            hr_Rpc := ""; hr_Dir := "/srv/git/repo.git"; hr_File := "objects/aa/bb" |})
  = Panic "nil pointer dereference".
Proof.
  apply (@file_handlers_panic_on_stat_error (New "/srv/git")
           {| Getwd := Some "/"; Stat := fun _ => StatError; Output := fun _ _ => "";
              Command := fun _ _ _ => quietCmd ""; gunzip := fun b => Some b;
              inflate := fun b => b |}
           (fun _ => {| Size := 0; ModTime := "" |}) 0 getLooseObject
           {| hr_r := getRequest "HTTP/1.1" "/repo.git/objects/aa/bb";
              hr_Rpc := ""; hr_Dir := "/srv/git/repo.git"; hr_File := "objects/aa/bb" |}
           _ eq_refl eq_refl eq_refl).
Defined.

Lemma file_handlers_not_found_witness :
  snd (getPackFile_ (hostOS []) (fun _ => {| Size := 0; ModTime := "" |}) 0
         {| hr_r := getRequest "HTTP/1.1" "/repo.git/objects/pack/pack-1.pack";
            hr_Rpc := ""; hr_Dir := "/srv/git/repo.git";
            hr_File := "objects/pack/pack-1.pack" |})
  = Ret tt.
Proof.
  apply (@file_handlers_not_found (New "/srv/git") (hostOS [])
           (fun _ => {| Size := 0; ModTime := "" |}) 0 getPackFile
           {| hr_r := getRequest "HTTP/1.1" "/repo.git/objects/pack/pack-1.pack";
              hr_Rpc := ""; hr_Dir := "/srv/git/repo.git";
              hr_File := "objects/pack/pack-1.pack" |}
           _ eq_refl eq_refl eq_refl).
Defined.

(** ** Event types as JSON *)

(** X7.  [UnmarshalJSON] takes the three bare words [tag], [push] and
    [fetch] and nothing else, and [MarshalJSON] writes the name between
    double quotes: so [UnmarshalJSON] answers every value that
    [MarshalJSON] writes, of any event type, with an error, whose text has
    the verb of the format unfilled. *)
Theorem UnmarshalJSON_rejects_MarshalJSON (e e' : Z) :
  UnmarshalJSON e' (MarshalJSON e)
  = Some "'%!s(MISSING)' is not a known git event type"
  /\ (forall data,
        UnmarshalJSON e' data = None <-> data = "tag" \/ data = "push" \/ data = "fetch").
Proof.
  split.
  - unfold MarshalJSON, EventType_String_int.
    destruct (e =? 1)%Z; [reflexivity|].
    destruct (e =? 2)%Z; [reflexivity|].
    destruct (e =? 3)%Z; reflexivity.
  - intros data. unfold UnmarshalJSON.
    destruct (String.eqb_spec data "tag") as [->|H1]; [tauto|].
    destruct (String.eqb_spec data "push") as [->|H2]; [tauto|].
    destruct (String.eqb_spec data "fetch") as [->|H3]; [tauto|].
    split; [discriminate | tauto].
Qed.

(** ** The configuration of a repository ([getGitConfig], [getConfigSetting]) *)

Section Config.

Variable g : GitHttp.
Variable os : OS.

Lemma substring_all_but_last (s : string) (c : ascii) :
  substring 0 (String.length (s ++ String c "") - 1) (s ++ String c "") = s.
Proof.
  assert (Hl : forall s, String.length (s ++ String c "") - 1 = String.length s).
  { intros s'. induction s' as [|a s' IH]; [reflexivity|].
    cbn [append String.length]. rewrite <- IH.
    destruct (s' ++ String c "")%string eqn:E; [|cbn; lia].
    destruct s'; discriminate E. }
  rewrite Hl. induction s as [|a s IH]; [reflexivity|].
  cbn. f_equal. exact IH.
Qed.

(** X8.  [getGitConfig] returns what [git config] prints without its last
    byte, whatever this byte is, and panics when nothing is printed, which
    is what [git config] does for a setting that is not there.  So
    [getConfigSetting] grants upload-pack unless what is left is [false],
    grants receive-pack only if it is [true], and panics for a repository
    that has no such setting. *)
Theorem getGitConfig_drops_last_byte (name dir : string) :
  (Output os dir ["config"; name] = "" ->
   getGitConfig g os name dir = Panic "slice bounds out of range") /\
  (forall s c, Output os dir ["config"; name] = (s ++ String c "")%string ->
               getGitConfig g os name dir = Ret s) /\
  (forall s c,
      Output os dir ["config"; "http.uploadpack"] = (s ++ String c "")%string ->
      getConfigSetting g os "upload-pack" dir = Ret (negb (String.eqb s "false"))) /\
  (forall s c,
      Output os dir ["config"; "http.receivepack"] = (s ++ String c "")%string ->
      getConfigSetting g os "receive-pack" dir = Ret (String.eqb s "true")) /\
  (Output os dir ["config"; "http.uploadpack"] = "" ->
   getConfigSetting g os "upload-pack" dir = Panic "slice bounds out of range").
Proof.
  assert (Hget : forall n s c,
             Output os dir ["config"; n] = (s ++ String c "")%string ->
             getGitConfig g os n dir = Ret s).
  { intros n s c Hout. unfold getGitConfig, gitCommand. rewrite Hout.
    rewrite substring_all_but_last.
    destruct (String.length (s ++ String c "") =? 0) eqn:E; [|reflexivity].
    apply Nat.eqb_eq in E. destruct s; discriminate E. }
  split; [|split; [|split; [|split]]].
  - intros Hout. unfold getGitConfig, gitCommand. now rewrite Hout.
  - apply Hget.
  - intros s c Hout. unfold getConfigSetting.
    change (Replace_with_empty "upload-pack" "-" None) with "uploadpack".
    change ("http." ++ "uploadpack")%string with "http.uploadpack".
    now rewrite (Hget _ _ _ Hout).
  - intros s c Hout. unfold getConfigSetting.
    change (Replace_with_empty "receive-pack" "-" None) with "receivepack".
    change ("http." ++ "receivepack")%string with "http.receivepack".
    now rewrite (Hget _ _ _ Hout).
  - intros Hout. unfold getConfigSetting, getGitConfig, gitCommand.
    change (Replace_with_empty "upload-pack" "-" None) with "uploadpack".
    change ("http." ++ "uploadpack")%string with "http.uploadpack".
    now rewrite Hout.
Qed.

End Config.

Lemma getGitConfig_drops_last_byte_witness :
  getGitConfig (New "/srv/git")
    {| Getwd := Some "/"; Stat := fun _ => StatOk; Output := fun _ _ => "true";
       Command := fun _ _ _ => quietCmd ""; gunzip := fun b => Some b;
       inflate := fun b => b |}
    "http.receivepack" "/srv/git/repo.git"
  = Ret "tru".
Proof.
  apply (proj1 (proj2 (@getGitConfig_drops_last_byte (New "/srv/git")
           {| Getwd := Some "/"; Stat := fun _ => StatOk; Output := fun _ _ => "true";
              Command := fun _ _ _ => quietCmd ""; gunzip := fun b => Some b;
              inflate := fun b => b |}
           "http.receivepack" "/srv/git/repo.git")) "tru" "e"%char).
  reflexivity.
Defined.

(** ** The RPC handler off the main path ([serviceRpc]) *)

Section ServiceRpcEdges.

Variable g : GitHttp.
Variable os : OS.

(** X9.  [serviceRpc] refuses a request whose content type is not
    [application/x-git-<rpc>-request], whose RPC is none of the two, or
    whose RPC has its flag off: it answers status 403 with the body
    [Forbidden] and does nothing else; the body is not read, no event is
    published and no subprocess is made. *)
Theorem serviceRpc_forbidden (hr : HandlerReq) :
  ContentType (hr_r hr) <> ("application/x-git-" ++ hr_Rpc hr ++ "-request")%string
  \/ (hr_Rpc hr <> "upload-pack" /\ hr_Rpc hr <> "receive-pack")
  \/ (hr_Rpc hr = "upload-pack" /\ UploadPack g = false)
  \/ (hr_Rpc hr = "receive-pack" /\ ReceivePack g = false) ->
  serviceRpc g os hr = ([WriteHeader 403; Write "Forbidden"], Ret tt).
Proof.
  intros H. unfold serviceRpc. rewrite hasAccess_flags. cbn [andb].
  assert (Hno : negb (negb (String.eqb (ContentType (hr_r hr))
                        ("application/x-git-" ++ hr_Rpc hr ++ "-request")%string))
                && ((String.eqb (hr_Rpc hr) "receive-pack" && ReceivePack g)
                    || (String.eqb (hr_Rpc hr) "upload-pack" && UploadPack g)) = false).
  { destruct H as [H|[[H1 H2]|[[H1 H2]|[H1 H2]]]].
    - destruct (String.eqb_spec (ContentType (hr_r hr))
                  ("application/x-git-" ++ hr_Rpc hr ++ "-request")%string);
        [contradiction | reflexivity].
    - destruct (String.eqb_spec (hr_Rpc hr) "receive-pack"); [contradiction|].
      destruct (String.eqb_spec (hr_Rpc hr) "upload-pack"); [contradiction|].
      apply andb_false_r.
    - rewrite H1, H2. apply andb_false_r.
    - rewrite H1, H2. apply andb_false_r. }
  rewrite Hno. reflexivity.
Qed.

(** X10.  A body that is announced as gzip and has no gzip header gets no
    answer from [serviceRpc]: it prints a line on the standard output and
    returns, with no status, no header and no body written, no event
    published and no subprocess made. *)
Theorem serviceRpc_unreadable_body (hr : HandlerReq) :
  hasAccess g os (hr_r hr) (hr_Dir hr) (hr_Rpc hr) true = Ret true ->
  ContentEncoding (hr_r hr) = "gzip" ->
  gunzip os (Body (hr_r hr)) = None ->
  serviceRpc g os hr = ([Print "Error getting reader"], Ret tt).
Proof.
  intros Hacc Henc Hgz. unfold serviceRpc, requestReader.
  rewrite Hacc, Henc, Hgz. reflexivity.
Qed.

(** X11.  When the pipe to the standard input of the subprocess cannot be
    made, [serviceRpc] has published the events and sent status 200 before
    it learns of it, logs the error, starts the subprocess all the same and
    then panics on the nil pipe: nothing is written to the subprocess,
    nothing is copied to the response and the subprocess is not waited
    for.  When only the pipe from its standard output cannot be made, the
    body is written to the subprocess before the panic. *)
Theorem serviceRpc_pipe_failure (hr : HandlerReq) (input : string) :
  let args := [hr_Rpc hr; "--stateless-rpc"; hr_Dir hr] in
  let cmd := Command os (GitBinPath g) args (hr_Dir hr) in
  hasAccess g os (hr_r hr) (hr_Dir hr) (hr_Rpc hr) true = Ret true ->
  requestReader os (hr_r hr) = inl input ->
  stdinPipeFails cmd = true \/ stdoutPipeFails cmd = true ->
  exists events,
    forEach (rpcEvents (hr_Rpc hr) (hr_Dir hr) input) (event g) = (events, Ret tt) /\
    serviceRpc g os hr
    = (events
       ++ [SetHeader "Content-Type" ("application/x-git-" ++ hr_Rpc hr ++ "-result")%string;
           WriteHeader 200]
       ++ (if stdinPipeFails cmd then [Log (ErrExec "StdinPipe")] else [])
       ++ (if stdoutPipeFails cmd then [Log (ErrExec "StdoutPipe")] else [])
       ++ [CmdStart (GitBinPath g) args (hr_Dir hr)]
       ++ (if startFails cmd then [Log (ErrExec "Start")] else [])
       ++ (if stdinPipeFails cmd then [] else [StdinWrite input]),
       Panic "nil pointer dereference").
Proof.
  intros args cmd Hacc Hread Hfail.
  destruct (forEach_event_trace g (rpcEvents (hr_Rpc hr) (hr_Dir hr) input)) as [events Hev].
  exists events. split; [exact Hev|].
  unfold serviceRpc. rewrite Hacc, Hread. cbn [lift bind negb fst snd app].
  rewrite Hev. fold args. fold cmd.
  unfold writeBlocks, copyBlocks.
  destruct cmd as [noStdin noStdout noStart noWait out stalls forever].
  cbn [stdinPipeFails stdoutPipeFails startFails stdoutFor stallsOn runsForever] in *.
  destruct Hfail as [-> | ->]; [destruct noStdout | destruct noStdin];
    destruct noStart; cbn; rewrite ?app_nil_r; reflexivity.
Qed.

End ServiceRpcEdges.

Lemma serviceRpc_forbidden_witness :
  serviceRpc (New "/srv/git") (hostOS ["/srv/git/repo.git"])
    {| hr_r := getRequest "HTTP/1.1" "/repo.git/git-upload-pack";
       hr_Rpc := "upload-pack"; hr_Dir := "/srv/git/repo.git";
       hr_File := "git-upload-pack" |}
  = ([WriteHeader 403; Write "Forbidden"], Ret tt).
Proof.
  apply (@serviceRpc_forbidden (New "/srv/git") (hostOS ["/srv/git/repo.git"])
           {| hr_r := getRequest "HTTP/1.1" "/repo.git/git-upload-pack";
              hr_Rpc := "upload-pack"; hr_Dir := "/srv/git/repo.git";
              hr_File := "git-upload-pack" |}).
  left. discriminate.
Defined.

Lemma serviceRpc_unreadable_body_witness :
  serviceRpc (New "/srv/git")
    {| Getwd := Some "/"; Stat := fun _ => StatOk; Output := fun _ _ => "";
       Command := fun _ _ _ => quietCmd ""; gunzip := fun _ => None;
       inflate := fun b => b |}
    {| hr_r := {| Method := "POST"; Path := "/repo.git/git-receive-pack";
                  Proto := "HTTP/1.1";
                  ContentType := "application/x-git-receive-pack-request";
                  ContentEncoding := "gzip"; FormService := ""; Body := "0000" |};
       hr_Rpc := "receive-pack"; hr_Dir := "/srv/git/repo.git";
       hr_File := "git-receive-pack" |}
  = ([Print "Error getting reader"], Ret tt).
Proof.
  apply (@serviceRpc_unreadable_body (New "/srv/git")
           {| Getwd := Some "/"; Stat := fun _ => StatOk; Output := fun _ _ => "";
              Command := fun _ _ _ => quietCmd ""; gunzip := fun _ => None;
              inflate := fun b => b |}
           {| hr_r := {| Method := "POST"; Path := "/repo.git/git-receive-pack";
                         Proto := "HTTP/1.1";
                         ContentType := "application/x-git-receive-pack-request";
                         ContentEncoding := "gzip"; FormService := ""; Body := "0000" |};
              hr_Rpc := "receive-pack"; hr_Dir := "/srv/git/repo.git";
              hr_File := "git-receive-pack" |}
           eq_refl eq_refl eq_refl).
Defined.

Lemma serviceRpc_pipe_failure_witness :
  snd (serviceRpc (New "/srv/git")
         (withCommand (hostOS ["/srv/git/repo.git"])
            (fun _ _ _ => {| stdinPipeFails := true; stdoutPipeFails := false;
                             startFails := false; waitFails := false;
                             stdoutFor := fun _ => "";
                             stallsOn := fun _ => false;
                             runsForever := fun _ => false |}))
         (rpcHandlerReq "receive-pack" pushPayload))
  = Panic "nil pointer dereference".
Proof.
  destruct (@serviceRpc_pipe_failure (New "/srv/git")
              (withCommand (hostOS ["/srv/git/repo.git"])
                 (fun _ _ _ => {| stdinPipeFails := true; stdoutPipeFails := false;
                                  startFails := false; waitFails := false;
                                  stdoutFor := fun _ => "";
                                  stallsOn := fun _ => false;
                                  runsForever := fun _ => false |}))
              (rpcHandlerReq "receive-pack" pushPayload) pushPayload
              eq_refl eq_refl (or_introl eq_refl)) as (events & _ & H).
  now rewrite H.
Defined.

(** ** The repository and the file of a routed path *)

Section RouteSplit.

(** A pattern without groups hands to its continuation the groups it was
    given. *)
Lemma star_capfree_caps (body : matcher) (g : bool) k res :
  (forall pos s c k', body pos s c k' = Some res ->
                      exists pos' s', k' pos' s' c = Some res) ->
  forall (fuel : nat) pos s c,
    star body g k fuel pos s c = Some res ->
    exists pos' s', k pos' s' c = Some res.
Proof.
  intros Hbody. induction fuel as [|fuel IH]; intros pos s c H.
  - now exists pos, s.
  - cbn [star] in H.
    assert (Hagain : body pos s c
                       (fun pos' s' c' =>
                          if pos <? pos' then star body g k fuel pos' s' c' else None)
                     = Some res -> exists pos' s', k pos' s' c = Some res).
    { intros Hb. apply Hbody in Hb. destruct Hb as (pos' & s' & Hb).
      destruct (pos <? pos'); [|discriminate Hb]. now apply IH in Hb. }
    destruct g.
    + destruct (body pos s c _) eqn:Hb.
      * injection H as ->. now apply Hagain.
      * now exists pos, s.
    + destruct (k pos s c) eqn:Hk.
      * injection H as ->. now exists pos, s.
      * now apply Hagain.
Qed.

Lemma run_capfree_caps (r : regex) :
  capfree r = true ->
  forall pos s c k res,
    run r pos s c k = Some res -> exists pos' s', k pos' s' c = Some res.
Proof.
  induction r as [|p|r1 IH1 r2 IH2|r1 IH1 r2 IH2|g r IH|i r IH| |];
    cbn [capfree]; intros Hcf pos s c k res H.
  - now exists pos, s.
  - cbn [run] in H. destruct s as [|a s]; [discriminate H|].
    destruct (p a); [|discriminate H]. now exists (S pos), s.
  - apply andb_prop in Hcf. destruct Hcf as [H1 H2].
    rewrite run_Cat in H. apply (IH1 H1) in H. destruct H as (pos' & s' & H).
    now apply (IH2 H2) in H.
  - apply andb_prop in Hcf. destruct Hcf as [H1 H2].
    cbn [run] in H. destruct (run r1 pos s c k) eqn:E1.
    + injection H as ->. now apply (IH1 H1) in E1.
    + now apply (IH2 H2) in H.
  - rewrite run_Rep in H. revert H. apply star_capfree_caps.
    intros pos0 s0 c0 k'. apply (IH Hcf).
  - discriminate Hcf.
  - rewrite run_BeginText in H. destruct (pos =? 0); [|discriminate H]. now exists pos, s.
  - rewrite run_EndText in H. destruct s; [|discriminate H]. now exists pos, (@nil ascii).
Qed.

(** Whether a pattern without groups matches does not depend on the groups
    it is given. *)
Lemma star_capfree_mono (body : matcher) (g : bool) :
  (forall pos s c c' k k',
      (forall pos' s', k pos' s' c <> None -> k' pos' s' c' <> None) ->
      body pos s c k <> None -> body pos s c' k' <> None) ->
  forall (fuel : nat) pos s c c' k k',
    (forall pos' s', k pos' s' c <> None -> k' pos' s' c' <> None) ->
    star body g k fuel pos s c <> None -> star body g k' fuel pos s c' <> None.
Proof.
  intros Hbody. induction fuel as [|fuel IH]; intros pos s c c' k k' Hk H.
  - now apply Hk.
  - cbn [star] in *.
    assert (Hagain :
              body pos s c
                (fun pos' s' c0 =>
                   if pos <? pos' then star body g k fuel pos' s' c0 else None) <> None ->
              body pos s c'
                (fun pos' s' c0 =>
                   if pos <? pos' then star body g k' fuel pos' s' c0 else None) <> None).
    { apply Hbody. intros pos' s' Hs. destruct (pos <? pos'); [|exact Hs].
      revert Hs. now apply IH. }
    destruct g.
    + destruct (body pos s c _) eqn:Hb.
      * destruct (body pos s c' _) eqn:Hb'; [discriminate|].
        exfalso. apply Hagain; [discriminate | reflexivity].
      * destruct (body pos s c' _); [discriminate|]. now apply Hk.
    + destruct (k pos s c) eqn:Ek.
      * destruct (k' pos s c') eqn:Ek'; [discriminate|].
        exfalso. apply (Hk pos s); [rewrite Ek; discriminate | exact Ek'].
      * destruct (k' pos s c'); [discriminate|]. now apply Hagain.
Qed.

Lemma run_capfree_mono (r : regex) :
  capfree r = true ->
  forall pos s c c' k k',
    (forall pos' s', k pos' s' c <> None -> k' pos' s' c' <> None) ->
    run r pos s c k <> None -> run r pos s c' k' <> None.
Proof.
  induction r as [|p|r1 IH1 r2 IH2|r1 IH1 r2 IH2|g r IH|i r IH| |];
    cbn [capfree]; intros Hcf pos s c c' k k' Hk H.
  - now apply Hk.
  - cbn [run] in *. destruct s as [|a s]; [exact H|].
    destruct (p a); [|exact H]. now apply Hk.
  - apply andb_prop in Hcf. destruct Hcf as [H1 H2].
    rewrite run_Cat in *. revert H. apply (IH1 H1).
    intros pos' s'. now apply (IH2 H2).
  - apply andb_prop in Hcf. destruct Hcf as [H1 H2].
    cbn [run] in *. destruct (run r1 pos s c k) eqn:E1.
    + destruct (run r1 pos s c' k') eqn:E1'; [discriminate|].
      exfalso. apply (IH1 H1 pos s c c' k k' Hk); [rewrite E1; discriminate | exact E1'].
    + destruct (run r1 pos s c' k'); [discriminate|].
      revert H. now apply (IH2 H2).
  - rewrite run_Rep in *. revert H. apply star_capfree_mono; [|exact Hk].
    intros pos0 s0 c0 c0' k0 k0'. apply (IH Hcf).
  - discriminate Hcf.
  - rewrite run_BeginText in *. destruct (pos =? 0); [|exact H]. now apply Hk.
  - rewrite run_EndText in *. destruct s; [|exact H]. now apply Hk.
Qed.

Lemma forallb_firstn (A : Type) (p : A -> bool) (n : nat) (l : list A) :
  forallb p l = true -> forallb p (firstn n l) = true.
Proof.
  revert n. induction l as [|a l IH]; intros [|n] H; try reflexivity.
  cbn in *. apply andb_prop in H. destruct H as [-> H]. now apply IH.
Qed.

Lemma matchAt_route (sfx : list regex) (pos : nat) (s : bytes) :
  matchAt (route sfx) pos s
  = star (run (Class notNewline)) false
      (fun pos' s' c' => run (seq (sfx ++ [EndText])) pos' s' ((1, (pos, pos')) :: c') accept)
      (S (List.length s)) pos s [].
Proof. unfold matchAt, route. now rewrite run_Cat, run_Cap, run_Rep. Qed.

(** In a text without a newline, a route pattern that matches somewhere
    matches from the start. *)
Lemma route_match_from_start (sfx : list regex) (text : bytes) (j : nat) :
  capfree (seq (sfx ++ [EndText])) = true ->
  forallb notNewline text = true ->
  j <= List.length text ->
  matchAt (route sfx) j (skipn j text) <> None ->
  matchAt (route sfx) 0 text <> None.
Proof.
  intros Hcf Hnl Hj H. rewrite matchAt_route in *.
  destruct (star _ _ _ _ j _ _) as [res|] eqn:E; [clear H | contradiction].
  apply star_class_sound in E. destruct E as (n & Hn & _ & E).
  rewrite skipn_skipn in E.
  rewrite length_skipn in Hn.
  rewrite <- (firstn_skipn (n + j) text) at 2.
  apply star_lazy_class.
  - now apply forallb_firstn.
  - rewrite length_firstn. lia.
  - rewrite length_firstn, Nat.min_l by lia. cbn [Nat.add].
    rewrite (Nat.add_comm j n) in E.
    apply (@run_capfree_mono _ Hcf (n + j) (skipn (n + j) text) [(1, (j, n + j))]
             [(1, (0, n + j))] accept accept).
    + intros pos' s' _. discriminate.
    + rewrite E. discriminate.
Qed.

(** The first group of a route pattern on a text without a newline: the
    match starts at the start of the text and the group is a prefix of the
    text, behind which the rest of the pattern matches to the end. *)
Lemma route_first_group (sfx : list regex) (text : bytes) (m : submatch) :
  capfree (seq (sfx ++ [EndText])) = true ->
  forallb notNewline text = true ->
  search (route sfx) 0 text = Some m ->
  exists n e,
    n <= List.length text /\
    m = {| mBegin := 0; mEnd := e; mCaps := [(1, (0, n))] |} /\
    run (seq (sfx ++ [EndText])) n (skipn n text) [(1, (0, n))] accept
    = Some (e, [(1, (0, n))]).
Proof.
  intros Hcf Hnl Hs.
  destruct (search_Some _ _ _ Hs) as (j & Hj & _ & Hm).
  assert (H0 : matchAt (route sfx) 0 text <> None).
  { apply (@route_match_from_start sfx text j Hcf Hnl Hj).
    cbn [Nat.add] in Hm. rewrite Hm. discriminate. }
  destruct (matchAt (route sfx) 0 text) as [[e c]|] eqn:E; [clear H0 | contradiction].
  rewrite (search_here _ _ _ E) in Hs. injection Hs as <-.
  rewrite matchAt_route in E. apply star_class_sound in E.
  destruct E as (n & Hn & _ & E). cbn [Nat.add] in E.
  destruct (run_capfree_caps _ Hcf _ _ _ _ E) as (pos' & s' & Hacc).
  unfold accept in Hacc. injection Hacc as <- <-.
  exists n, pos'. repeat split; [exact Hn | exact E].
Qed.

(** Every pattern of the route table is [(.*?)], a literal that begins with
    a slash, and a rest without groups. *)
Lemma services_shape (e : regex * Service) :
  In e services ->
  exists (L : string) (L' : bytes) (rs : list regex),
    fst e = route (str L :: rs) /\
    bytes_of L = "/"%char :: L' /\
    capfree (seq ((str L :: rs) ++ [EndText])) = true.
Proof.
  intros H. cbn [services In] in H.
  repeat (destruct H as [<-|H];
          [eexists _, _, _; split; [reflexivity|]; split; reflexivity|]).
  destruct H.
Qed.

Lemma Replace_first (old rest : bytes) :
  old <> [] ->
  Replace_with_empty (str_of (old ++ rest)) (str_of old) (Some 1) = str_of rest.
Proof.
  intros Hold. unfold Replace_with_empty.
  destruct old as [|a old]; [contradiction|].
  cbn [str_of string_of_list_ascii String.eqb].
  change (String a (string_of_list_ascii old)) with (str_of (a :: old)).
  rewrite bytes_of_str_of.
  change (String a (string_of_list_ascii (old ++ rest))) with (str_of ((a :: old) ++ rest)).
  rewrite bytes_of_str_of.
  cbn [removeOld app]. change (a :: old ++ rest) with ((a :: old) ++ rest).
  rewrite hasPrefix_app, skipn_app, skipn_all, Nat.sub_diag. cbn [app skipn option_map Nat.pred].
  now rewrite removeOld_done.
Qed.

(** What [getService] and [strings.Replace] make of a path without a
    newline: the repository is a prefix of the path, a slash follows it and
    the file is what follows the slash. *)
Lemma getService_split (visit : list (regex * Service)) (path repo : string)
    (svc : Service) :
  incl visit services ->
  forallb notNewline (bytes_of path) = true ->
  getService visit path = Some (repo, svc) ->
  exists file : bytes,
    bytes_of path = bytes_of repo ++ "/"%char :: file /\
    Replace_with_empty path (repo ++ "/")%string (Some 1) = str_of file.
Proof.
  intros Hin Hnl Hget.
  destruct (@getService_Some _ _ _ _ Hget) as (before & re & after & m & Hv & _ & Hm & Hrepo).
  assert (He : In (re, svc) services).
  { apply Hin. rewrite Hv. apply in_or_app. right. now left. }
  destruct (@services_shape _ He) as (L & L' & rs & Hre & HL & Hcf).
  cbn [fst] in Hre. subst re. unfold FindStringSubmatch in Hm.
  destruct (@route_first_group _ _ _ Hcf Hnl Hm) as (n & e & Hn & -> & Hrun).
  cbn [app] in Hrun. apply seq_lit in Hrun. destruct Hrun as (rest' & Hrest & _).
  rewrite HL in Hrest.
  assert (Hr : repo = str_of (firstn n (bytes_of path))).
  { rewrite Hrepo. unfold sub, slice. cbn [mCaps lookup Nat.eqb].
    now rewrite Nat.sub_0_r. }
  exists (L' ++ rest').
  assert (Hsplit : bytes_of path = bytes_of repo ++ "/"%char :: L' ++ rest').
  { rewrite Hr, bytes_of_str_of.
    rewrite <- (firstn_skipn n (bytes_of path)) at 1. now rewrite Hrest. }
  split; [exact Hsplit|].
  assert (Hp : path = str_of ((bytes_of repo ++ ["/"%char]) ++ L' ++ rest')).
  { apply bytes_of_inj. rewrite bytes_of_str_of, Hsplit, <- app_assoc. reflexivity. }
  assert (Ho : (repo ++ "/")%string = str_of (bytes_of repo ++ ["/"%char])).
  { apply bytes_of_inj. now rewrite bytes_of_str_of, bytes_of_app. }
  rewrite Ho. rewrite Hp at 1. apply Replace_first.
  intros Hnil. apply app_eq_nil in Hnil. destruct Hnil as [_ Hnil]. discriminate Hnil.
Qed.

(** X12.  The repository and the file of a request.  For a path without a
    newline that a pattern of the route table matches, in whatever order
    the table is visited, the repository that [getService] returns is a
    prefix of the path, and the file that [requestHandler] takes with
    [strings.Replace] is the rest of the path behind the slash that follows
    the repository: the path is the repository, a slash and the file. *)
Theorem getService_splits_path (visit : list (regex * Service)) (path repo : string)
    (svc : Service) :
  incl visit services ->
  forallb notNewline (bytes_of path) = true ->
  getService visit path = Some (repo, svc) ->
  path = (repo ++ "/" ++ Replace_with_empty path (repo ++ "/") (Some 1))%string.
Proof.
  intros Hin Hnl Hget.
  destruct (@getService_split _ _ _ _ Hin Hnl Hget) as (file & Hsplit & ->).
  apply bytes_of_inj. now rewrite !bytes_of_app, bytes_of_str_of.
Qed.

Lemma getService_splits_path_witness :
  "/user/repo.git/objects/info/packs"
  = ("/user/repo.git" ++ "/"
     ++ Replace_with_empty "/user/repo.git/objects/info/packs"
          ("/user/repo.git" ++ "/") (Some 1))%string.
Proof.
  apply (@getService_splits_path services "/user/repo.git/objects/info/packs"
           "/user/repo.git"
           {| SMethod := "GET"; Handler := getInfoPacks; Rpc := "" |}).
  - apply incl_refl.
  - reflexivity.
  - vm_compute. reflexivity.
Defined.

End RouteSplit.

(** ** Where the files of a request are *)

Section Containment.
Import GoPath.

Lemma staysBelow_no_dotdot (es : list bytes) :
  forallb (fun e => negb (isDotDot e)) es = true ->
  forall depth, staysBelow es depth = true.
Proof.
  induction es as [|e es IH]; intros H depth; [reflexivity|].
  cbn [forallb] in H. apply andb_prop in H. destruct H as [He Hes].
  cbn [staysBelow]. destruct e as [|a e]; [now apply IH|].
  destruct (isDot (a :: e)); [now apply IH|].
  apply negb_true_iff in He. rewrite He. now apply IH.
Qed.

(** The elements of a path have no slash in them. *)
Lemma elements_slashfree (p : bytes) :
  Forall (fun e => forallb notSlash e = true) (elements p).
Proof.
  induction p as [|a p IH]; [repeat constructor|].
  cbn [elements]. destruct (Ascii.eqb a "/") eqn:Ea.
  - constructor; [reflexivity | exact IH].
  - destruct (elements p) as [|e es]; [repeat constructor; cbn; unfold notSlash; now rewrite Ea|].
    inversion IH as [|? ? He Hes]; subst.
    constructor; [|exact Hes]. cbn [forallb]. unfold notSlash at 1. now rewrite Ea.
Qed.

Lemma elements_single (e : bytes) : forallb notSlash e = true -> elements e = [e].
Proof.
  induction e as [|a e IH]; [reflexivity|].
  cbn [forallb elements]. intros H. apply andb_prop in H. destruct H as [Ha He].
  unfold notSlash in Ha. apply negb_true_iff in Ha. rewrite Ha, (IH He). reflexivity.
Qed.

(** The elements of names joined with slashes are the names. *)
Lemma elements_joinElements (names : list bytes) :
  names <> [] ->
  Forall (fun e => forallb notSlash e = true) names ->
  elements (joinElements names) = names.
Proof.
  induction names as [|e es IH]; intros Hne H; [contradiction|].
  inversion H as [|? ? He Hes]; subst.
  destruct es as [|e' es].
  - now apply elements_single.
  - rewrite joinElements_cons by discriminate.
    rewrite elements_app_slash, (elements_single _ He), IH by (discriminate || assumption).
    reflexivity.
Qed.

(** [path.Clean] of a rooted path leaves names without a slash. *)
Lemma cleanElements_goodNames (es : list bytes) :
  Forall (fun e => forallb notSlash e = true) es ->
  forall out, Forall goodName out -> Forall goodName (cleanElements true es out).
Proof.
  induction es as [|e es IH]; intros Hes out Hout; [exact Hout|].
  inversion Hes as [|? ? He Hes']; subst.
  cbn [cleanElements]. destruct e as [|a e]; [now apply IH|].
  destruct (isDot (a :: e)) eqn:Hd; [now apply IH|].
  destruct (isDotDot (a :: e)) eqn:Hdd.
  - destruct out as [|top out]; [now apply IH|].
    inversion Hout as [|? ? [Htop _] Hout']; subst.
    unfold isName in Htop. destruct top as [|b top]; [discriminate Htop|].
    apply andb_prop in Htop. destruct Htop as [_ Htop].
    apply negb_true_iff in Htop. rewrite Htop. now apply IH.
  - apply IH; [exact Hes'|]. constructor; [|exact Hout].
    split; [|exact He]. unfold isName. now rewrite Hd, Hdd.
Qed.

(** [path.Join] of a clean root and a path that stays below it is a clean
    root again. *)
Lemma Join_clean (root file_path : string) :
  isCleanRoot root = true ->
  staysBelow (elements (bytes_of file_path)) 0 = true ->
  isCleanRoot (Join [root; file_path]) = true.
Proof.
  intros Hroot Hstay. unfold isCleanRoot in Hroot.
  destruct (elements (bytes_of root)) as [|[|] [|e es]] eqn:Eroot; try discriminate.
  assert (Hr : bytes_of root = "/"%char :: joinElements (e :: es)).
  { rewrite <- (joinElements_elements (bytes_of root)), Eroot. reflexivity. }
  assert (Hne : root <> "") by (intros ->; discriminate).
  assert (Hels : exists tail,
            elements (bytes_of (concatWithSlash [root; file_path]))
            = ([] :: e :: es) ++ tail /\ staysBelow tail 0 = true).
  { destruct (concatWithSlash_pair file_path Hne) as [-> | ->].
    - exists []. now rewrite app_nil_r.
    - exists (elements (bytes_of file_path)). now rewrite elements_app_slash, Eroot. }
  destruct Hels as (tail & Hels & Htail).
  assert (Hbuf : exists buf,
            bytes_of (concatWithSlash [root; file_path]) = "/"%char :: buf).
  { destruct (concatWithSlash_pair file_path Hne) as [-> | ->]; rewrite Hr;
      eexists; reflexivity. }
  destruct Hbuf as (buf & Hbuf).
  assert (Hfree : Forall (fun e => forallb notSlash e = true) (([] :: e :: es) ++ tail)).
  { rewrite <- Hels. apply elements_slashfree. }
  unfold Join.
  destruct (String.eqb_spec (concatWithSlash [root; file_path]) "") as [E|_].
  { rewrite E in Hbuf. discriminate. }
  unfold Clean. rewrite Hels, Hbuf. cbn [isRooted]. rewrite Ascii.eqb_refl.
  pose proof (@cleanElements_goodNames _ Hfree [] (Forall_nil _)) as Hgood.
  revert Hgood.
  change (([] :: e :: es) ++ tail) with ([] :: ((e :: es) ++ tail)).
  rewrite cleanElements_empty.
  rewrite (cleanElements_names true (e :: es) tail [] Hroot), app_nil_r.
  destruct (@cleanElements_staysBelow (rev (e :: es)) tail []) as (extra & Hclean);
    [reflexivity | exact Htail |].
  cbn [app] in Hclean. rewrite Hclean. intros Hgood.
  apply Forall_rev in Hgood. revert Hgood.
  rewrite rev_app_distr, rev_involutive. cbn [app]. intros Hgood.
  unfold isCleanRoot.
  cbn [bytes_of list_ascii_of_string].
  fold (bytes_of (str_of (joinElements (e :: es ++ rev extra)))).
  rewrite bytes_of_str_of.
  change (elements ("/"%char :: joinElements (e :: es ++ rev extra)))
    with ([] :: elements (joinElements (e :: es ++ rev extra))).
  rewrite elements_joinElements.
  - apply forallb_forall. intros x Hx.
    rewrite Forall_forall in Hgood. now destruct (Hgood x Hx).
  - discriminate.
  - rewrite Forall_forall in *. intros x Hx. now destruct (Hgood x Hx).
Qed.

Lemma isUnder_trans (a b c : string) :
  isUnder a b = true -> isUnder b c = true -> isUnder a c = true.
Proof.
  unfold isUnder. intros Hab Hbc.
  apply orb_true_iff in Hab. apply orb_true_iff in Hbc. apply orb_true_iff.
  destruct Hbc as [Hbc|Hbc].
  - apply String.eqb_eq in Hbc. subst c. exact Hab.
  - destruct Hab as [Hab|Hab].
    + apply String.eqb_eq in Hab. subst b. now right.
    + right. apply hasPrefix_split in Hab, Hbc.
      remember (skipn (List.length (bytes_of b ++ ["/"%char])) (bytes_of c)) as y eqn:Ey.
      remember (skipn (List.length (bytes_of a ++ ["/"%char])) (bytes_of b)) as x eqn:Ex.
      clear Ey Ex. rewrite Hbc, Hab.
      remember (bytes_of a ++ ["/"%char]) as A eqn:EA. clear EA.
      rewrite <- !app_assoc. apply hasPrefix_app.
Qed.

(** What [requestHandler] has found when it calls a handler. *)
Lemma requestHandler_Calls (g : GitHttp) (os : OS) (visit : list (regex * Service))
    (r : Request) (h : handler) (hr : HandlerReq) :
  ProjectRoot g <> "" ->
  requestHandler g os visit r = Calls h hr ->
  exists repo svc,
    getService visit (Path r) = Some (repo, svc) /\
    SMethod svc = Method r /\
    h = Handler svc /\
    Stat os (Join [ProjectRoot g; repo]) <> StatNotExist /\
    hr = {| hr_r := r; hr_Rpc := Rpc svc;
            hr_Dir := Join [ProjectRoot g; repo];
            hr_File := Replace_with_empty (Path r) (repo ++ "/")%string (Some 1) |}.
Proof.
  intros Hroot H. unfold requestHandler in H.
  destruct (getService visit (Path r)) as [[repo svc]|]; [|discriminate H].
  exists repo, svc.
  destruct (String.eqb_spec (SMethod svc) (Method r)) as [Hm|Hm]; cbn [negb] in H.
  2:{ unfold renderMethodNotAllowed in H. destruct (String.eqb _ _); discriminate H. }
  unfold getGitDir in H.
  destruct (String.eqb_spec (ProjectRoot g) "") as [E|_]; [contradiction|].
  destruct (Stat os (Join [ProjectRoot g; repo])) eqn:Es;
    try discriminate H; injection H as <- <-;
    (repeat split; [exact Hm | congruence]).
Qed.

Lemma isCleanRoot_not_empty (root : string) : isCleanRoot root = true -> root <> "".
Proof. intros H ->. discriminate H. Qed.

(** X13.  Routing and [getGitDir] together.  For a root that is a clean
    absolute path and a request path that has no newline and no [..]
    element, whatever handler [requestHandler] calls, in whatever order the
    route table is visited, it calls with a directory that is the root or
    lies below it: the cleaned join of the root and the repository part of
    the path, which exists as far as [os.Stat] tells; and the request path
    is that repository part, a slash and the file handed to the handler. *)
Theorem requestHandler_dir_under_root (g : GitHttp) (os : OS)
    (visit : list (regex * Service)) (r : Request) (h : handler) (hr : HandlerReq) :
  incl visit services ->
  forallb notNewline (bytes_of (Path r)) = true ->
  forallb (fun e => negb (isDotDot e)) (elements (bytes_of (Path r))) = true ->
  isCleanRoot (ProjectRoot g) = true ->
  requestHandler g os visit r = Calls h hr ->
  isUnder (ProjectRoot g) (hr_Dir hr) = true /\
  Stat os (hr_Dir hr) <> StatNotExist /\
  exists repo,
    Path r = (repo ++ "/" ++ hr_File hr)%string /\
    hr_Dir hr = Join [ProjectRoot g; repo].
Proof.
  intros Hin Hnl Hdd Hroot Hcall.
  destruct (@requestHandler_Calls g os visit r h hr (@isCleanRoot_not_empty _ Hroot) Hcall)
    as (repo & svc & Hget & _ & _ & Hstat & ->).
  cbn [hr_Dir hr_File].
  destruct (@getService_split _ _ _ _ Hin Hnl Hget) as (file & Hsplit & Hfile).
  rewrite Hsplit, elements_app_slash, forallb_app in Hdd.
  apply andb_prop in Hdd. destruct Hdd as [Hrepo _].
  split; [|split; [exact Hstat|]].
  - apply Join_under_root; [exact Hroot|]. now apply staysBelow_no_dotdot.
  - exists repo. split; [|reflexivity].
    rewrite Hfile. apply bytes_of_inj. now rewrite !bytes_of_app, bytes_of_str_of.
Qed.

(** X14.  The file that [sendFile] looks for and serves.  Under the same
    conditions, the path that [sendFile] makes of the directory and the
    file it is handed is that directory or lies below it, and so lies
    below the root as well. *)
Theorem sendFile_path_under_root (g : GitHttp) (os : OS)
    (visit : list (regex * Service)) (r : Request) (h : handler) (hr : HandlerReq) :
  incl visit services ->
  forallb notNewline (bytes_of (Path r)) = true ->
  forallb (fun e => negb (isDotDot e)) (elements (bytes_of (Path r))) = true ->
  isCleanRoot (ProjectRoot g) = true ->
  requestHandler g os visit r = Calls h hr ->
  isUnder (hr_Dir hr) (Join [hr_Dir hr; hr_File hr]) = true /\
  isUnder (ProjectRoot g) (Join [hr_Dir hr; hr_File hr]) = true.
Proof.
  intros Hin Hnl Hdd Hroot Hcall.
  destruct (@requestHandler_Calls g os visit r h hr (@isCleanRoot_not_empty _ Hroot) Hcall)
    as (repo & svc & Hget & _ & _ & _ & ->).
  cbn [hr_Dir hr_File].
  destruct (@getService_split _ _ _ _ Hin Hnl Hget) as (file & Hsplit & Hfile).
  rewrite Hsplit, elements_app_slash, forallb_app in Hdd.
  apply andb_prop in Hdd. destruct Hdd as [Hrepo Hf].
  assert (Hdir : isUnder (ProjectRoot g) (Join [ProjectRoot g; repo]) = true).
  { apply Join_under_root; [exact Hroot|]. now apply staysBelow_no_dotdot. }
  assert (Hbelow : isUnder (Join [ProjectRoot g; repo])
                     (Join [Join [ProjectRoot g; repo];
                            Replace_with_empty (Path r) (repo ++ "/")%string (Some 1)])
                   = true).
  { apply Join_under_root.
    - apply Join_clean; [exact Hroot|]. now apply staysBelow_no_dotdot.
    - rewrite Hfile, bytes_of_str_of. now apply staysBelow_no_dotdot. }
  split; [exact Hbelow|]. exact (@isUnder_trans _ _ _ Hdir Hbelow).
Qed.

End Containment.

Lemma requestHandler_dir_under_root_witness :
  GoPath.isUnder "/srv/git" "/srv/git/repo.git" = true.
Proof.
  apply (@requestHandler_dir_under_root (New "/srv/git") (hostOS ["/srv/git/repo.git"])
           services (getRequest "HTTP/1.1" "/repo.git/HEAD") getTextFile
           {| hr_r := getRequest "HTTP/1.1" "/repo.git/HEAD"; hr_Rpc := "";
              hr_Dir := "/srv/git/repo.git"; hr_File := "HEAD" |}).
  - apply incl_refl.
  - reflexivity.
  - reflexivity.
  - reflexivity.
  - vm_compute. reflexivity.
Defined.

Lemma sendFile_path_under_root_witness :
  GoPath.isUnder "/srv/git"
    (GoPath.Join ["/srv/git/repo.git"; "objects/info/packs"]) = true.
Proof.
  apply (@sendFile_path_under_root (New "/srv/git") (hostOS ["/srv/git/repo.git"])
           services (getRequest "HTTP/1.1" "/repo.git/objects/info/packs") getInfoPacks
           {| hr_r := getRequest "HTTP/1.1" "/repo.git/objects/info/packs"; hr_Rpc := "";
              hr_Dir := "/srv/git/repo.git"; hr_File := "objects/info/packs" |}).
  - apply incl_refl.
  - reflexivity.
  - reflexivity.
  - reflexivity.
  - vm_compute. reflexivity.
Defined.

(** ** The events of a payload, in general *)

Section PayloadEvents.

Lemma times_class_app (p : ascii -> bool) (n : nat) (w s : bytes) pos c k :
  List.length w = n -> forallb p w = true ->
  run (times n (Class p)) pos (w ++ s) c k = k (pos + n) s c.
Proof.
  intros <- Hp. rewrite run_times_class.
  rewrite length_app, firstn_app, Nat.sub_diag, firstn_O, app_nil_r, firstn_all, Hp.
  replace (List.length w <=? List.length w + List.length s) with true
    by (symmetry; apply Nat.leb_le; lia).
  cbn [andb]. now rewrite skipn_app, Nat.sub_diag, skipn_all.
Qed.

Lemma lit_app (L : string) (s : bytes) pos c k :
  run (str L) pos (bytes_of L ++ s) c k = k (pos + String.length L) s c.
Proof.
  unfold str. rewrite run_lit, hasPrefix_app, skipn_app, skipn_all, Nat.sub_diag.
  cbn [app skipn]. now rewrite length_bytes_of.
Qed.

Lemma chr_cons (a : ascii) (s : bytes) pos c k :
  run (chr a) pos (a :: s) c k = k (S pos) s c.
Proof. rewrite run_chr. cbn [hasPrefix]. now rewrite Ascii.eqb_refl. Qed.

(** The lazy star stops at the first place where what follows it matches. *)
Lemma star_lazy_first (p : ascii -> bool) k res :
  forall (w rest : bytes) (fuel : nat) pos c,
    forallb p w = true ->
    List.length w < fuel ->
    (forall j, j < List.length w -> k (pos + j) (skipn j (w ++ rest)) c = None) ->
    k (pos + List.length w) rest c = Some res ->
    star (run (Class p)) false k fuel pos (w ++ rest) c = Some res.
Proof.
  induction w as [|a w IH]; intros rest fuel pos c Hp Hf Hno Hk.
  - destruct fuel as [|fuel]; [inversion Hf|].
    cbn [star app List.length] in *. rewrite Nat.add_0_r in Hk. now rewrite Hk.
  - destruct fuel as [|fuel]; [inversion Hf|].
    cbn [forallb] in Hp. apply andb_prop in Hp. destruct Hp as [Ha Hw].
    cbn [star]. pose proof (Hno 0 ltac:(cbn; lia)) as H0.
    rewrite Nat.add_0_r in H0. cbn [skipn] in H0. rewrite H0.
    cbn [app]. rewrite run_Class_cons, Ha.
    replace (pos <? S pos) with true by (symmetry; apply Nat.ltb_lt; lia).
    apply IH.
    + exact Hw.
    + cbn [List.length] in Hf. lia.
    + intros j Hj. specialize (Hno (S j) ltac:(cbn; lia)).
      cbn [app skipn] in Hno. now rewrite <- Nat.add_succ_comm in Hno.
    + cbn [List.length] in Hk. now rewrite <- Nat.add_succ_comm in Hk.
Qed.

Lemma run_Alt (r1 r2 : regex) pos s c k :
  run (Alt r1 r2) pos s c k
  = match run r1 pos s c k with Some m => Some m | None => run r2 pos s c k end.
Proof. reflexivity. Qed.

Lemma star_lazy_at (p : ascii -> bool) k res (s : bytes) (n fuel : nat) pos c :
  forallb p (firstn n s) = true ->
  n <= List.length s ->
  n < fuel ->
  (forall j, j < n -> k (pos + j) (skipn j s) c = None) ->
  k (pos + n) (skipn n s) c = Some res ->
  star (run (Class p)) false k fuel pos s c = Some res.
Proof.
  intros Hp Hn Hf Hno Hk.
  rewrite <- (firstn_skipn n s). apply star_lazy_first.
  - exact Hp.
  - rewrite length_firstn. lia.
  - intros j Hj. rewrite length_firstn in Hj. rewrite firstn_skipn. apply Hno. lia.
  - rewrite length_firstn, Nat.min_l by exact Hn. exact Hk.
Qed.

(** What stands behind the ref name in [receivePackRegex]: a space, [00]
    or a NUL byte. *)
Lemma refEnd_run pos (s : bytes) c :
  run (Cat (Cap 5 (Alt (chr " ") (Alt (str "00") (chr "000")))) Empty) pos s c accept
  = if hasPrefix [" "%char] s then Some (S pos, (5, (pos, S pos)) :: c)
    else if hasPrefix (bytes_of "00") s then Some (pos + 2, (5, (pos, pos + 2)) :: c)
    else if hasPrefix ["000"%char] s then Some (S pos, (5, (pos, S pos)) :: c)
    else None.
Proof.
  rewrite run_Cat, run_Cap, !run_Alt, !run_chr. unfold str. rewrite run_lit.
  destruct (hasPrefix [" "%char] s); [reflexivity|].
  destruct (hasPrefix (bytes_of "00") s); [reflexivity|].
  destruct (hasPrefix ["000"%char] s); reflexivity.
Qed.

Lemma refEnd_None pos (s : bytes) c :
  startsWithEnd s = false ->
  run (Cat (Cap 5 (Alt (chr " ") (Alt (str "00") (chr "000")))) Empty) pos s c accept = None.
Proof.
  intros H. rewrite refEnd_run. unfold startsWithEnd in H.
  apply orb_false_iff in H. destruct H as [H H3].
  apply orb_false_iff in H. destruct H as [H1 H2]. now rewrite H1, H2, H3.
Qed.

Lemma refEnd_Some pos (s : bytes) c :
  startsWithEnd s = true ->
  exists e,
    run (Cat (Cap 5 (Alt (chr " ") (Alt (str "00") (chr "000")))) Empty) pos s c accept
    = Some (e, (5, (pos, e)) :: c).
Proof.
  intros H. rewrite refEnd_run. unfold startsWithEnd in H.
  destruct (hasPrefix [" "%char] s); [now eexists|].
  destruct (hasPrefix (bytes_of "00") s); [now eexists|].
  destruct (hasPrefix ["000"%char] s); [now eexists | discriminate H].
Qed.

Lemma refNameEnd_spec (s : bytes) :
  forall n,
    refNameEnd s = Some n ->
    n <= List.length s /\
    forallb notNewline (firstn n s) = true /\
    (forall j, j < n -> startsWithEnd (skipn j s) = false) /\
    startsWithEnd (skipn n s) = true.
Proof.
  induction s as [|a s IH]; intros n H; cbn [refNameEnd] in H.
  - destruct (startsWithEnd []) eqn:E; [|discriminate H].
    injection H as <-. split; [cbn; lia|]; split; [reflexivity|]; split; [intros j Hj; lia | exact E].
  - destruct (startsWithEnd (a :: s)) eqn:E.
    + injection H as <-. split; [cbn; lia|]; split; [reflexivity|]; split; [intros j Hj; lia | exact E].
    + destruct (notNewline a) eqn:Ha; [|discriminate H].
      destruct (refNameEnd s) as [n'|]; [|discriminate H].
      injection H as <-. destruct (IH n' eq_refl) as (Hn & Hp & Hno & Hend).
      split; [|split; [|split]].
      * cbn [List.length]. lia.
      * cbn [firstn forallb]. now rewrite Ha, Hp.
      * intros [|j] Hj; [exact E|]. cbn [skipn]. apply Hno. lia.
      * exact Hend.
Qed.

(** The end of the first alternative of [receivePackRegex]: the slash, the
    lazy ref name and what stands behind it. *)
Lemma refName_run pos (s : bytes) c (n : nat) :
  refNameEnd s = Some n ->
  exists e,
    run (Cat (chr "/")
           (Cat (Cap 4 (Rep false (Class notNewline)))
              (Cat (Cap 5 (Alt (chr " ") (Alt (str "00") (chr "000")))) Empty)))
      pos ("/"%char :: s) c accept
    = Some (e, (5, (S pos + n, e)) :: (4, (S pos, S pos + n)) :: c).
Proof.
  intros Hend. destruct (refNameEnd_spec _ Hend) as (Hn & Hp & Hno & Hlast).
  destruct (@refEnd_Some (S pos + n) (skipn n s) ((4, (S pos, S pos + n)) :: c) Hlast)
    as [e He].
  exists e. rewrite run_Cat, chr_cons. cbv beta. rewrite run_Cat, run_Cap, run_Rep.
  apply (@star_lazy_at notNewline _ (e, (5, (S pos + n, e)) :: (4, (S pos, S pos + n)) :: c)
           s n).
  - exact Hp.
  - exact Hn.
  - lia.
  - intros j Hj. cbv beta. apply refEnd_None. now apply Hno.
  - cbv beta. exact He.
Qed.

Lemma receivePack_line (pos : nat) (old new s : bytes) (ns : string) (n : nat) :
  List.length old = 40 -> forallb isHex old = true ->
  List.length new = 40 -> forallb isHex new = true ->
  ns = "heads" \/ ns = "tags" ->
  refNameEnd s = Some n ->
  let p3 := S (pos + 40) + 40 + 6 in
  let p4 := S (p3 + String.length ns) in
  exists e,
    matchAt receivePackRegex pos
      (old ++ " "%char :: new ++ bytes_of " refs/" ++ bytes_of ns ++ "/"%char :: s)
    = Some (e, [ (5, (p4 + n, e)); (4, (p4, p4 + n)); (3, (p3, p3 + String.length ns));
                 (2, (S (pos + 40), S (pos + 40) + 40)); (1, (pos, pos + 40)) ]).
Proof.
  intros Hlo Hho Hln Hhn Hns Hend p3 p4. subst p3 p4.
  unfold matchAt, receivePackRegex. cbn [seq].
  rewrite run_Alt, run_Cat, run_Cap, (@times_class_app _ _ _ _ _ _ _ Hlo Hho). cbv beta.
  rewrite run_Cat, chr_cons. cbv beta.
  rewrite run_Cat, run_Cap, (@times_class_app _ _ _ _ _ _ _ Hln Hhn). cbv beta.
  rewrite run_Cat, lit_app. cbv beta.
  rewrite run_Cat, run_Cap, run_Alt.
  change (String.length " refs/") with 6.
  destruct Hns as [-> | ->].
  - rewrite lit_app. cbv beta.
    destruct (@refName_run (S (pos + 40) + 40 + 6 + String.length "heads") s
                [(3, (S (pos + 40) + 40 + 6, S (pos + 40) + 40 + 6 + String.length "heads"));
                 (2, (S (pos + 40), S (pos + 40) + 40)); (1, (pos, pos + 40))] n Hend)
      as [e He].
    rewrite He. now exists e.
  - unfold str at 1. rewrite run_lit.
    change (hasPrefix (bytes_of "heads") (bytes_of "tags" ++ "/"%char :: s)) with false.
    cbv iota. rewrite lit_app. cbv beta.
    destruct (@refName_run (S (pos + 40) + 40 + 6 + String.length "tags") s
                [(3, (S (pos + 40) + 40 + 6, S (pos + 40) + 40 + 6 + String.length "tags"));
                 (2, (S (pos + 40), S (pos + 40) + 40)); (1, (pos, pos + 40))] n Hend)
      as [e He].
    rewrite He. now exists e.
Qed.

Lemma isHex_not_space (a : ascii) : isHex a = true -> Ascii.eqb " " a = false.
Proof.
  intros H. destruct (Ascii.eqb_spec " " a) as [<-|]; [discriminate H | reflexivity].
Qed.

(** [receivePackRegex] matches nowhere in a text that is forty characters
    and one, of which the last is a hexadecimal digit, and goes on. *)
Lemma receivePack_no_match (pos : nat) (w rest : bytes) (a : ascii) :
  List.length w = 40 -> isHex a = true ->
  matchAt receivePackRegex pos (w ++ a :: rest) = None.
Proof.
  intros Hw Ha. unfold matchAt, receivePackRegex. cbn [seq].
  rewrite run_Alt, run_Cat, run_Cap, run_times_class.
  assert (Hskip : skipn 40 (w ++ a :: rest) = a :: rest).
  { rewrite <- Hw. now rewrite skipn_app, skipn_all, Nat.sub_diag. }
  assert (Hfirst : match (if (40 <=? List.length (w ++ a :: rest))
                             && forallb isHex (firstn 40 (w ++ a :: rest))
                          then run (Cat (chr " ")
                                      (Cat (Cap 2 (times 40 (Class isHex)))
                                         (Cat (str " refs/")
                                            (Cat (Cap 3 (Alt (str "heads") (str "tags")))
                                               (Cat (chr "/")
                                                  (Cat (Cap 4 (Rep false (Class notNewline)))
                                                     (Cat (Cap 5 (Alt (chr " ")
                                                                   (Alt (str "00") (chr "000"))))
                                                        Empty)))))))
                                 (pos + 40) (skipn 40 (w ++ a :: rest))
                                 [(1, (pos, pos + 40))] accept
                          else None) with Some m => Some m | None => @None result end
                   = None).
  { destruct (_ && _); [|reflexivity].
    rewrite Hskip, run_Cat, run_chr. cbn [hasPrefix].
    now rewrite (isHex_not_space _ Ha). }
  cbv beta. destruct (if _ && _ then _ else _) eqn:E.
  - discriminate Hfirst.
  - rewrite run_Cat, run_BeginText. destruct (pos =? 0); [|reflexivity].
    rewrite run_Cat, run_Cap. unfold str. rewrite run_lit.
    destruct (hasPrefix _ _); [|reflexivity]. cbv beta.
    rewrite run_Cat, run_EndText.
    destruct (skipn (List.length (bytes_of "0000")) (w ++ a :: rest)) eqn:Es;
      [|reflexivity].
    apply (f_equal (@List.length ascii)) in Es.
    rewrite length_skipn, length_app, Hw in Es. cbn in Es. lia.
Qed.

Lemma search_skip (r : regex) :
  forall (n : nat) (s : bytes) pos,
    n <= List.length s ->
    (forall j, j < n -> matchAt r (pos + j) (skipn j s) = None) ->
    search r pos s = search r (pos + n) (skipn n s).
Proof.
  induction n as [|n IH]; intros s pos Hn Hno.
  - now rewrite Nat.add_0_r.
  - destruct s as [|a s]; [inversion Hn|].
    cbn [search]. pose proof (Hno 0 ltac:(lia)) as H0.
    rewrite Nat.add_0_r in H0. cbn [skipn] in H0. rewrite H0.
    rewrite <- Nat.add_succ_comm. cbn [skipn]. apply IH.
    + cbn [List.length] in Hn. lia.
    + intros j Hj. specialize (Hno (S j) ltac:(lia)).
      now rewrite <- Nat.add_succ_comm in Hno.
Qed.

(** In front of a line of receive-pack, up to forty characters change
    nothing: no match begins in them. *)
Lemma receivePack_search (pre old rest : bytes) :
  List.length pre <= 40 ->
  List.length old = 40 -> forallb isHex old = true ->
  search receivePackRegex 0 (pre ++ old ++ rest)
  = search receivePackRegex (List.length pre) (old ++ rest).
Proof.
  intros Hpre Hlo Hho.
  rewrite (@search_skip receivePackRegex (List.length pre) (pre ++ old ++ rest) 0).
  - cbn [Nat.add]. now rewrite skipn_app, skipn_all, Nat.sub_diag.
  - rewrite length_app. lia.
  - intros j Hj. cbn [Nat.add].
    rewrite skipn_app. replace (j - List.length pre) with 0 by lia. cbn [skipn].
    assert (Hd : 40 - (List.length pre - j) < List.length old) by lia.
    destruct (skipn (40 - (List.length pre - j)) old) as [|a old'] eqn:Es.
    { apply (f_equal (@List.length ascii)) in Es. rewrite length_skipn in Es.
      cbn [List.length] in Es. lia. }
    rewrite <- (firstn_skipn (40 - (List.length pre - j)) old), Es.
    rewrite <- app_assoc, app_assoc. cbn [app].
    apply receivePack_no_match.
    + rewrite length_app, length_skipn, length_firstn. lia.
    + rewrite forallb_forall in Hho. apply Hho.
      rewrite <- (firstn_skipn (40 - (List.length pre - j)) old), Es.
      apply in_or_app. right. now left.
Qed.

Lemma slice_at (T a b c : bytes) (b0 e0 : nat) :
  T = a ++ b ++ c -> b0 = List.length a -> e0 = b0 + List.length b ->
  slice T b0 e0 = b.
Proof. intros -> -> ->. apply slice_middle. Qed.

(** X15.  The first event of a push, in general.  A payload in which a ref
    line [<old> <new> refs/heads/<name>] or [... refs/tags/<name>], with
    two hashes of forty hexadecimal digits, stands behind at most forty
    other characters (the four digits of the length of a packet line, say)
    gives a Push event for [heads] and a Tag event for [tags] as the first
    event, with the two hashes as [Last] and [Commit]; the name of the
    event is the text behind [refs/heads/] or [refs/tags/] up to the first
    place where a space, [00] or a NUL byte begins, so a name with [00] in
    it is cut there. *)
Theorem receive_pack_first_event (dir : string) (pre old new s : bytes) (ns : string)
    (n : nat) :
  List.length pre <= 40 ->
  List.length old = 40 -> forallb isHex old = true ->
  List.length new = 40 -> forallb isHex new = true ->
  ns = "heads" \/ ns = "tags" ->
  refNameEnd s = Some n ->
  exists more,
    rpcEvents "receive-pack" dir
      (str_of (pre ++ old ++ " "%char :: new ++ bytes_of " refs/" ++ bytes_of ns
                 ++ "/"%char :: s))
    = (if String.eqb ns "heads"
       then pushEvent dir (str_of old) (str_of new) (str_of (firstn n s))
       else tagEvent dir (str_of old) (str_of new) (str_of (firstn n s)))
      :: more.
Proof.
  intros Hpre Hlo Hho Hln Hhn Hns Hend.
  destruct (@receivePack_line (List.length pre) old new s ns n Hlo Hho Hln Hhn Hns Hend)
    as [e He].
  cbv zeta in He.
  remember (pre ++ old ++ " "%char :: new ++ bytes_of " refs/" ++ bytes_of ns
              ++ "/"%char :: s) as T eqn:ET.
  assert (Hs : search receivePackRegex 0 T
               = Some {| mBegin := List.length pre; mEnd := e;
                         mCaps := [ (5, (S (S (List.length pre + 40) + 40 + 6
                                             + String.length ns) + n, e));
                                    (4, (S (S (List.length pre + 40) + 40 + 6
                                             + String.length ns),
                                         S (S (List.length pre + 40) + 40 + 6
                                            + String.length ns) + n));
                                    (3, (S (List.length pre + 40) + 40 + 6,
                                         S (List.length pre + 40) + 40 + 6
                                         + String.length ns));
                                    (2, (S (List.length pre + 40),
                                         S (List.length pre + 40) + 40));
                                    (1, (List.length pre, List.length pre + 40)) ] |}).
  { rewrite ET, (@receivePack_search pre old _ Hpre Hlo Hho).
    now apply search_here. }
  destruct (refNameEnd_spec _ Hend) as (Hn & _).
  assert (H1 : slice T (List.length pre) (List.length pre + 40) = old).
  { apply (@slice_at T pre old
             (" "%char :: new ++ bytes_of " refs/" ++ bytes_of ns ++ "/"%char :: s));
      [exact ET | reflexivity | lia]. }
  assert (H2 : slice T (S (List.length pre + 40)) (S (List.length pre + 40) + 40) = new).
  { apply (@slice_at T (pre ++ old ++ [" "%char]) new
             (bytes_of " refs/" ++ bytes_of ns ++ "/"%char :: s)).
    - rewrite ET, <- !app_assoc. reflexivity.
    - rewrite !length_app. cbn [List.length]. lia.
    - lia. }
  assert (H3 : slice T (S (List.length pre + 40) + 40 + 6)
                 (S (List.length pre + 40) + 40 + 6 + String.length ns) = bytes_of ns).
  { apply (@slice_at T (pre ++ old ++ " "%char :: new ++ bytes_of " refs/") (bytes_of ns)
             ("/"%char :: s)).
    - rewrite ET, <- !app_assoc. cbn [app]. now rewrite <- !app_assoc.
    - rewrite !length_app. cbn [List.length]. rewrite !length_app. cbn. lia.
    - rewrite length_bytes_of. lia. }
  assert (H4 : slice T (S (S (List.length pre + 40) + 40 + 6 + String.length ns))
                 (S (S (List.length pre + 40) + 40 + 6 + String.length ns) + n)
               = firstn n s).
  { apply (@slice_at T (pre ++ old ++ " "%char :: new ++ bytes_of " refs/" ++ bytes_of ns
                          ++ ["/"%char])
             (firstn n s) (skipn n s)).
    - rewrite ET, <- !app_assoc. cbn [app]. rewrite <- !app_assoc. cbn [app].
      now rewrite firstn_skipn.
    - rewrite !length_app. cbn [List.length]. rewrite !length_app.
      cbn [List.length]. rewrite !length_bytes_of. cbn [String.length]. lia.
    - rewrite length_firstn. lia. }
  unfold rpcEvents.
  change (String.eqb "receive-pack" "upload-pack") with false.
  change (String.eqb "receive-pack" "receive-pack") with true. cbv iota.
  unfold FindAllStringSubmatch. rewrite allMatches_S, bytes_of_str_of.
  cbn [Nat.ltb Nat.leb skipn]. rewrite Hs. cbv zeta.
  match goal with
  | |- context [map ?f] =>
      assert (Hf : f {| mBegin := List.length pre; mEnd := e;
                        mCaps := [ (5, (S (S (List.length pre + 40) + 40 + 6
                                            + String.length ns) + n, e));
                                   (4, (S (S (List.length pre + 40) + 40 + 6
                                            + String.length ns),
                                        S (S (List.length pre + 40) + 40 + 6
                                           + String.length ns) + n));
                                   (3, (S (List.length pre + 40) + 40 + 6,
                                        S (List.length pre + 40) + 40 + 6
                                        + String.length ns));
                                   (2, (S (List.length pre + 40),
                                        S (List.length pre + 40) + 40));
                                   (1, (List.length pre, List.length pre + 40)) ] |}
                   = if String.eqb ns "heads"
                     then pushEvent dir (str_of old) (str_of new) (str_of (firstn n s))
                     else tagEvent dir (str_of old) (str_of new) (str_of (firstn n s)))
  end.
  { unfold sub. cbn [mCaps lookup Nat.eqb]. rewrite H1, H2, H3, H4, str_of_bytes_of.
    destruct (String.eqb ns "heads"); reflexivity. }
  destruct (mEnd _ =? 0); cbn [map]; rewrite Hf; eexists; reflexivity.
Qed.

Lemma receive_pack_first_event_witness :
  exists more,
    rpcEvents "receive-pack" "/srv/git/repo.git"
      ("0094" ++ zeros40 ++ " " ++ sha_a ++ " refs/heads/v1.00" ++ nul)
    = pushEvent "/srv/git/repo.git" zeros40 sha_a "v1." :: more.
Proof.
  exact (@receive_pack_first_event "/srv/git/repo.git" (bytes_of "0094")
           (bytes_of zeros40) (bytes_of sha_a) (bytes_of ("v1.00" ++ nul)) "heads" 3
           ltac:(cbn; lia) eq_refl eq_refl eq_refl eq_refl (or_introl eq_refl) eq_refl).
Defined.

(** What a match of [uploadPackRegex] at the start of a text tells of the
    text. *)
Lemma uploadPackRegex_match (text : bytes) (e : nat) (c : caps) :
  matchAt uploadPackRegex 0 text = Some (e, c) ->
  exists tok h rest,
    text = tok ++ " "%char :: h ++ rest /\
    tok <> [] /\ forallb notSpace tok = true /\
    List.length h = 40 /\ forallb isHex h = true /\
    e = List.length tok + 41 /\
    c = [(1, (List.length tok + 1, List.length tok + 41))].
Proof.
  unfold matchAt, uploadPackRegex, plus. cbn [seq].
  rewrite run_Cat, run_BeginText. cbn [Nat.eqb]. rewrite !run_Cat.
  destruct text as [|a s]; [discriminate|].
  rewrite run_Class_cons. destruct (notSpace a) eqn:Ha; [|discriminate].
  rewrite run_Rep. intros H. apply star_class_sound in H.
  destruct H as (n & Hn & Hp & H).
  rewrite run_Cat, run_chr in H.
  destruct (hasPrefix [" "%char] (skipn n s)) eqn:Hsp; [|discriminate H].
  apply hasPrefix_split in Hsp. cbn [List.length app] in Hsp.
  rewrite run_Cat, run_Cap, run_times_class in H.
  destruct (40 <=? List.length (skipn 1 (skipn n s))) eqn:Hl; [|discriminate H].
  destruct (forallb isHex (firstn 40 (skipn 1 (skipn n s)))) eqn:Hh; [|discriminate H].
  cbn [andb run] in H. unfold accept in H. injection H as <- <-.
  apply Nat.leb_le in Hl.
  exists (a :: firstn n s), (firstn 40 (skipn 1 (skipn n s))),
         (skipn 40 (skipn 1 (skipn n s))).
  split; [|split; [|split; [|split; [|split; [|split]]]]].
  - rewrite firstn_skipn. cbn [app]. f_equal.
    rewrite <- (firstn_skipn n s) at 1. f_equal. exact Hsp.
  - discriminate.
  - cbn [forallb]. now rewrite Ha, Hp.
  - rewrite length_firstn. lia.
  - exact Hh.
  - cbn [List.length]. rewrite length_firstn. lia.
  - cbn [List.length]. rewrite length_firstn.
    replace (Nat.min n (List.length s)) with n by lia.
    repeat f_equal; lia.
Qed.

(** X16.  Every Fetch event has a line behind it: when [rpcEvents] gives
    an event for upload-pack, the payload begins with one or more
    characters that are no white space, a space and forty hexadecimal
    digits; the event is the Fetch event of these digits, and it is the
    only one, whatever follows in the payload. *)
Theorem upload_pack_event_form (dir input : string) (ev : Event) :
  In ev (rpcEvents "upload-pack" dir input) ->
  exists tok h rest,
    bytes_of input = tok ++ " "%char :: h ++ rest /\
    tok <> [] /\ forallb notSpace tok = true /\
    List.length h = 40 /\ forallb isHex h = true /\
    ev = fetchEvent dir (str_of h) /\
    rpcEvents "upload-pack" dir input = [ev].
Proof.
  unfold rpcEvents. change (String.eqb "upload-pack" "upload-pack") with true. cbv iota.
  unfold FindAllStringSubmatch. rewrite allMatches_S. cbn [Nat.ltb Nat.leb skipn].
  destruct (search uploadPackRegex 0 (bytes_of input)) as [m|] eqn:Hs; [|intros []].
  destruct (search_Some _ _ _ Hs) as (j & Hj & Hb & Hm). cbn [Nat.add] in Hb, Hm.
  destruct j as [|j]; [|now rewrite uploadPackRegex_anchored in Hm].
  cbn [skipn] in Hm.
  destruct (uploadPackRegex_match _ Hm) as (tok & h & rest & Ht & Htok & Hns & Hl & Hh & He & Hc).
  rewrite He. replace (List.length tok + 41 =? 0) with false
    by (symmetry; apply Nat.eqb_neq; lia).
  rewrite allMatches_S.
  rewrite (@uploadPackRegex_search_later (List.length tok + 41)) by lia.
  assert (Hsub : sub (bytes_of input) m 1 = str_of h).
  { unfold sub. rewrite Hc. cbn [lookup Nat.eqb]. f_equal.
    apply (@slice_at (bytes_of input) (tok ++ [" "%char]) h rest).
    - rewrite Ht, <- app_assoc. reflexivity.
    - rewrite length_app. cbn [List.length]. lia.
    - lia. }
  destruct (List.length (bytes_of input) <? List.length tok + 41);
    cbn [map In]; rewrite Hsub; intros [<-|[]];
    exists tok, h, rest; repeat (split; [assumption|]); split; reflexivity.
Qed.

Lemma upload_pack_event_form_witness :
  exists tok h rest,
    bytes_of ("0032want " ++ sha_a ++ nl) = tok ++ " "%char :: h ++ rest /\
    List.length h = 40.
Proof.
  destruct (@upload_pack_event_form "/srv/git/repo.git" ("0032want " ++ sha_a ++ nl)
              (fetchEvent "/srv/git/repo.git" sha_a))
    as (tok & h & rest & Ht & _ & _ & Hl & _).
  - vm_compute. left. reflexivity.
  - exists tok, h, rest. split; [exact Ht | exact Hl].
Defined.

End PayloadEvents.

(** ** The authenticator and the router *)

Section Auth.

Lemma substring_all (x : string) : substring 0 (String.length x) x = x.
Proof. induction x as [|b x IH]; [reflexivity|]. cbn. f_equal. exact IH. Qed.

Lemma substring_append (p x : string) :
  substring (String.length p) (String.length x) (p ++ x) = x.
Proof. induction p as [|a p IH]; [apply substring_all | exact IH]. Qed.

Lemma HasSuffix_app (p x : string) : HasSuffix (p ++ x) x = true.
Proof.
  unfold HasSuffix. rewrite length_append.
  replace (String.length p + String.length x - String.length x)
    with (String.length p) by lia.
  replace (String.length x <=? String.length p + String.length x) with true
    by (symmetry; apply Nat.leb_le; lia).
  cbn [andb]. apply String.eqb_eq. apply substring_append.
Qed.

Lemma endsWith_HasSuffix (s sfx : string) :
  endsWith (bytes_of sfx) (bytes_of s) -> HasSuffix s sfx = true.
Proof.
  intros [pre H].
  assert (Hs : s = (str_of pre ++ sfx)%string).
  { apply bytes_of_inj. now rewrite bytes_of_app, bytes_of_str_of. }
  rewrite Hs. apply HasSuffix_app.
Qed.

(** The entries of the route table that name an RPC. *)
Lemma services_rpc (e : regex * Service) :
  In e services ->
  (Rpc (snd e) = "receive-pack" -> fst e = _serviceRpcReceive) /\
  (Rpc (snd e) = "upload-pack" -> fst e = _serviceRpcUpload).
Proof.
  intros H. cbn [services In] in H.
  repeat (destruct H as [<-|H]; [split; intros Hr; (reflexivity || discriminate Hr)|]).
  destruct H.
Qed.

Lemma routed_rpc_suffix (visit : list (regex * Service)) (path repo : string)
    (svc : Service) :
  incl visit services ->
  getService visit path = Some (repo, svc) ->
  (Rpc svc = "receive-pack" -> endsWith (bytes_of "/git-receive-pack") (bytes_of path)) /\
  (Rpc svc = "upload-pack" -> endsWith (bytes_of "/git-upload-pack") (bytes_of path)).
Proof.
  intros Hin Hget.
  destruct (@getService_Some _ _ _ _ Hget) as (before & re & after & m & Hv & _ & Hm & _).
  assert (He : In (re, svc) services).
  { apply Hin. rewrite Hv. apply in_or_app. right. now left. }
  destruct (@services_rpc _ He) as [Hr Hu]. cbn [fst snd] in Hr, Hu.
  split; intros Hrpc.
  - apply route_lit_ends. unfold matchesPath. fold _serviceRpcReceive.
    rewrite <- (Hr Hrpc), Hm. discriminate.
  - apply route_lit_ends. unfold matchesPath. fold _serviceRpcUpload.
    rewrite <- (Hu Hrpc), Hm. discriminate.
Qed.

(** X17.  The authenticator sees a push as a push.  Whatever entry of the
    route table the router takes for a path, in whatever order: when it is
    the entry of the RPC receive-pack, [isPush] holds of the request, and
    when it is the entry of upload-pack, [isFetch] holds; and [isPush]
    holds as well of the request for [info/refs] that [getInfoRefs] answers
    with the advertisement of receive-pack, [isFetch] of the one it answers
    with that of upload-pack. *)
Theorem routed_rpc_is_push_or_fetch (visit : list (regex * Service)) (r : Request)
    (repo : string) (svc : Service) :
  incl visit services ->
  getService visit (Path r) = Some (repo, svc) ->
  (Rpc svc = "receive-pack" -> isPush r = true) /\
  (Rpc svc = "upload-pack" -> isFetch r = true) /\
  (FormService r = "git-receive-pack" -> isPush r = true) /\
  (FormService r = "git-upload-pack" -> isFetch r = true).
Proof.
  intros Hin Hget.
  destruct (@routed_rpc_suffix _ _ _ _ Hin Hget) as [Hr Hu].
  assert (Hcut : forall p, endsWith (bytes_of ("/git-" ++ p)) (bytes_of (Path r)) ->
                           HasSuffix (Path r) p = true).
  { intros p [pre H]. apply endsWith_HasSuffix.
    exists (pre ++ bytes_of "/git-"). now rewrite H, bytes_of_app, app_assoc. }
  unfold isPush, isFetch, isService.
  split; [|split; [|split]]; intros H.
  - apply orb_true_iff. right. apply (Hcut "receive-pack"), Hr, H.
  - apply orb_true_iff. right. apply (Hcut "upload-pack"), Hu, H.
  - apply orb_true_iff. left.
    now rewrite (@getServiceType_git r "receive-pack" H).
  - apply orb_true_iff. left.
    now rewrite (@getServiceType_git r "upload-pack" H).
Qed.

Lemma routed_rpc_is_push_or_fetch_witness :
  isPush (rpcRequest "receive-pack" pushPayload) = true.
Proof.
  apply (proj1 (@routed_rpc_is_push_or_fetch services
                  (rpcRequest "receive-pack" pushPayload) "/repo.git"
                  {| SMethod := "POST"; Handler := serviceRpc_; Rpc := "receive-pack" |}
                  (@incl_refl _ services) ltac:(vm_compute; reflexivity))).
  reflexivity.
Defined.

(** X18.  [Authenticator] lets a request through to the handler it wraps
    only when the header could be parsed and the function [authf] answered
    true with no error for the name and the password of the header, the
    repository name of the path and the two flags; an error of [authf] is
    a status 500 even when the verdict is true, a parse error a status 401
    with the header [WWW-Authenticate], and a plain refusal a status 403.
    With the router behind it, a request that reaches the RPC
    receive-pack was approved as a push. *)
Theorem Authenticator_pass (authf : AuthInfo -> bool * option string)
    (parsed : (string * string) + string) (req : Request) :
  (Authenticator authf parsed req = AuthPass <->
   exists name pass,
     parsed = inl (name, pass) /\
     authf {| Username := name; Password := pass; Repo := repoName (Path req);
              Push := isPush req; Fetch := isFetch req |} = (true, None)) /\
  (forall visit repo svc,
      incl visit services ->
      getService visit (Path req) = Some (repo, svc) ->
      Rpc svc = "receive-pack" ->
      Authenticator authf parsed req = AuthPass ->
      exists name pass,
        authf {| Username := name; Password := pass; Repo := repoName (Path req);
                 Push := true; Fetch := isFetch req |} = (true, None)).
Proof.
  assert (Hpass : Authenticator authf parsed req = AuthPass <->
                  exists name pass,
                    parsed = inl (name, pass) /\
                    authf {| Username := name; Password := pass;
                             Repo := repoName (Path req);
                             Push := isPush req; Fetch := isFetch req |} = (true, None)).
  { unfold Authenticator. split.
    - destruct parsed as [[name pass]|err]; [|discriminate].
      destruct (authf _) as [[|] [err|]] eqn:E; try discriminate.
      intros _. now exists name, pass.
    - intros (name & pass & -> & ->). reflexivity. }
  split; [exact Hpass|].
  intros visit repo svc Hin Hget Hrpc Hok.
  apply Hpass in Hok. destruct Hok as (name & pass & _ & Hauth).
  destruct (@routed_rpc_suffix _ _ _ _ Hin Hget) as [Hr _].
  assert (Hpush : isPush req = true).
  { unfold isPush, isService. apply orb_true_iff. right.
    apply endsWith_HasSuffix. destruct (Hr Hrpc) as [pre H].
    exists (pre ++ bytes_of "/git-"). now rewrite H, <- app_assoc. }
  rewrite Hpush in Hauth. now exists name, pass.
Qed.

End Auth.

Lemma Authenticator_pass_witness :
  exists name pass,
    (fun _ : AuthInfo => (true, @None string))
      {| Username := name; Password := pass;
         Repo := repoName (Path (rpcRequest "receive-pack" pushPayload));
         Push := true; Fetch := isFetch (rpcRequest "receive-pack" pushPayload) |}
    = (true, None).
Proof.
  apply (proj2 (@Authenticator_pass (fun _ => (true, None)) (inl ("alice", "secret"))
                  (rpcRequest "receive-pack" pushPayload))
           services "/repo.git"
           {| SMethod := "POST"; Handler := serviceRpc_; Rpc := "receive-pack" |}).
  - apply incl_refl.
  - vm_compute. reflexivity.
  - reflexivity.
  - reflexivity.
Defined.

(** ** Which paths the order of the route table matters for *)

Section RouteOverlap.

Ltac clash H1 H2 :=
  let Hc := fresh "Hc" in
  pose proof (endsWith_conflict H1 H2) as Hc; vm_compute in Hc; discriminate Hc.

Ltac ending H a Ha :=
  first
    [ apply route_lit_ends in H
    | apply route_pack_ends in H
    | apply route_idx_ends in H
    | apply route_loose_ends in H; destruct H as (a & Ha & H) ].

Ltac hexclash a Ha H1 H2 :=
  let Hc := fresh "Hc" in
  match type of H2 with
  | endsWith ?P _ =>
      assert (Hc : exists b, a = b /\ isLowerHex b = false)
        by (eexists; split;
            [eapply last_char_conflict; [|exact H1|exact H2]; vm_compute; reflexivity
            |vm_compute; reflexivity]);
      destruct Hc as (? & -> & Hc); rewrite Hc in Ha; discriminate Ha
  end.

(** Two entries of the route table match the same path only when one of
    them is the entry of [/objects/info/[^/]*]. *)
Lemma services_overlap (e1 e2 : regex * Service) (path : string) :
  In e1 services -> In e2 services ->
  matchesPath (fst e1) path -> matchesPath (fst e2) path ->
  e1 = e2 \/ e1 = infoFileEntry \/ e2 = infoFileEntry.
Proof.
  intros H1 H2 Hm1 Hm2. cbn [In services] in H1, H2.
  repeat (destruct H1 as [<- | H1]); try contradiction;
    repeat (destruct H2 as [<- | H2]); try contradiction;
    cbn [fst] in Hm1, Hm2;
    try (left; reflexivity);
    try (right; left; reflexivity);
    try (right; right; reflexivity);
    exfalso;
    let a1 := fresh "a" in let Ha1 := fresh "Ha" in
    let a2 := fresh "b" in let Ha2 := fresh "Hb" in
    ending Hm1 a1 Ha1; ending Hm2 a2 Ha2;
    first [ clash Hm1 Hm2 | hexclash a1 Ha1 Hm1 Hm2 | hexclash a2 Ha2 Hm2 Hm1 ].
Qed.

(** X19.  The order of the route table matters for no other paths than
    those the pattern [/objects/info/[^/]*] matches: for every other path,
    [getService] gives in every order of the table the repository and the
    service it gives in the order the table is written in, or none in
    every order. *)
Theorem routing_order_matters_only_under_objects_info
    (visit : list (regex * Service)) (path : string) :
  visitOrder visit ->
  ~ matchesPath _getInfoFile path ->
  getService visit path = getService services path.
Proof.
  intros Hperm Hinfo. unfold visitOrder in Hperm.
  assert (Hnot : forall e, matchesPath (fst e) path -> e <> infoFileEntry).
  { intros e Hm ->. now apply Hinfo. }
  destruct (getService visit path) as [[repo svc]|] eqn:E.
  - destruct (@getService_Some _ _ _ _ E) as (before & re & after & m & Hv & _ & Hm & Hrepo).
    assert (He : In (re, svc) services).
    { apply Permutation_in with (l := visit); [now symmetry|]. rewrite Hv. apply in_elt. }
    assert (Hmatch : matchesPath (fst (re, svc)) path).
    { unfold matchesPath. cbn [fst]. rewrite Hm. discriminate. }
    destruct (@getService_finds services path _ He Hmatch)
      as (repo' & svc' & before' & re' & after' & Hget & Hv' & _ & Hm').
    assert (He' : In (re', svc') services) by (rewrite Hv'; apply in_elt).
    destruct (@services_overlap (re, svc) (re', svc') path He He' Hmatch Hm')
      as [Heq | [Heq | Heq]].
    + injection Heq as <- <-. rewrite Hget.
      destruct (@getService_Some _ _ _ _ Hget) as (b2 & re2 & a2 & m2 & Hv2 & Hb2 & Hm2 & Hrepo2).
      (* the entry found in the order of the table is this one *)
      assert (Hre2 : In (re2, svc) services) by (rewrite Hv2; apply in_elt).
      assert (Hmatch2 : matchesPath (fst (re2, svc)) path).
      { unfold matchesPath. cbn [fst]. rewrite Hm2. discriminate. }
      destruct (@services_overlap (re, svc) (re2, svc) path He Hre2 Hmatch Hmatch2)
        as [H | [H | H]].
      * injection H as <-. rewrite Hm in Hm2. injection Hm2 as <-.
        now rewrite Hrepo, Hrepo2.
      * now apply Hnot in H.
      * now apply Hnot in H.
    + now apply Hnot in Heq.
    + now apply Hnot in Heq.
  - symmetry. apply getService_None. intros e He.
    rewrite getService_None in E. apply E.
    apply Permutation_in with (l := services); assumption.
Qed.

Lemma routing_order_matters_only_under_objects_info_witness :
  getService (rev services) "/repo.git/git-upload-pack"
  = getService services "/repo.git/git-upload-pack".
Proof.
  apply routing_order_matters_only_under_objects_info.
  - apply Permutation_rev.
  - intros H. apply H. vm_compute. reflexivity.
Defined.

Lemma isLowerHex_notSlash (a : ascii) : isLowerHex a = true -> notSlash a = true.
Proof.
  intros H. unfold notSlash. destruct (Ascii.eqb_spec a "/") as [->|]; [discriminate H|].
  reflexivity.
Qed.

Lemma forallb_hex_notSlash (w : bytes) :
  forallb isLowerHex w = true -> forallb notSlash w = true.
Proof.
  induction w as [|a w IH]; [reflexivity|]. cbn [forallb]. intros H.
  apply andb_prop in H. destruct H as [Ha Hw].
  now rewrite (@isLowerHex_notSlash _ Ha), IH.
Qed.

(** The last slash of a text and what follows it. *)
Lemma last_segment_unique (l1 l2 w1 w2 : bytes) :
  forallb notSlash w1 = true -> forallb notSlash w2 = true ->
  l1 ++ "/"%char :: w1 = l2 ++ "/"%char :: w2 -> l1 = l2 /\ w1 = w2.
Proof.
  intros H1 H2. revert l2. induction l1 as [|a l1 IH]; intros [|b l2] H; cbn [app] in H.
  - injection H as <-. now split.
  - injection H as <- H. rewrite H, forallb_app in H1. cbn in H1.
    rewrite andb_false_r in H1. discriminate H1.
  - injection H as -> H. rewrite <- H, forallb_app in H2. cbn in H2.
    rewrite andb_false_r in H2. discriminate H2.
  - injection H as <- H. destruct (IH _ H) as [<- <-]. now split.
Qed.

Lemma route_infofile_shape (path : string) :
  matchesPath _getInfoFile path ->
  exists pre w,
    bytes_of path = (pre ++ bytes_of "/objects/info") ++ "/"%char :: w /\
    forallb notSlash w = true.
Proof.
  intros H. apply route_tail in H. destruct H as (pre & rest & pos & c & res & Hp & H).
  cbn [app] in H.
  apply seq_lit in H. destruct H as (r1 & -> & H).
  apply seq_star in H. destruct H as (w & r2 & -> & Hw & H).
  apply seq_end in H. subst r2.
  exists pre, w. split; [|exact Hw].
  rewrite Hp, app_nil_r, <- app_assoc. reflexivity.
Qed.

Lemma route_objects_shape (path : string) :
  matchesPath _getLooseObject path \/ matchesPath _getPackFile path
  \/ matchesPath _getIdxFile path ->
  exists pre dir w,
    bytes_of path = (pre ++ dir) ++ "/"%char :: w /\
    forallb notSlash w = true /\
    (dir = bytes_of "/objects/pack" \/ exists a, isLowerHex a = true /\ dir = [a]).
Proof.
  intros [H | [H | H]]; apply route_tail in H;
    destruct H as (pre & rest & pos & c & res & Hp & H); cbn [app] in H.
  - apply seq_lit in H. destruct H as (r1 & -> & H).
    apply seq_times in H. destruct H as (h2 & r2 & -> & Hl2 & Hh2 & H).
    apply seq_chr in H. destruct H as (r3 & -> & H).
    apply seq_times in H. destruct H as (h38 & r4 & -> & Hl38 & Hh38 & H).
    apply seq_end in H. subst r4.
    destruct h2 as [|x [|a [|y h2]]]; try discriminate Hl2.
    cbn [forallb] in Hh2. apply andb_prop in Hh2. destruct Hh2 as [_ Ha].
    rewrite andb_true_r in Ha.
    exists (pre ++ bytes_of "/objects/" ++ [x]), [a], h38.
    split; [|split].
    + rewrite Hp, app_nil_r, <- !app_assoc. reflexivity.
    + now apply forallb_hex_notSlash.
    + right. now exists a.
  - apply seq_lit in H. destruct H as (r1 & -> & H).
    apply seq_times in H. destruct H as (h & r2 & -> & Hl & Hh & H).
    apply seq_lit in H. destruct H as (r3 & -> & H).
    apply seq_end in H. subst r3.
    exists pre, (bytes_of "/objects/pack"), (bytes_of "pack-" ++ h ++ bytes_of ".pack").
    split; [|split].
    + rewrite Hp, app_nil_r, <- !app_assoc. reflexivity.
    + rewrite !forallb_app, (@forallb_hex_notSlash _ Hh). reflexivity.
    + now left.
  - apply seq_lit in H. destruct H as (r1 & -> & H).
    apply seq_times in H. destruct H as (h & r2 & -> & Hl & Hh & H).
    apply seq_lit in H. destruct H as (r3 & -> & H).
    apply seq_end in H. subst r3.
    exists pre, (bytes_of "/objects/pack"), (bytes_of "pack-" ++ h ++ bytes_of ".idx").
    split; [|split].
    + rewrite Hp, app_nil_r, <- !app_assoc. reflexivity.
    + rewrite !forallb_app, (@forallb_hex_notSlash _ Hh). reflexivity.
    + now left.
Qed.

(** The paths of objects, packs and pack indexes are none of
    [/objects/info/[^/]*]. *)
Lemma objects_not_infofile (path : string) :
  matchesPath _getLooseObject path \/ matchesPath _getPackFile path
  \/ matchesPath _getIdxFile path ->
  ~ matchesPath _getInfoFile path.
Proof.
  intros Hobj Hinfo.
  destruct (@route_objects_shape _ Hobj) as (pre & dir & w & Hp & Hw & Hdir).
  destruct (@route_infofile_shape _ Hinfo) as (pre' & w' & Hp' & Hw').
  rewrite Hp in Hp'. destruct (@last_segment_unique _ _ _ _ Hw Hw' Hp') as [Hl _].
  assert (H1 : endsWith dir (pre ++ dir)) by apply endsWith_app_r.
  assert (H2 : endsWith (bytes_of "/objects/info") (pre ++ dir)).
  { rewrite Hl. apply endsWith_app_r. }
  destruct Hdir as [-> | (a & Ha & ->)].
  - clash H1 H2.
  - hexclash a Ha H1 H2.
Qed.

(** X20.  Objects are routed the same way in every order of the table: a
    path that the pattern of loose objects, of packs or of pack indexes
    matches gets the handler of that pattern, with the method GET, however
    the table is visited. *)
Theorem objects_routing_fixed (visit : list (regex * Service)) (path : string) :
  visitOrder visit ->
  (matchesPath _getLooseObject path ->
   exists repo svc, getService visit path = Some (repo, svc) /\
                    Handler svc = getLooseObject /\ SMethod svc = "GET") /\
  (matchesPath _getPackFile path ->
   exists repo svc, getService visit path = Some (repo, svc) /\
                    Handler svc = getPackFile /\ SMethod svc = "GET") /\
  (matchesPath _getIdxFile path ->
   exists repo svc, getService visit path = Some (repo, svc) /\
                    Handler svc = getIdxFile /\ SMethod svc = "GET").
Proof.
  intros Hperm.
  assert (Hfix : forall e, In e services -> matchesPath (fst e) path ->
                           e <> infoFileEntry ->
                           ~ matchesPath _getInfoFile path ->
                           exists repo, getService visit path = Some (repo, snd e)).
  { intros e He Hm Hne Hinfo.
    assert (Hev : In e visit) by (apply Permutation_in with (l := services); assumption).
    destruct (@getService_finds visit path e Hev Hm)
      as (repo & svc & before & re & after & Hget & Hv & _ & Hm').
    exists repo. rewrite Hget. do 2 f_equal.
    assert (He' : In (re, svc) services).
    { apply Permutation_in with (l := visit); [now symmetry|]. rewrite Hv. apply in_elt. }
    destruct (@services_overlap e (re, svc) path He He' Hm Hm') as [Heq | [H | H]].
    - now rewrite Heq.
    - contradiction.
    - exfalso. apply Hinfo. apply (f_equal fst) in H. cbn [fst infoFileEntry] in H.
      now rewrite <- H. }
  split; [|split]; intros Hm.
  - destruct (Hfix (_getLooseObject,
                    {| SMethod := "GET"; Handler := getLooseObject; Rpc := "" |}))
      as [repo Hget]; [cbn; tauto | exact Hm | intros H; discriminate (f_equal (fun e => Handler (snd e)) H) | apply objects_not_infofile; tauto |].
    eexists _, _. split; [exact Hget|]. split; reflexivity.
  - destruct (Hfix (_getPackFile,
                    {| SMethod := "GET"; Handler := getPackFile; Rpc := "" |}))
      as [repo Hget]; [cbn; tauto | exact Hm | intros H; discriminate (f_equal (fun e => Handler (snd e)) H) | apply objects_not_infofile; tauto |].
    eexists _, _. split; [exact Hget|]. split; reflexivity.
  - destruct (Hfix (_getIdxFile,
                    {| SMethod := "GET"; Handler := getIdxFile; Rpc := "" |}))
      as [repo Hget]; [cbn; tauto | exact Hm | intros H; discriminate (f_equal (fun e => Handler (snd e)) H) | apply objects_not_infofile; tauto |].
    eexists _, _. split; [exact Hget|]. split; reflexivity.
Qed.

Lemma objects_routing_fixed_witness :
  exists repo svc,
    getService (rev services)
      "/repo.git/objects/pack/pack-92eef6dcb9cc198bc3ac6010c108fa482773f116.pack"
    = Some (repo, svc) /\
    Handler svc = getPackFile /\ SMethod svc = "GET".
Proof.
  apply (proj1 (proj2 (@objects_routing_fixed (rev services)
           "/repo.git/objects/pack/pack-92eef6dcb9cc198bc3ac6010c108fa482773f116.pack"
           (Permutation_rev services)))).
  vm_compute. discriminate.
Defined.

End RouteOverlap.

(** ** From the router to the handlers *)

Section Dispatch.

(** What [requestHandler] has checked when it calls a handler. *)
Lemma requestHandler_service (g : GitHttp) (os : OS) (visit : list (regex * Service))
    (r : Request) (h : handler) (hr : HandlerReq) :
  requestHandler g os visit r = Calls h hr ->
  exists repo svc,
    getService visit (Path r) = Some (repo, svc) /\
    SMethod svc = Method r /\
    h = Handler svc /\
    getGitDir g os repo = (hr_Dir hr, None) /\
    hr_r hr = r /\ hr_Rpc hr = Rpc svc /\
    hr_File hr = Replace_with_empty (Path r) (repo ++ "/")%string (Some 1).
Proof.
  intros H. unfold requestHandler in H.
  destruct (getService visit (Path r)) as [[repo svc]|]; [|discriminate H].
  exists repo, svc.
  destruct (String.eqb_spec (SMethod svc) (Method r)) as [Hm|Hm]; cbn [negb] in H.
  2:{ unfold renderMethodNotAllowed in H. destruct (String.eqb _ _); discriminate H. }
  destruct (getGitDir g os repo) as [dir [err|]]; [discriminate H|].
  injection H as <- <-. repeat split. exact Hm.
Qed.

(** The methods and the RPC names of the route table. *)
Lemma services_methods (e : regex * Service) :
  In e services ->
  (Handler (snd e) = serviceRpc_ /\ SMethod (snd e) = "POST" /\
   (Rpc (snd e) = "upload-pack" \/ Rpc (snd e) = "receive-pack")) \/
  (Handler (snd e) <> serviceRpc_ /\ SMethod (snd e) = "GET" /\ Rpc (snd e) = "").
Proof.
  intros H. cbn [services In] in H.
  repeat (destruct H as [<-|H];
          [cbn [snd Handler SMethod Rpc];
           first [ left; repeat split; (now left) || (now right)
                 | right; repeat split; discriminate ]|]).
  destruct H.
Qed.

(** X21.  A handler is called only for its method and with its RPC name,
    in whatever order the route table is visited: [serviceRpc] only for a
    POST request and with the RPC upload-pack or receive-pack, and every
    other handler only for a GET request and with an empty RPC name. *)
Theorem handlers_get_their_method (g : GitHttp) (os : OS)
    (visit : list (regex * Service)) (r : Request) (h : handler) (hr : HandlerReq) :
  incl visit services ->
  requestHandler g os visit r = Calls h hr ->
  hr_r hr = r /\
  ((h = serviceRpc_ /\ Method r = "POST" /\
    (hr_Rpc hr = "upload-pack" \/ hr_Rpc hr = "receive-pack")) \/
   (h <> serviceRpc_ /\ Method r = "GET" /\ hr_Rpc hr = "")).
Proof.
  intros Hin Hcall.
  destruct (requestHandler_service _ _ _ _ Hcall)
    as (repo & svc & Hget & Hm & -> & _ & Hr & Hrpc & _).
  split; [exact Hr|].
  destruct (@getService_Some _ _ _ _ Hget) as (before & re & after & m & Hv & _).
  assert (He : In (re, svc) services).
  { apply Hin. rewrite Hv. apply in_elt. }
  rewrite Hrpc, <- Hm.
  exact (@services_methods (re, svc) He).
Qed.

Lemma handlers_get_their_method_witness :
  Method (rpcRequest "receive-pack" pushPayload) = "POST".
Proof.
  destruct (@handlers_get_their_method (New "/srv/git") (hostOS ["/srv/git/repo.git"])
              services (rpcRequest "receive-pack" pushPayload) serviceRpc_
              (rpcHandlerReq "receive-pack" pushPayload)
              (@incl_refl _ services) ltac:(vm_compute; reflexivity))
    as [_ [(_ & H & _) | (H & _)]].
  - exact H.
  - contradiction H. reflexivity.
Defined.

(** X22.  From the request to the events.  When the router, in whatever
    order it visits the route table, hands a request to [serviceRpc], the
    request has the content type of the RPC, both services are on, the
    body is not compressed and an event handler is set, then the events the
    handler gets are those of the body of the request, each with the
    directory that [getGitDir] made of the repository part of the path;
    and this with any subprocess behind it. *)
Theorem routed_rpc_events (g : GitHttp) (os : OS) (visit : list (regex * Service))
    (r : Request) (hr : HandlerReq) :
  incl visit services ->
  requestHandler g os visit r = Calls serviceRpc_ hr ->
  ContentType r = ("application/x-git-" ++ hr_Rpc hr ++ "-request")%string ->
  UploadPack g = true -> ReceivePack g = true ->
  EventHandler g = true ->
  ContentEncoding r <> "gzip" -> ContentEncoding r <> "deflate" ->
  handled (trace (serviceRpc g os hr)) = rpcEvents (hr_Rpc hr) (hr_Dir hr) (Body r) /\
  forall e, In e (handled (trace (serviceRpc g os hr))) -> Dir e = hr_Dir hr.
Proof.
  intros Hin Hcall Hct Hup Hrp Hev Hgz Hdf.
  destruct (requestHandler_service _ _ _ _ Hcall)
    as (repo & svc & Hget & Hm & Hh & _ & Hr & Hrpc & _).
  destruct (@getService_Some _ _ _ _ Hget) as (before & re & after & m & Hv & _).
  assert (He : In (re, svc) services).
  { apply Hin. rewrite Hv. apply in_elt. }
  assert (Hkind : hr_Rpc hr = "upload-pack" \/ hr_Rpc hr = "receive-pack").
  { destruct (@services_methods (re, svc) He) as [(_ & _ & H) | (H & _)];
      cbn [snd] in H; [now rewrite Hrpc | now symmetry in Hh]. }
  assert (Hevents : handled (trace (serviceRpc g os hr))
                    = rpcEvents (hr_Rpc hr) (hr_Dir hr) (Body r)).
  { rewrite handled_serviceRpc, hasAccess_flags, Hr, Hct, String.eqb_refl, Hup, Hrp, Hev.
    unfold requestReader.
    destruct (String.eqb_spec (ContentEncoding r) "gzip"); [contradiction|].
    destruct (String.eqb_spec (ContentEncoding r) "deflate"); [contradiction|].
    destruct Hkind as [-> | ->]; reflexivity. }
  split; [exact Hevents|].
  rewrite Hevents. unfold rpcEvents. intros e.
  destruct (String.eqb (hr_Rpc hr) "upload-pack").
  - intros H. apply in_map_iff in H. destruct H as (m' & <- & _). reflexivity.
  - destruct (String.eqb (hr_Rpc hr) "receive-pack"); [|intros []].
    intros H. apply in_map_iff in H. destruct H as (m' & <- & _).
    destruct (String.eqb _ "heads"); reflexivity.
Qed.

Lemma routed_rpc_events_witness :
  handled (trace (serviceRpc (watched "/srv/git") (hostOS ["/srv/git/repo.git"])
                    (rpcHandlerReq "receive-pack" pushPayload)))
  = rpcEvents "receive-pack" "/srv/git/repo.git" pushPayload.
Proof.
  apply (@routed_rpc_events (watched "/srv/git") (hostOS ["/srv/git/repo.git"])
           services (rpcRequest "receive-pack" pushPayload)
           (rpcHandlerReq "receive-pack" pushPayload)).
  - apply incl_refl.
  - vm_compute. reflexivity.
  - reflexivity.
  - reflexivity.
  - reflexivity.
  - reflexivity.
  - discriminate.
  - discriminate.
Defined.

(** X23.  The two request handlers of the package, [requestHandler] of
    [routing.go] and the one of [git-http.go] that loops over the table
    itself, give the same answer to every request when they visit the
    table in the same order; so what is proved of the one holds of the
    other. *)
Theorem request_handlers_agree (g : GitHttp) (os : OS) (visit : list (regex * Service))
    (r : Request) :
  requestHandler_loop g os visit r = requestHandler g os visit r /\
  (forall h hr,
      incl visit services ->
      requestHandler_loop g os visit r = Calls h hr ->
      Method r = (if match h with serviceRpc_ => true | _ => false end
                  then "POST" else "GET")).
Proof.
  split; [apply requestHandler_loop_eq|].
  intros h hr Hin Hcall. rewrite requestHandler_loop_eq in Hcall.
  destruct (requestHandler_service _ _ _ _ Hcall)
    as (repo & svc & Hget & Hm & -> & _).
  destruct (@getService_Some _ _ _ _ Hget) as (before & re & after & m & Hv & _).
  assert (He : In (re, svc) services).
  { apply Hin. rewrite Hv. apply in_elt. }
  rewrite <- Hm.
  destruct (@services_methods (re, svc) He) as [(H1 & H2 & _) | (H1 & H2 & _)];
    cbn [snd] in H1, H2; rewrite H2.
  - now rewrite H1.
  - destruct (Handler svc); try reflexivity. contradiction H1. reflexivity.
Qed.

Lemma request_handlers_agree_witness :
  Method (getRequest "HTTP/1.1" "/repo.git/HEAD") = "GET".
Proof.
  apply (proj2 (@request_handlers_agree (New "/srv/git") (hostOS ["/srv/git/repo.git"])
                  services (getRequest "HTTP/1.1" "/repo.git/HEAD"))
           getTextFile
           {| hr_r := getRequest "HTTP/1.1" "/repo.git/HEAD"; hr_Rpc := "";
              hr_Dir := "/srv/git/repo.git"; hr_File := "HEAD" |}).
  - apply incl_refl.
  - vm_compute. reflexivity.
Defined.

End Dispatch.

(** ** The repository the authenticator is asked about, and the one the
    router serves *)

Section AuthRouter.
Import GoPath.

Lemma hasPrefix_slash_inside (a r : bytes) (j : nat) :
  forallb notSlash a = true -> j < List.length a ->
  hasPrefix ["/"%char] (skipn j (a ++ r)) = false.
Proof.
  revert j. induction a as [|x a IH]; intros j Ha Hj; [inversion Hj|].
  cbn [forallb] in Ha. apply andb_prop in Ha. destruct Ha as [Hx Ha].
  destruct j as [|j].
  - cbn [skipn app hasPrefix]. unfold notSlash in Hx.
    destruct (Ascii.eqb_spec "/" x) as [<-|]; [discriminate Hx | reflexivity].
  - cbn [skipn app]. apply IH; [exact Ha | cbn [List.length] in Hj; lia].
Qed.

Lemma star_greedy_all (p : ascii -> bool) k (w : bytes) (fuel : nat) pos c :
  (forall pos a s c, p a = true -> k pos (a :: s) c = None) ->
  forallb p w = true ->
  List.length w < fuel ->
  star (run (Class p)) true k fuel pos w c = k (pos + List.length w) [] c.
Proof.
  intros Hk Hp Hf. rewrite <- (app_nil_r w) at 1.
  now apply star_greedy_class.
Qed.

Lemma repoNameRegex_objects (a rest : bytes) :
  forallb notSlash a = true -> forallb notNewline a = true ->
  forallb notNewline rest = true ->
  exists e c2,
    matchAt repoNameRegex 0 ("/"%char :: a ++ bytes_of "/objects/" ++ rest)
    = Some (e, [(2, c2); (1, (1, 1 + List.length a))]).
Proof.
  intros Hs Hn Hr.
  unfold matchAt, repoNameRegex. cbn [seq].
  rewrite run_Cat, run_BeginText. cbn [Nat.eqb].
  rewrite run_Cat, run_Alt, chr_cons. cbv beta.
  rewrite run_Cat, run_Cap, run_Rep.
  eexists _, _.
  erewrite star_lazy_first; [reflexivity | exact Hn | rewrite length_app; lia | |].
  - intros j Hj. cbv beta. rewrite run_Cat, run_chr.
    now rewrite (@hasPrefix_slash_inside a _ j Hs Hj).
  - cbv beta.
    change (bytes_of "/objects/" ++ rest) with ("/"%char :: bytes_of "objects/" ++ rest).
    rewrite run_Cat, chr_cons. cbv beta.
    rewrite run_Cat, run_Cap, !run_Alt.
    unfold str at 1. rewrite run_lit.
    change (hasPrefix (bytes_of "HEAD") (bytes_of "objects/" ++ rest)) with false.
    cbv iota.
    unfold str at 1. rewrite run_lit.
    change (hasPrefix (bytes_of "git-upload-pack") (bytes_of "objects/" ++ rest)) with false.
    cbv iota.
    unfold str at 1. rewrite run_lit.
    change (hasPrefix (bytes_of "git-receive-pack") (bytes_of "objects/" ++ rest)) with false.
    cbv iota.
    unfold str at 1. rewrite run_lit.
    change (hasPrefix (bytes_of "info/refs") (bytes_of "objects/" ++ rest)) with false.
    cbv iota.
    rewrite run_Cat, lit_app, run_Rep. cbv beta.
    rewrite star_greedy_all; [| | exact Hr | lia].
    + rewrite run_Cat, run_EndText. cbn [run]. unfold accept. reflexivity.
    + intros pos0 x s0 c0 _. now rewrite run_Cat, run_EndText.
Qed.

(** [repoName] of a path whose second element is [objects] is the first
    element, whatever follows. *)
Lemma repoName_objects (a rest : bytes) :
  forallb notSlash a = true -> forallb notNewline a = true ->
  forallb notNewline rest = true ->
  repoName (str_of ("/"%char :: a ++ bytes_of "/objects/" ++ rest)) = str_of a.
Proof.
  intros Hs Hn Hr. unfold repoName, FindStringSubmatch. rewrite bytes_of_str_of.
  destruct (repoNameRegex_objects a rest Hs Hn Hr) as (e & c2 & Hm).
  rewrite (search_here _ _ _ Hm). unfold sub. cbn [mCaps lookup Nat.eqb]. f_equal.
  apply (@slice_at _ ["/"%char] a (bytes_of "/objects/" ++ rest)); reflexivity.
Qed.

Lemma capfree_lit (l : bytes) : capfree (lit l) = true.
Proof. induction l as [|a l IH]; [reflexivity | exact IH]. Qed.

(** The repository a literal route takes from a path without a newline is
    all of the path in front of the literal. *)
Lemma literal_route_repo (L : string) (pre : bytes) (m : submatch) :
  forallb notNewline (pre ++ bytes_of L) = true ->
  search (route [str L]) 0 (pre ++ bytes_of L) = Some m ->
  sub (pre ++ bytes_of L) m 1 = str_of pre.
Proof.
  intros Hnl Hs.
  assert (Hcf : capfree (seq ([str L] ++ [EndText])) = true).
  { cbn [app seq capfree]. unfold str. now rewrite capfree_lit. }
  destruct (@route_first_group [str L] _ _ Hcf Hnl Hs) as (n & e & Hn & -> & Hrun).
  cbn [app] in Hrun. apply seq_lit in Hrun. destruct Hrun as (r1 & Hr1 & Hrun).
  apply seq_end in Hrun. subst r1. rewrite app_nil_r in Hr1.
  unfold sub, slice. cbn [mCaps lookup Nat.eqb skipn]. rewrite Nat.sub_0_r. f_equal.
  apply (app_inv_tail (bytes_of L)).
  pose proof (firstn_skipn n (pre ++ bytes_of L)) as Hfs.
  now rewrite Hr1 in Hfs.
Qed.

Lemma isName_not_dots (e : bytes) :
  isName e = true -> e <> [] /\ isDot e = false /\ isDotDot e = false.
Proof.
  unfold isName. destruct e as [|x e]; [discriminate|]. intros H.
  apply andb_prop in H. destruct H as [H1 H2].
  apply negb_true_iff in H1, H2. repeat split; [discriminate | exact H1 | exact H2].
Qed.

(** Where [path.Join] puts [/a/objects/../../b] below a clean root: in the
    directory [b] of the root. *)
Lemma Join_sibling (root : string) (a b : bytes) :
  isCleanRoot root = true ->
  isName a = true -> forallb notSlash a = true ->
  isName b = true -> forallb notSlash b = true ->
  Join [root; str_of ("/"%char :: a ++ bytes_of "/objects/../../" ++ b)]
  = (root ++ "/" ++ str_of b)%string.
Proof.
  intros Hroot Ha Hsa Hb Hsb. unfold isCleanRoot in Hroot.
  destruct (elements (bytes_of root)) as [|[|] [|e es]] eqn:Eroot; try discriminate.
  assert (Hr : bytes_of root = "/"%char :: joinElements (e :: es)).
  { rewrite <- (joinElements_elements (bytes_of root)), Eroot. reflexivity. }
  assert (Hne : root <> "") by (intros ->; discriminate).
  destruct (isName_not_dots _ Ha) as (Hane & Had & Hadd).
  destruct (isName_not_dots _ Hb) as (Hbne & Hbd & Hbdd).
  assert (Hbuf : bytes_of (concatWithSlash
                             [root; str_of ("/"%char :: a ++ bytes_of "/objects/../../" ++ b)])
                 = bytes_of root ++ "/"%char
                   :: ("/"%char :: a ++ bytes_of "/objects/../../" ++ b)).
  { destruct (@concatWithSlash_pair root
                (str_of ("/"%char :: a ++ bytes_of "/objects/../../" ++ b)) Hne)
      as [H | H]; [|now rewrite H, bytes_of_str_of].
    exfalso. revert H. cbn [concatWithSlash].
    destruct (String.eqb_spec root ""); [contradiction|]. cbn.
    rewrite bytes_of_app. intros H.
    apply (f_equal (@List.length ascii)) in H. rewrite length_app in H.
    cbn [List.length bytes_of list_ascii_of_string] in H. lia. }
  assert (Hels : elements (bytes_of (concatWithSlash
                             [root; str_of ("/"%char :: a ++ bytes_of "/objects/../../" ++ b)]))
                 = ([] :: e :: es)
                   ++ [[]; a; bytes_of "objects"; bytes_of ".."; bytes_of ".."; b]).
  { rewrite Hbuf, elements_app_slash, Eroot. f_equal.
    change ("/"%char :: a ++ bytes_of "/objects/../../" ++ b)
      with ([] ++ "/"%char :: (a ++ "/"%char :: bytes_of "objects"
                                 ++ "/"%char :: bytes_of ".."
                                 ++ "/"%char :: bytes_of ".." ++ "/"%char :: b)).
    rewrite !elements_app_slash, (elements_single _ Hsa), (elements_single _ Hsb).
    reflexivity. }
  unfold Join.
  destruct (String.eqb_spec (concatWithSlash
              [root; str_of ("/"%char :: a ++ bytes_of "/objects/../../" ++ b)]) "") as [E|_].
  { rewrite E in Hbuf. rewrite Hr in Hbuf. discriminate Hbuf. }
  unfold Clean. rewrite Hels. rewrite Hbuf at 1. rewrite Hbuf, Hr. cbn [isRooted app].
  rewrite Ascii.eqb_refl.
  rewrite cleanElements_empty.
  change (e :: es ++ [[]; a; bytes_of "objects"; bytes_of ".."; bytes_of ".."; b])
    with ((e :: es) ++ [[]; a; bytes_of "objects"; bytes_of ".."; bytes_of ".."; b]).
  rewrite (cleanElements_names true (e :: es) _ [] Hroot), app_nil_r.
  rewrite cleanElements_empty.
  destruct a as [|x a]; [contradiction|]. destruct b as [|y b]; [contradiction|].
  cbn [cleanElements]. rewrite Had, Hadd.
  change (isDot (bytes_of "objects")) with false.
  change (isDotDot (bytes_of "objects")) with false.
  change (isDot (bytes_of "..")) with false.
  change (isDotDot (bytes_of "..")) with true.
  cbv iota. cbn [bytes_of list_ascii_of_string cleanElements].
  change (isDot ["."%char; "."%char]) with false.
  change (isDotDot ["."%char; "."%char]) with true.
  change (isDot ["o"; "b"; "j"; "e"; "c"; "t"; "s"]%char) with false.
  change (isDotDot ["o"; "b"; "j"; "e"; "c"; "t"; "s"]%char) with false.
  cbv iota. rewrite ?Hadd, ?Hbd, ?Hbdd.
  change (rev ((y :: b) :: rev (e :: es))) with (rev (rev (e :: es)) ++ [y :: b]).
  rewrite rev_involutive, joinElements_app by discriminate.
  apply bytes_of_inj. rewrite !bytes_of_app, Hr.
  cbn [bytes_of list_ascii_of_string app].
  fold (bytes_of (str_of (joinElements (e :: es) ++ "/"%char :: joinElements [y :: b]))).
  fold (bytes_of (str_of (y :: b))).
  now rewrite !bytes_of_str_of.
Qed.

(** No path [/a/objects/../../b/git-receive-pack] is one of
    [/objects/info/[^/]*]. *)
Lemma sibling_not_infofile (a b : bytes) :
  forallb notSlash b = true ->
  ~ matchesPath _getInfoFile
      (str_of ("/"%char :: a ++ bytes_of "/objects/../../" ++ b
                 ++ bytes_of "/git-receive-pack")).
Proof.
  intros Hsb Hinfo.
  destruct (@route_infofile_shape _ Hinfo) as (pre' & w' & Hp & Hw').
  rewrite bytes_of_str_of in Hp.
  assert (H1 : ("/"%char :: a ++ bytes_of "/objects/../../" ++ b)
               ++ "/"%char :: bytes_of "git-receive-pack"
               = (pre' ++ bytes_of "/objects/info") ++ "/"%char :: w').
  { rewrite <- Hp. cbn [app]. now rewrite <- !app_assoc. }
  apply last_segment_unique in H1; [|reflexivity | exact Hw'].
  destruct H1 as [H1 _].
  assert (H2 : ("/"%char :: a ++ bytes_of "/objects/../..") ++ "/"%char :: b
               = (pre' ++ bytes_of "/objects") ++ "/"%char :: bytes_of "info").
  { rewrite <- app_assoc. cbn [app]. rewrite <- app_assoc. exact H1. }
  apply last_segment_unique in H2; [|exact Hsb | reflexivity].
  destruct H2 as [H2 _].
  assert (H3 : ("/"%char :: a ++ bytes_of "/objects/..") ++ "/"%char :: bytes_of ".."
               = pre' ++ "/"%char :: bytes_of "objects").
  { change (pre' ++ "/"%char :: bytes_of "objects") with (pre' ++ bytes_of "/objects").
    rewrite <- H2. cbn [app]. now rewrite <- app_assoc. }
  apply last_segment_unique in H3; [|reflexivity | reflexivity].
  destruct H3 as [_ H3]. discriminate H3.
Qed.

(** X24.  The authenticator and the router read the same path, each with
    its own pattern, and they can name different repositories.  For any two
    names [a] and [b], a POST request for
    [/a/objects/../../b/git-receive-pack] is a push to the repository [a]
    in the [AuthInfo] that [Authenticator] hands to its function, since
    [repoName] stops at the first [/objects/]; and [requestHandler], in
    whatever order it visits the route table, hands it to [serviceRpc] with
    the directory [b] of the root, when that directory exists, since the
    router takes all in front of [/git-receive-pack] and [getGitDir] cleans
    it. *)
Theorem authenticator_and_router_disagree (g : GitHttp) (os : OS)
    (visit : list (regex * Service)) (r : Request) (a b : bytes) :
  visitOrder visit ->
  isCleanRoot (ProjectRoot g) = true ->
  isName a = true -> forallb notSlash a = true -> forallb notNewline a = true ->
  isName b = true -> forallb notSlash b = true -> forallb notNewline b = true ->
  Path r = str_of ("/"%char :: a ++ bytes_of "/objects/../../" ++ b
                     ++ bytes_of "/git-receive-pack") ->
  Method r = "POST" ->
  Stat os (ProjectRoot g ++ "/" ++ str_of b)%string <> StatNotExist ->
  repoName (Path r) = str_of a /\
  requestHandler g os visit r
  = Calls serviceRpc_
      {| hr_r := r; hr_Rpc := "receive-pack";
         hr_Dir := (ProjectRoot g ++ "/" ++ str_of b)%string;
         hr_File := "git-receive-pack" |}.
Proof.
  intros Hperm Hroot Ha Hsa Hna Hb Hsb Hnb Hpath Hmeth Hstat.
  unfold visitOrder in Hperm.
  set (pre := "/"%char :: a ++ bytes_of "/objects/../../" ++ b).
  assert (HP : "/"%char :: a ++ bytes_of "/objects/../../" ++ b
                 ++ bytes_of "/git-receive-pack"
               = pre ++ bytes_of "/git-receive-pack").
  { unfold pre. cbn [app]. now rewrite <- !app_assoc. }
  assert (Hnl : forallb notNewline (pre ++ bytes_of "/git-receive-pack") = true).
  { unfold pre. cbn [app forallb]. rewrite !forallb_app, Hna, Hnb. reflexivity. }
  split.
  - rewrite Hpath.
    change (bytes_of "/objects/../../") with (bytes_of "/objects/" ++ bytes_of "../../").
    rewrite <- app_assoc. apply repoName_objects; [exact Hsa | exact Hna |].
    rewrite !forallb_app, Hnb. reflexivity.
  - set (e0 := (_serviceRpcReceive,
                {| SMethod := "POST"; Handler := serviceRpc_; Rpc := "receive-pack" |})).
    assert (He0 : In e0 services) by (unfold e0; right; left; reflexivity).
    assert (Hstr : Path r = (str_of pre ++ "/git-receive-pack")%string).
    { rewrite Hpath, HP. apply bytes_of_inj.
      now rewrite bytes_of_app, !bytes_of_str_of. }
    assert (Hm0 : matchesPath (fst e0) (Path r)).
    { rewrite Hstr. apply (route_lit_matches "/git-receive-pack"). }
    assert (Hinfo : ~ matchesPath _getInfoFile (Path r)).
    { rewrite Hpath. now apply sibling_not_infofile. }
    assert (He0v : In e0 visit) by (apply Permutation_in with (l := services); assumption).
    destruct (getService visit (Path r)) as [[repo svc]|] eqn:Hget.
    2:{ rewrite getService_None in Hget. specialize (Hget e0 He0v).
        contradiction (Hm0 Hget). }
    destruct (@getService_Some _ _ _ _ Hget) as (before & re & after & m & Hv & _ & Hfind & Hrepo).
    assert (He : In (re, svc) services).
    { apply Permutation_in with (l := visit); [now symmetry|]. rewrite Hv. apply in_elt. }
    assert (Hm : matchesPath (fst (re, svc)) (Path r)).
    { unfold matchesPath. cbn [fst]. rewrite Hfind. discriminate. }
    assert (Heq : (re, svc) = e0).
    { destruct (@services_overlap (re, svc) e0 (Path r) He He0 Hm Hm0) as [H | [H | H]].
      - exact H.
      - exfalso. apply Hinfo. apply (f_equal fst) in H. cbn [fst infoFileEntry] in H.
        now rewrite <- H.
      - discriminate (f_equal (fun e => Handler (snd e)) H). }
    unfold e0 in Heq. injection Heq as -> ->.
    assert (Hrepo' : repo = str_of pre).
    { rewrite Hrepo. unfold FindStringSubmatch in Hfind.
      rewrite Hpath, bytes_of_str_of, HP in *.
      now apply literal_route_repo. }
    unfold requestHandler. rewrite Hget. cbn [SMethod Handler Rpc].
    rewrite Hmeth. cbn [String.eqb Ascii.eqb Bool.eqb negb].
    assert (Hne : ProjectRoot g <> "") by (intros E; rewrite E in Hroot; discriminate Hroot).
    unfold getGitDir. destruct (String.eqb_spec (ProjectRoot g) ""); [contradiction|].
    assert (HJ : Join [ProjectRoot g; str_of pre]
                 = (ProjectRoot g ++ "/" ++ str_of b)%string)
      by (now apply Join_sibling).
    rewrite Hrepo', HJ.
    assert (Hfile : Replace_with_empty (Path r) (str_of pre ++ "/")%string (Some 1)
                    = "git-receive-pack").
    { assert (Ho : (str_of pre ++ "/")%string = str_of (pre ++ ["/"%char])).
      { apply bytes_of_inj. now rewrite bytes_of_app, !bytes_of_str_of. }
      rewrite Ho, Hpath, HP.
      replace (pre ++ bytes_of "/git-receive-pack")
        with ((pre ++ ["/"%char]) ++ bytes_of "git-receive-pack")
        by (now rewrite <- app_assoc).
      rewrite Replace_first; [reflexivity|].
      intros E. apply app_eq_nil in E. destruct E as [_ E]. discriminate E. }
    rewrite Hfile.
    destruct (Stat os (ProjectRoot g ++ "/" ++ str_of b)%string); try reflexivity.
    exfalso. now apply Hstat.
Qed.

Lemma authenticator_and_router_disagree_witness :
  let r := {| Method := "POST";
              Path := "/public.git/objects/../../private.git/git-receive-pack";
              Proto := "HTTP/1.1";
              ContentType := "application/x-git-receive-pack-request";
              ContentEncoding := ""; FormService := ""; Body := pushPayload |} in
  repoName (Path r) = "public.git" /\
  requestHandler (New "/srv/git") (hostOS ["/srv/git/private.git"]) (rev services) r
  = Calls serviceRpc_
      {| hr_r := r; hr_Rpc := "receive-pack"; hr_Dir := "/srv/git/private.git";
         hr_File := "git-receive-pack" |}.
Proof.
  intros r.
  apply (@authenticator_and_router_disagree (New "/srv/git")
           (hostOS ["/srv/git/private.git"]) (rev services) r
           (bytes_of "public.git") (bytes_of "private.git")).
  - apply Permutation_rev.
  - reflexivity.
  - reflexivity.
  - reflexivity.
  - reflexivity.
  - reflexivity.
  - reflexivity.
  - reflexivity.
  - reflexivity.
  - reflexivity.
  - vm_compute. discriminate.
Defined.

End AuthRouter.
